(** * A shallow embedding of dsf.py, the per-group ledger bot

    The program keeps, for every chat group, one SQLite file with the tables
    [cycles], [bills] and [previous_balances], and a process-wide dictionary
    [bot_data] that caches the identifier of the active cycle.  The handlers
    [handle_command] and [button_callback] are embedded as functions that pass
    the state of one group explicitly; the retry wrapper around the delivery
    calls is embedded on its own, over a trace of attempts and sleeps.

    Conventions of the embedding.
    - A Python [str] is the list of its code points ([N]), so that slicing by
      index and the comparison with the command words are the source's.
    - Python integers are [Z].  The storage engine keeps 64-bit integers:
      binding an integer outside that range raises OverflowError, and [SUM]
      raises once its running total leaves it; both are embedded, and so is
      the bound of 4300 digits beyond which [int()] raises ValueError.  The
      identifiers of chats and users are those of the chat service, which
      are inside the 64 bits.
    - [datetime.now()] is an input of every handler: a function from the rank
      of the call inside the handler to the timestamp it returned.
    - Whether the actor may write ([is_authorized_user], which asks the chat
      service and the [operators] table) is an input of every ledger handler.
      The tables [users] and [operators] hold no ledger data; they come with
      the whole handlers, [handle_message] and [handle_callback], which
      compute that input.
    - Apart from these overflows, storage statements complete, except
      inside the transaction of the closing command, whose [try] block is
      embedded with the statement that raises as an input. *)

From Stdlib Require Import ZArith NArith List Bool Lia Permutation Sorted.
From Stdlib Require Import QArith Qround.
Import ListNotations.
Local Open Scope Z_scope.

(** ** Python strings *)

Definition pystr : Type := list N.

Module PyStr.

Fixpoint eqb (a b : pystr) : bool :=
  match a, b with
  | [], [] => true
  | x :: a', y :: b' => N.eqb x y && eqb a' b'
  | _, _ => false
  end.

(** [str.isspace] for one code point: the characters [str.split()] and
    [str.strip()] treat as separators. *)
Definition isspace (c : N) : bool :=
  existsb (N.eqb c)
    [9; 10; 11; 12; 13; 28; 29; 30; 31; 32; 133; 160; 5760; 8192; 8193; 8194;
     8195; 8196; 8197; 8198; 8199; 8200; 8201; 8202; 8232; 8233; 8239; 8287;
     12288]%N.

(** The decimal digits: the characters [\d] matches and [int()] reads, those
    of the category Nd of Unicode.  The table gives each block of digits by
    its first code point and its length; inside a block the digits 0 to 9
    follow each other, once or several times, so that the value of a digit
    is its rank in the block modulo 10.  The blocks are those of Unicode
    14.0, the table of CPython 3.11. *)
Definition decimal_blocks : list (N * N) :=
  [(48, 10); (1632, 10); (1776, 10); (1984, 10); (2406, 10); (2534, 10);
   (2662, 10); (2790, 10); (2918, 10); (3046, 10); (3174, 10); (3302, 10);
   (3430, 10); (3558, 10); (3664, 10); (3792, 10); (3872, 10); (4160, 10);
   (4240, 10); (6112, 10); (6160, 10); (6470, 10); (6608, 10); (6784, 10);
   (6800, 10); (6992, 10); (7088, 10); (7232, 10); (7248, 10); (42528, 10);
   (43216, 10); (43264, 10); (43472, 10); (43504, 10); (43600, 10);
   (44016, 10); (65296, 10); (66720, 10); (68912, 10); (69734, 10);
   (69872, 10); (69942, 10); (70096, 10); (70384, 10); (70736, 10);
   (70864, 10); (71248, 10); (71360, 10); (71472, 10); (71904, 10);
   (72016, 10); (72784, 10); (73040, 10); (73120, 10); (92768, 10);
   (92864, 10); (93008, 10); (120782, 50); (123200, 10); (123632, 10);
   (125264, 10); (130032, 10)]%N.

Definition decimal (c : N) : option N :=
  option_map (fun r => ((c - fst r) mod 10)%N)
    (find (fun r => (fst r <=? c)%N && (c <? fst r + snd r)%N) decimal_blocks).

(** [str.isdecimal] for one code point. *)
Definition isdecimal (c : N) : bool :=
  match decimal c with Some _ => true | None => false end.

Definition digit_value (c : N) : Z :=
  match decimal c with Some v => Z.of_N v | None => 0 end.

Fixpoint lstrip (s : pystr) : pystr :=
  match s with
  | c :: r => if isspace c then lstrip r else s
  | [] => []
  end.

Definition strip (s : pystr) : pystr := rev (lstrip (rev (lstrip s))).

(** [s.split()]: the maximal runs of non-space characters, in order.  [tok]
    holds the characters of the current run, last one first. *)
Fixpoint split_ws (s tok : pystr) : list pystr :=
  match s with
  | [] => match tok with [] => [] | _ => [rev tok] end
  | c :: r =>
      if isspace c
      then match tok with [] => split_ws r [] | _ => rev tok :: split_ws r [] end
      else split_ws r (c :: tok)
  end.

Definition split (s : pystr) : list pystr := split_ws s [].

(** [s.split(sep)] for a one-character separator: empty pieces are kept. *)
Fixpoint split_on (sep : N) (s tok : pystr) : list pystr :=
  match s with
  | [] => [rev tok]
  | c :: r =>
      if N.eqb c sep then rev tok :: split_on sep r [] else split_on sep r (c :: tok)
  end.

Fixpoint join (sep : pystr) (l : list pystr) : pystr :=
  match l with
  | [] => []
  | [x] => x
  | x :: r => x ++ sep ++ join sep r
  end.

Fixpoint startswith (s prefix : pystr) {struct prefix} : bool :=
  match prefix, s with
  | [], _ => true
  | p :: prefix', c :: s' => N.eqb c p && startswith s' prefix'
  | _ :: _, [] => false
  end.

(** [x or y] on strings: the empty string is false. *)
Definition or_else (x y : pystr) : pystr :=
  match x with [] => y | _ => x end.

(** The digits of an [int()] literal: groups of digits, one underscore
    allowed between two digits. *)
Fixpoint int_digits (s : pystr) (acc : Z) (after_digit : bool) : option Z :=
  match s with
  | [] => if after_digit then Some acc else None
  | c :: r =>
      if isdecimal c then int_digits r (10 * acc + digit_value c) true
      else if N.eqb c 95 && after_digit
           then match r with [] => None | _ => int_digits r acc false end
           else None
  end.

(** The blanks [int()] drops at both ends of its argument: those of
    [str.isspace] but the four separators U+001C to U+001F. *)
Definition int_space (c : N) : bool :=
  isspace c && negb ((28 <=? c)%N && (c <=? 31)%N).

Fixpoint int_lstrip (s : pystr) : pystr :=
  match s with
  | c :: r => if int_space c then int_lstrip r else s
  | [] => []
  end.

Definition int_strip (s : pystr) : pystr := rev (int_lstrip (rev (int_lstrip s))).

(** The bound the interpreter puts on the number of digits of a conversion
    between [int] and [str]: 4300, its default since CPython 3.11. *)
Definition max_str_digits : Z := 4300.

(** The value of an [int()] literal, once its blanks are dropped. *)
Definition int_literal (t : pystr) : option Z :=
  match t with
  | 43%N :: r => int_digits r 0 false
  | 45%N :: r => option_map Z.opp (int_digits r 0 false)
  | _ => int_digits t 0 false
  end.

(** [int(s)]: [None] stands for [ValueError], which a text that is no
    literal raises, and a literal of more than [max_str_digits] digits as
    well. *)
Definition int (s : pystr) : option Z :=
  let t := int_strip s in
  if max_str_digits <? Z.of_nat (length (filter isdecimal t)) then None
  else int_literal t.

(** [re.match(r'^[+-]\d+', s)] as a truth value. *)
Definition match_signed_digits (s : pystr) : bool :=
  match s with
  | c :: d :: _ => (N.eqb c 43 || N.eqb c 45) && isdecimal d
  | _ => false
  end.

(** [str(n)] for a natural number: its decimal digits, most significant
    first.  [fuel] bounds the number of digits; [acc] holds the digits
    already produced, which stand after the ones still to come. *)
Fixpoint digits_from (fuel : nat) (n : N) (acc : pystr) : pystr :=
  match fuel with
  | O => acc
  | S fuel' =>
      let acc' := (48 + n mod 10)%N :: acc in
      if (n <? 10)%N then acc' else digits_from fuel' (n / 10)%N acc'
  end.

Definition of_N (n : N) : pystr := digits_from (S (N.to_nat (N.size n))) n [].

(** [str(z)], as the f-strings format an integer. *)
Definition of_int (z : Z) : pystr :=
  if (z <? 0)%Z then 45%N :: of_N (Z.to_N (- z)) else of_N (Z.to_N z).

(** The integers [str] converts: those of at most [max_str_digits] digits.
    Beyond them [str] raises ValueError, as [int] does. *)
Definition str_fits (z : Z) : bool := Z.abs z <? 10 ^ max_str_digits.

(** [s.strip(chars)] for one character. *)
Fixpoint lstrip_char (ch : N) (s : pystr) : pystr :=
  match s with
  | c :: r => if N.eqb c ch then lstrip_char ch r else s
  | [] => []
  end.

Definition strip_char (ch : N) (s : pystr) : pystr :=
  rev (lstrip_char ch (rev (lstrip_char ch s))).

End PyStr.

(** The words of the command surface, as code points. *)
Module Words.
Definition open_cycle : pystr := [19978; 35838]%N.          (* 上课 *)
Definition close_cycle : pystr := [19979; 35838]%N.         (* 下课 *)
Definition balance : pystr := [32467; 20313]%N.             (* 结余 *)
Definition undo : pystr := [25764; 38144]%N.                (* 撤销 *)
Definition set_operator : pystr := [35774; 32622; 25805; 20316; 21592]%N.
Definition del_operator : pystr := [21024; 38500; 25805; 20316; 21592]%N.
Definition list_operators : pystr := [24403; 21069; 25805; 20316; 21592]%N.
Definition help : pystr := [24110; 21161]%N.
Definition balance_tag : pystr := [91; 32467; 20313; 93]%N. (* [结余] *)
Definition default_balance_note : pystr := [19978; 26399; 32467; 20313]%N.
Definition auto_import_note : pystr :=
  [91; 32467; 20313; 93; 32; 33258; 21160; 23548; 20837]%N.
Definition details : pystr := [100; 101; 116; 97; 105; 108; 115]%N.
Definition importbalance : pystr :=
  [105; 109; 112; 111; 114; 116; 98; 97; 108; 97; 110; 99; 101]%N.
Definition space : pystr := [32]%N.
End Words.

(** ** The ledger store *)

Definition timestamp : Type := pystr.

Record cycle : Type := mk_cycle {
  cycle_id : Z;
  cycle_group_id : Z;
  start_time : timestamp;
  end_time : option timestamp;
  is_active : bool
}.

Record bill : Type := mk_bill {
  bill_id : Z;
  bill_cycle_id : Z;
  bill_group_id : Z;
  user_id : Z;
  amount : Z;
  description : pystr;
  created_at : timestamp
}.

Record previous_balance_row : Type := mk_previous_balance {
  pb_id : Z;
  pb_group_id : Z;
  pb_amount : Z;
  pb_created_at : timestamp
}.

(** One group's database file.  Every table is the list of its rows in rowid
    order; the [_seq] fields are the AUTOINCREMENT counters. *)
Record db : Type := mk_db {
  cycles : list cycle;
  cycles_seq : Z;
  bills : list bill;
  bills_seq : Z;
  previous_balances : list previous_balance_row;
  previous_balances_seq : Z
}.

Definition empty_db : db := mk_db [] 0 [] 0 [] 0.

(** AUTOINCREMENT: one more than the largest rowid the table ever held. *)
Definition next_rowid (seq : Z) (ids : list Z) : Z :=
  1 + fold_right Z.max seq ids.

(** *** SQL expressions *)

(** [description LIKE '[结余]%']: the pattern holds no letter and no wildcard
    before its final [%], so it is a prefix test. *)
Definition like_balance (d : pystr) : bool :=
  PyStr.startswith d Words.balance_tag.

(** The integers the engine stores: 64 bits, signed.  Binding a Python
    integer outside this range raises OverflowError. *)
Definition int64 (z : Z) : bool := (- 2 ^ 63 <=? z) && (z <? 2 ^ 63).

(** [SUM] over integers raises "integer overflow" when its running total,
    taken in the order of the rows, leaves the 64 bits at some row. *)
Fixpoint sum_overflows (acc : Z) (l : list (option Z)) : bool :=
  match l with
  | [] => false
  | None :: r => sum_overflows acc r
  | Some v :: r => negb (int64 (acc + v)) || sum_overflows (acc + v) r
  end.

(** [SUM] skips NULL and is NULL over no value; this is its value when it
    does not raise.  [COUNT(e)] counts the values that are not NULL. *)
Fixpoint sql_sum (l : list (option Z)) : option Z :=
  match l with
  | [] => None
  | None :: r => sql_sum r
  | Some v :: r => Some (v + match sql_sum r with Some t => t | None => 0 end)
  end.

Fixpoint sql_count (l : list (option Z)) : Z :=
  match l with
  | [] => 0
  | None :: r => sql_count r
  | Some _ :: r => 1 + sql_count r
  end.

Definition coalesce (v : option Z) (d : Z) : Z :=
  match v with Some x => x | None => d end.

(** [ORDER BY bill_id DESC], by insertion. *)
Fixpoint insert_desc (b : bill) (l : list bill) : list bill :=
  match l with
  | [] => [b]
  | x :: r => if bill_id x <=? bill_id b then b :: l else x :: insert_desc b r
  end.

Fixpoint order_by_bill_id_desc (l : list bill) : list bill :=
  match l with
  | [] => []
  | b :: r => insert_desc b (order_by_bill_id_desc r)
  end.

Definition in_cycle (c : Z) (b : bill) : bool := bill_cycle_id b =? c.

Definition is_deposit (b : bill) : bool :=
  (amount b >? 0) && negb (like_balance (description b)).

Definition is_withdrawal (b : bill) : bool :=
  (amount b <? 0) && negb (like_balance (description b)).

Definition is_balance (b : bill) : bool := like_balance (description b).

(** [CASE WHEN cond THEN e END]: NULL where the condition fails. *)
Definition case_when {A} (cond : bill -> bool) (e : bill -> A) (b : bill) : option A :=
  if cond b then Some (e b) else None.

(** *** get_cycle_summary *)

Record summary : Type := mk_summary {
  total_deposits : Z;
  deposit_count : Z;
  total_withdrawals : Z;
  withdrawal_count : Z;
  previous_balance : Z;
  net_balance : Z;
  deposits : list (Z * timestamp);
  withdrawals : list (Z * timestamp)
}.

Definition amount_and_time (b : bill) : Z * timestamp := (amount b, created_at b).

Definition get_cycle_summary (d : db) (cid : Z) : summary :=
  let rows := filter (in_cycle cid) (bills d) in
  let res0 := coalesce (sql_sum (map (case_when is_deposit amount) rows)) 0 in
  let res1 := coalesce (Some (sql_count (map (case_when is_deposit (fun _ => 1)) rows))) 0 in
  let res2 := coalesce (sql_sum (map (case_when is_withdrawal amount) rows)) 0 in
  let res3 := coalesce (Some (sql_count (map (case_when is_withdrawal (fun _ => 1)) rows))) 0 in
  let res4 := coalesce (sql_sum (map (case_when is_balance amount) rows)) 0 in
  let total_deposits := res0 in
  let total_withdrawals := Z.abs res2 in
  let previous_balance := res4 in
  mk_summary total_deposits res1 total_withdrawals res3 previous_balance
    (total_deposits - total_withdrawals + previous_balance)
    (firstn 5 (map amount_and_time
       (order_by_bill_id_desc (filter is_deposit rows))))
    (firstn 5 (map amount_and_time
       (order_by_bill_id_desc (filter is_withdrawal rows)))).

(** Whether get_cycle_summary raises: one of the three [SUM]s of its first
    query overflows.  The rows of a cycle come in the order of their ids,
    all of them being of one group. *)
Definition summary_raises (d : db) (cid : Z) : bool :=
  let rows := filter (in_cycle cid) (bills d) in
  sum_overflows 0 (map (case_when is_deposit amount) rows)
  || sum_overflows 0 (map (case_when is_withdrawal amount) rows)
  || sum_overflows 0 (map (case_when is_balance amount) rows).

(** *** Connections

    A connection works on a copy of the file; [commit] makes the copy the
    file, [rollback] and leaving the [async with] block without a commit drop
    it. *)

Record conn : Type := mk_conn { durable : db; working : db }.

Definition connect (d : db) : conn := mk_conn d d.
Definition execute (stmt : db -> db) (c : conn) : conn :=
  mk_conn (durable c) (stmt (working c)).
Definition commit (c : conn) : conn := mk_conn (working c) (working c).
Definition rollback (c : conn) : conn := mk_conn (durable c) (durable c).
Definition disconnect (c : conn) : db := durable c.

(** *** Statements *)

(** UPDATE cycles SET is_active = FALSE WHERE group_id = ? *)
Definition deactivate_cycles (g : Z) (d : db) : db :=
  mk_db
    (map (fun c => if cycle_group_id c =? g
                   then mk_cycle (cycle_id c) (cycle_group_id c) (start_time c)
                          (end_time c) false
                   else c) (cycles d))
    (cycles_seq d) (bills d) (bills_seq d)
    (previous_balances d) (previous_balances_seq d).

(** INSERT INTO cycles (group_id, start_time, is_active) VALUES (?, ?, ?) *)
Definition insert_cycle (g : Z) (start : timestamp) (active : bool) (d : db) : db :=
  let id := next_rowid (cycles_seq d) (map cycle_id (cycles d)) in
  mk_db (cycles d ++ [mk_cycle id g start None active]) id
    (bills d) (bills_seq d) (previous_balances d) (previous_balances_seq d).

(** UPDATE cycles SET is_active = FALSE, end_time = ? WHERE cycle_id = ? *)
Definition end_cycle (ended : timestamp) (cid : Z) (d : db) : db :=
  mk_db
    (map (fun c => if cycle_id c =? cid
                   then mk_cycle (cycle_id c) (cycle_group_id c) (start_time c)
                          (Some ended) false
                   else c) (cycles d))
    (cycles_seq d) (bills d) (bills_seq d)
    (previous_balances d) (previous_balances_seq d).

(** DELETE FROM previous_balances WHERE group_id = ? *)
Definition delete_previous_balances (g : Z) (d : db) : db :=
  mk_db (cycles d) (cycles_seq d) (bills d) (bills_seq d)
    (filter (fun r => negb (pb_group_id r =? g)) (previous_balances d))
    (previous_balances_seq d).

(** INSERT INTO previous_balances (group_id, amount, created_at) VALUES (?, ?, ?) *)
Definition insert_previous_balance (g v : Z) (t : timestamp) (d : db) : db :=
  let id := next_rowid (previous_balances_seq d) (map pb_id (previous_balances d)) in
  mk_db (cycles d) (cycles_seq d) (bills d) (bills_seq d)
    (previous_balances d ++ [mk_previous_balance id g v t]) id.

(** INSERT INTO bills (cycle_id, group_id, user_id, amount, description, created_at) *)
Definition insert_bill (cid g u v : Z) (note : pystr) (t : timestamp) (d : db) : db :=
  let id := next_rowid (bills_seq d) (map bill_id (bills d)) in
  mk_db (cycles d) (cycles_seq d)
    (bills d ++ [mk_bill id cid g u v note t]) id
    (previous_balances d) (previous_balances_seq d).

(** DELETE FROM bills WHERE bill_id = ? *)
Definition delete_bill (id : Z) (d : db) : db :=
  mk_db (cycles d) (cycles_seq d)
    (filter (fun b => negb (bill_id b =? id)) (bills d)) (bills_seq d)
    (previous_balances d) (previous_balances_seq d).

(** SELECT cycle_id FROM cycles WHERE group_id = ? AND is_active = TRUE, fetchone *)
Definition select_active_cycle (g : Z) (d : db) : option Z :=
  option_map cycle_id
    (find (fun c => (cycle_group_id c =? g) && is_active c) (cycles d)).

(** SELECT 1 FROM bills WHERE cycle_id = ? AND description LIKE '[结余]%', fetchone *)
Definition balance_recorded (cid : Z) (d : db) : bool :=
  existsb (fun b => in_cycle cid b && is_balance b) (bills d).

(** SELECT bill_id, amount, description FROM bills WHERE cycle_id = ?
    ORDER BY bill_id DESC LIMIT 1, fetchone *)
Definition select_last_bill (cid : Z) (d : db) : option bill :=
  hd_error (order_by_bill_id_desc (filter (in_cycle cid) (bills d))).

(** The row of [l] with the largest id (ORDER BY id DESC LIMIT 1). *)
Fixpoint newest_balance (l : list previous_balance_row) : option previous_balance_row :=
  match l with
  | [] => None
  | r :: l' =>
      match newest_balance l' with
      | Some r' => if pb_id r <? pb_id r' then Some r' else Some r
      | None => Some r
      end
  end.

(** get_previous_balance: SELECT amount FROM previous_balances WHERE
    group_id = ? ORDER BY id DESC LIMIT 1; [int(result[0] or 0) if result else 0]. *)
Definition get_previous_balance (g : Z) (d : db) : Z :=
  match newest_balance (filter (fun r => pb_group_id r =? g) (previous_balances d)) with
  | Some r => pb_amount r
  | None => 0
  end.

(** ** The process state seen by one group *)

(** [disk] is the group's file, [active_cycle_cache] the entry
    [active_cycle_<group>] of [bot_data] ([None]: the key is absent). *)
Record state : Type := mk_state {
  disk : db;
  active_cycle_cache : option Z
}.

Definition initial_state : state := mk_state empty_db None.

(** Python truth of a cycle id: [None] and 0 are false. *)
Definition truthy (v : option Z) : bool :=
  match v with Some c => negb (c =? 0) | None => false end.

(** get_active_cycle: the cached id when the key is present, else the
    selected row, cached when it is true. *)
Definition get_active_cycle (g : Z) (s : state) : option Z * state :=
  match active_cycle_cache s with
  | Some c => (Some c, s)
  | None =>
      let cid := select_active_cycle g (disk s) in
      (cid, if truthy cid then mk_state (disk s) cid else s)
  end.

(** bot_data.pop("active_cycle_<group>", None) *)
Definition pop_cache (s : state) : state := mk_state (disk s) None.

Definition with_disk (s : state) (d : db) : state :=
  mk_state d (active_cycle_cache s).

(** ** The transaction of the closing command

    The statements between BEGIN TRANSACTION and the end of the [try] block
    run in a small exception monad over the connection.  [faults] tells, for
    each statement, whether it raises; a statement that raises changes
    nothing.  The INSERT also raises when the balance it binds is outside
    the 64 bits. *)

Inductive close_stmt : Type :=
| StmtEndCycle
| StmtDeleteBalances
| StmtInsertBalance
| StmtCommit.

Inductive outcome (A : Type) : Type :=
| Done (a : A)
| Raised.
Arguments Done {A} a.
Arguments Raised {A}.

Definition txn (A : Type) : Type := conn -> outcome A * conn.

Definition txn_ret {A} (a : A) : txn A := fun c => (Done a, c).

Definition txn_bind {A B} (m : txn A) (k : A -> txn B) : txn B :=
  fun c =>
    match m c with
    | (Done a, c') => k a c'
    | (Raised, c') => (Raised, c')
    end.

Notation "m ;;; k" := (txn_bind m (fun _ => k))
  (at level 61, right associativity).

Definition try_execute (faults : close_stmt -> bool) (st : close_stmt)
    (stmt : db -> db) : txn unit :=
  fun c => if faults st then (Raised, c) else (Done tt, execute stmt c).

(** Binding the parameters of a statement. *)
Definition try_bind (fits : bool) : txn unit :=
  fun c => if fits then (Done tt, c) else (Raised, c).

Definition try_commit (faults : close_stmt -> bool) : txn unit :=
  fun c => if faults StmtCommit then (Raised, c) else (Done tt, commit c).

Definition close_transaction (faults : close_stmt -> bool)
    (now : nat -> timestamp) (g cid net : Z) : txn unit :=
  try_execute faults StmtEndCycle (end_cycle (now 0%nat) cid) ;;;
  try_execute faults StmtDeleteBalances (delete_previous_balances g) ;;;
  (if negb (net =? 0)
   then try_bind (int64 net) ;;;
        try_execute faults StmtInsertBalance
          (insert_previous_balance g net (now 1%nat))
   else txn_ret tt) ;;;
  try_commit faults.

(** ** handle_command *)

Inductive reply : Type :=
| NoReply                                   (* the handler returns silently *)
| Uncaught                                  (* an exception reaches error_handler *)
| ReplyUnauthorized                         (* 无权限操作。 *)
| ReplyAlreadyActive                        (* 当前已有活跃周期，请先‘下课’。 *)
| ReplyOpened (offer : option Z)            (* button importbalance_<g>_<offer> *)
| ReplyNoActiveCycle                        (* 当前没有活跃周期。 / 没有活跃周期。 *)
| ReplyClosed (s : summary)                 (* 当前记账周期已结束！ *)
| ReplyRolledBack                           (* 处理失败，数据已回滚。 *)
| ReplySummary (s : summary)                (* the summary after an entry *)
| ReplyBadAmount                            (* 金额格式错误。 *)
| ReplyBalanceRecorded (s : summary)        (* 结余记录成功！ *)
| ReplyAlreadyRecorded                      (* 已记录结余，勿重复操作。 *)
| ReplyBalanceFormat                        (* 格式: 结余 +金额 ... *)
| ReplyUndone (v : Z) (note : pystr) (s : summary)  (* 已撤销: ... *)
| ReplyNothingToUndo                        (* 无记录可撤销。 *)
| ReplyOther.                               (* operator management and help *)

(** [" ".join(args)[:255] or " "], the description of an entry. *)
Definition entry_note (args : list pystr) : pystr :=
  PyStr.or_else (firstn 255 (PyStr.join Words.space args)) Words.space.

(** [f"[结余] {' '.join(args[1:]) or '上期结余'}"], the description of a
    balance record. *)
Definition balance_note (rest : list pystr) : pystr :=
  Words.balance_tag ++ Words.space
  ++ PyStr.or_else (PyStr.join Words.space rest) Words.default_balance_note.

Section Group.

(** The chat whose file and cache entry the state holds. *)
Variable group_id : Z.

(** Branch [cmd == "上课"]. *)
Definition handle_open (authorized : bool) (now : nat -> timestamp)
    (s : state) : reply * state :=
  if negb authorized then (ReplyUnauthorized, s) else
  let (cid, s1) := get_active_cycle group_id s in
  if truthy cid then (ReplyAlreadyActive, s1) else
  let c := connect (disk s1) in
  let c := execute (deactivate_cycles group_id) c in
  let c := execute (insert_cycle group_id (now 0%nat) true) c in
  let c := commit c in
  let s2 := pop_cache (with_disk s1 (disconnect c)) in
  let previous_balance := get_previous_balance group_id (disk s2) in
  (ReplyOpened (if negb (previous_balance =? 0) then Some previous_balance else None),
   s2).

(** Branch [cmd == "下课"]. *)
Definition handle_close (authorized : bool) (now : nat -> timestamp)
    (faults : close_stmt -> bool) (s : state) : reply * state :=
  if negb authorized then (ReplyUnauthorized, s) else
  let (cid, s1) := get_active_cycle group_id s in
  match cid with
  | None => (ReplyNoActiveCycle, s1)
  | Some cycle =>
      if cycle =? 0 then (ReplyNoActiveCycle, s1) else
      let c := connect (disk s1) in
      if summary_raises (working c) cycle              (* OperationalError *)
      then (Uncaught, with_disk s1 (disconnect c)) else
      let summary := get_cycle_summary (working c) cycle in
      let net := net_balance summary in
      match close_transaction faults now group_id cycle net c with
      | (Done _, c') =>
          (ReplyClosed summary, pop_cache (with_disk s1 (disconnect c')))
      | (Raised, c') =>
          (ReplyRolledBack, with_disk s1 (disconnect (rollback c')))
      end
  end.

(** Branch [re.match(r'^[+-]\d+', cmd)].  Only ValueError is caught: the
    OverflowError of an amount the INSERT cannot bind and the error of a
    [SUM] that overflows leave the handler, and the connection is closed
    without a commit. *)
Definition handle_entry (user : Z) (authorized : bool) (now : nat -> timestamp)
    (cmd : pystr) (args : list pystr) (s : state) : reply * state :=
  if negb authorized then (NoReply, s) else
  let (cid, s1) := get_active_cycle group_id s in
  match cid with
  | None => (ReplyNoActiveCycle, s1)
  | Some cycle =>
      if cycle =? 0 then (ReplyNoActiveCycle, s1) else
      match PyStr.int cmd with
      | None => (ReplyBadAmount, s1)
      | Some v =>
          let note := entry_note args in
          let c := connect (disk s1) in
          if negb (int64 v)                              (* OverflowError *)
          then (Uncaught, with_disk s1 (disconnect c)) else
          let c := execute (insert_bill cycle group_id user v note (now 0%nat)) c in
          if summary_raises (working c) cycle            (* OperationalError *)
          then (Uncaught, with_disk s1 (disconnect c)) else
          let summary := get_cycle_summary (working c) cycle in
          let c := commit c in
          (ReplySummary summary, with_disk s1 (disconnect c))
      end
  end.

(** Branch [cmd == "结余"].  ValueError and IndexError are caught, the
    errors of the storage are not. *)
Definition handle_balance (user : Z) (authorized : bool) (now : nat -> timestamp)
    (args : list pystr) (s : state) : reply * state :=
  if negb authorized then (NoReply, s) else
  let (cid, s1) := get_active_cycle group_id s in
  match cid with
  | None => (ReplyNoActiveCycle, s1)
  | Some cycle =>
      if cycle =? 0 then (ReplyNoActiveCycle, s1) else
      match args with
      | [] => (ReplyBalanceFormat, s1)                       (* IndexError *)
      | a0 :: rest =>
          match PyStr.int a0 with
          | None => (ReplyBalanceFormat, s1)                 (* ValueError *)
          | Some v =>
              let note := balance_note rest in
              let c := connect (disk s1) in
              if balance_recorded cycle (working c)
              then (ReplyAlreadyRecorded, with_disk s1 (disconnect c))
              else
                if negb (int64 v)                        (* OverflowError *)
                then (Uncaught, with_disk s1 (disconnect c)) else
                let c := execute (insert_bill cycle group_id user v note (now 0%nat)) c in
                if summary_raises (working c) cycle      (* OperationalError *)
                then (Uncaught, with_disk s1 (disconnect c)) else
                let summary := get_cycle_summary (working c) cycle in
                let c := commit c in
                (ReplyBalanceRecorded summary, with_disk s1 (disconnect c))
          end
      end
  end.

(** Branch [cmd == "撤销"]. *)
Definition handle_undo (authorized : bool) (s : state) : reply * state :=
  if negb authorized then (NoReply, s) else
  let (cid, s1) := get_active_cycle group_id s in
  match cid with
  | None => (ReplyNoActiveCycle, s1)
  | Some cycle =>
      if cycle =? 0 then (ReplyNoActiveCycle, s1) else
      let c := connect (disk s1) in
      match select_last_bill cycle (working c) with
      | None => (ReplyNothingToUndo, with_disk s1 (disconnect c))
      | Some last_bill =>
          let c := execute (delete_bill (bill_id last_bill)) c in
          if summary_raises (working c) cycle            (* OperationalError *)
          then (Uncaught, with_disk s1 (disconnect c)) else
          let summary := get_cycle_summary (working c) cycle in
          let c := commit c in
          (ReplyUndone (amount last_bill) (description last_bill) summary,
           with_disk s1 (disconnect c))
      end
  end.

Definition handle_command (user : Z) (authorized : bool)
    (now : nat -> timestamp) (faults : close_stmt -> bool)
    (message_text : pystr) (s : state) : reply * state :=
  match message_text with
  | [] => (NoReply, s)
  | _ =>
      let text := PyStr.strip message_text in
      match PyStr.split text with
      | [] => (Uncaught, s)                       (* text.split()[0]: IndexError *)
      | cmd :: args =>
          if PyStr.eqb cmd Words.open_cycle then handle_open authorized now s
          else if PyStr.eqb cmd Words.close_cycle
          then handle_close authorized now faults s
          else if PyStr.match_signed_digits cmd
          then handle_entry user authorized now cmd args s
          else if PyStr.eqb cmd Words.balance
          then handle_balance user authorized now args s
          else if PyStr.eqb cmd Words.undo then handle_undo authorized s
          else if PyStr.eqb cmd Words.set_operator
               || PyStr.eqb cmd Words.del_operator
               || PyStr.eqb cmd Words.list_operators
               || PyStr.eqb cmd Words.help
          then (ReplyOther, s)
          else (NoReply, s)
      end
  end.

(** ** button_callback *)

(** What the details page shows. *)
Record details_view : Type := mk_details {
  dv_summary : summary;
  dv_total_items : Z;
  dv_balance_count : Z;
  dv_bills : list (Z * pystr * timestamp);
  dv_page : Z;
  dv_total_pages : Z;
  dv_previous_button : option Z;
  dv_next_button : option Z
}.

Inductive callback_reply : Type :=
| CbOtherGroup                      (* the data names another group's file *)
| CbDetails (v : details_view)
| CbDetailsError                    (* logged, nothing shown *)
| CbSilent                          (* unauthorized: plain return *)
| CbNoActiveCycle                   (* 失败：没有活跃周期。 *)
| CbAlreadyImported                 (* 结余已存在，请勿重复操作。 *)
| CbImported (v : Z) (s : summary)  (* 结余 ... 已成功导入！ *)
| CbImportFailed                    (* 导入结余失败！ *)
| CbIgnored.                        (* no branch for the action *)

(** [map(int, l)], [None] as soon as one conversion raises. *)
Fixpoint map_int (l : list pystr) : option (list Z) :=
  match l with
  | [] => Some []
  | x :: r =>
      match PyStr.int x with
      | None => None
      | Some v => option_map (cons v) (map_int r)
      end
  end.

(** [math.ceil(a / b)]: the quotient of [/] is a double; it is taken exact
    here, which it is up to rounding that cannot reach the next integer while
    [a] stays below 2^53. *)
Definition ceil_div (a b : Z) : Z := Qceiling (inject_Z a / inject_Z b)%Q.

Definition bill_line (b : bill) : Z * pystr * timestamp :=
  (amount b, description b, created_at b).

(** LIMIT ? OFFSET ?: a negative offset counts as none. *)
Definition limit_offset {A} (limit offset : Z) (rows : list A) : list A :=
  firstn (Z.to_nat limit) (skipn (Z.to_nat offset) rows).

(** The queries and arithmetic of the branch [action == "details"]. *)
Definition details_page (d : db) (cid page : Z) : details_view :=
  let summary := get_cycle_summary d cid in
  let total_items := Z.of_nat (length (filter (in_cycle cid) (bills d))) in
  let balance_count :=
    Z.of_nat (length (filter (fun b => in_cycle cid b && is_balance b) (bills d))) in
  let items_per_page := 10 in
  let offset := (page - 1) * items_per_page in
  let rows :=
    map bill_line
      (limit_offset items_per_page offset
         (order_by_bill_id_desc (filter (in_cycle cid) (bills d)))) in
  let total_pages :=
    if total_items >? 0 then ceil_div total_items items_per_page else 1 in
  mk_details summary total_items balance_count rows page total_pages
    (if page >? 1 then Some (page - 1) else None)
    (if page <? total_pages then Some (page + 1) else None).

(** Branch [action == "importbalance"], after the data was parsed.  Every
    exception is caught and answered by the failure text; the connection is
    then closed without a commit. *)
Definition import_balance (user : Z) (authorized : bool) (now : nat -> timestamp)
    (v : Z) (s : state) : callback_reply * state :=
  if negb authorized then (CbSilent, s) else
  let (cid, s1) := get_active_cycle group_id s in
  match cid with
  | None => (CbNoActiveCycle, s1)
  | Some cycle =>
      if cycle =? 0 then (CbNoActiveCycle, s1) else
      let c := connect (disk s1) in
      if balance_recorded cycle (working c)
      then (CbAlreadyImported, with_disk s1 (disconnect c))
      else
        if negb (int64 v)                                (* OverflowError *)
        then (CbImportFailed, with_disk s1 (disconnect c)) else
        let c := execute (insert_bill cycle group_id user v Words.auto_import_note
                            (now 0%nat)) c in
        if summary_raises (working c) cycle              (* OperationalError *)
        then (CbImportFailed, with_disk s1 (disconnect c)) else
        let summary := get_cycle_summary (working c) cycle in
        let c := commit c in
        (CbImported v summary, with_disk s1 (disconnect c))
  end.

(** Branch [action == "details"], after the data was parsed.  Every
    exception is caught and logged: the OverflowError of a cycle id or an
    offset that cannot be bound, and the error of a [SUM] that overflows. *)
Definition show_details (cid page : Z) (s : state) : callback_reply * state :=
  if negb (int64 cid) || summary_raises (disk s) cid
     || negb (int64 ((page - 1) * 10))
  then (CbDetailsError, s)
  else (CbDetails (details_page (disk s) cid page), s).

Definition button_callback (user : Z) (authorized : bool)
    (now : nat -> timestamp) (query_data : pystr) (s : state)
    : callback_reply * state :=
  match PyStr.split_on 95 query_data [] with
  | [] => (CbIgnored, s)
  | action :: fields =>
      if PyStr.eqb action Words.details then
        match map_int fields with
        | Some [g; cid; page] =>
            if g =? group_id then show_details cid page s
            else (CbOtherGroup, s)
        | _ => (CbDetailsError, s)
        end
      else if PyStr.eqb action Words.importbalance then
        match map_int fields with
        | Some [g; v] =>
            if g =? group_id then import_balance user authorized now v s
            else (CbOtherGroup, s)
        | _ => (CbImportFailed, s)
        end
      else (CbIgnored, s)
  end.

(** ** Runs *)

Inductive event : Type :=
| Message (user : Z) (authorized : bool) (now : nat -> timestamp)
    (faults : close_stmt -> bool) (text : pystr)
| Button (user : Z) (authorized : bool) (now : nat -> timestamp) (data : pystr).

Definition step (s : state) (e : event) : state :=
  match e with
  | Message u a now f text => snd (handle_command u a now f text s)
  | Button u a now data => snd (button_callback u a now data s)
  end.

Definition run (es : list event) (s : state) : state := fold_left step es s.

Definition reachable (s : state) : Prop := exists es, s = run es initial_state.

End Group.

(** ** The retry wrapper of the delivery calls *)

Module Retry.

(** What one awaited [api_call(...)] does.  The exceptions are those derived
    from [Exception]; [TimedOut] is the one the wrapper retries on. *)
Inductive attempt (A : Type) : Type :=
| Returns (a : A)
| RaisesTimedOut
| RaisesOther (e : N).
Arguments Returns {A} a.
Arguments RaisesTimedOut {A}.
Arguments RaisesOther {A} e.

Inductive error : Type :=
| TimedOut
| Other (e : N).

Inductive result (A : Type) : Type :=
| Value (a : A)
| Raise (e : error).
Arguments Value {A} a.
Arguments Raise {A} e.

(** What the wrapper does to the outside, in order. *)
Inductive action : Type :=
| Call (attempt_no : nat)
| LogWarning (attempt_no : nat)
| Sleep (delay : Q)
| LogError.

(** The [for attempt in range(max_retries)] loop, from iteration [attempt_no]
    with [remaining] iterations left.  [api_call n] is what call number [n]
    does.  Falling out of the loop returns [None]. *)
Fixpoint retry_loop {A} (api_call : nat -> attempt A) (max_retries : nat)
    (remaining attempt_no : nat) (delay : Q) : result (option A) * list action :=
  match remaining with
  | O => (Value None, [])
  | S remaining' =>
      match api_call attempt_no with
      | Returns a => (Value (Some a), [Call attempt_no])
      | RaisesTimedOut =>
          if Nat.eqb (attempt_no + 1) max_retries
          then (Raise TimedOut, [Call attempt_no; LogWarning attempt_no; LogError])
          else
            let (r, t) :=
              retry_loop api_call max_retries remaining' (S attempt_no) (delay * 2)%Q in
            (r, Call attempt_no :: LogWarning attempt_no :: Sleep delay :: t)
      | RaisesOther e => (Raise (Other e), [Call attempt_no; LogError])
      end
  end.

(** _robust_telegram_call(api_call, max_retries=3, initial_delay=1.0); the
    delay is a rational, doubling a double being exact. *)
Definition robust_telegram_call {A} (api_call : nat -> attempt A)
    (max_retries : nat) (initial_delay : Q) : result (option A) * list action :=
  retry_loop api_call max_retries max_retries 0 initial_delay.

(** send_robust_reply: the defaults of the wrapper, and
    [except (TimedOut, Exception)] around it. *)
Definition send_robust_reply {A} (api_call : nat -> attempt A)
    : result unit * list action :=
  match robust_telegram_call api_call 3 1%Q with
  | (Value _, t) => (Value tt, t)
  | (Raise _, t) => (Value tt, t ++ [LogError])
  end.

Definition calls (t : list action) : list nat :=
  flat_map (fun a => match a with Call n => [n] | _ => [] end) t.

Definition sleeps (t : list action) : list Q :=
  flat_map (fun a => match a with Sleep d => [d] | _ => [] end) t.

(** robust_answer: the same wrapper around [query.answer]. *)
Definition robust_answer {A} (api_call : nat -> attempt A)
    : result unit * list action :=
  match robust_telegram_call api_call 3 1%Q with
  | (Value _, t) => (Value tt, t)
  | (Raise _, t) => (Value tt, t ++ [LogError])
  end.

(** robust_edit_message_text: when the edit gave up, one reply is tried
    instead, whose own failure is dropped.  The result comes with the trace
    of the edit and the trace of the reply, if one was tried. *)
Definition robust_edit_message_text {A B} (edit : nat -> attempt A)
    (reply : nat -> attempt B)
    : result unit * list action * option (list action) :=
  match robust_telegram_call edit 3 1%Q with
  | (Value _, t) => (Value tt, t, None)
  | (Raise _, t) =>
      match send_robust_reply reply with
      | (_, t') => (Value tt, t ++ [LogError], Some t')
      end
  end.

(** [delay], [2 delay], [4 delay], ... *)
Fixpoint doubling (delay : Q) (n : nat) : list Q :=
  match n with
  | O => []
  | S n' => delay :: doubling (delay * 2)%Q n'
  end.

(** What [k] calls that time out leave in the trace, from call [n] and
    delay [d]: each call, its warning and the sleep that follows it. *)
Fixpoint retried (n : nat) (d : Q) (k : nat) : list action :=
  match k with
  | O => []
  | S k' => Call n :: LogWarning n :: Sleep d :: retried (S n) (d * 2)%Q k'
  end.

End Retry.

(** ** Notions used by the statements *)

Definition sum_Z (l : list Z) : Z := fold_right Z.add 0 l.

(** The entries of a cycle by kind, read off the rows one by one. *)
Definition ordinary_deposits (d : db) (cid : Z) : list Z :=
  map amount
    (filter (fun b => in_cycle cid b && negb (is_balance b) && (0 <? amount b)) (bills d)).

Definition ordinary_withdrawals (d : db) (cid : Z) : list Z :=
  map (fun b => Z.abs (amount b))
    (filter (fun b => in_cycle cid b && negb (is_balance b) && (amount b <? 0)) (bills d)).

Definition carry_over_entries (d : db) (cid : Z) : list Z :=
  map amount (filter (fun b => in_cycle cid b && is_balance b) (bills d)).

Definition active_cycles (g : Z) (d : db) : list cycle :=
  filter (fun c => (cycle_group_id c =? g) && is_active c) (cycles d).

Definition balance_rows (g : Z) (d : db) : list previous_balance_row :=
  filter (fun r => pb_group_id r =? g) (previous_balances d).

(** Two entries that agree on all that the summary reads of an entry but
    the note, and on whether the note starts with the tag. *)
Definition same_but_note (a b : bill) : Prop :=
  bill_id a = bill_id b /\ bill_cycle_id a = bill_cycle_id b
  /\ amount a = amount b /\ created_at a = created_at b
  /\ PyStr.startswith (description a) Words.balance_tag
     = PyStr.startswith (description b) Words.balance_tag.

(** Whether the store takes an entry of amount [v] and note [note] into the
    cycle [cid]: the amount and the total it goes into (the carry-over
    total for a tagged note, else the deposits or the withdrawals by the
    sign) stay inside the 64 bits. *)
Definition entry_fits (d : db) (cid v : Z) (note : pystr) : bool :=
  let sm := get_cycle_summary d cid in
  int64 v
  && (if like_balance note then int64 (previous_balance sm + v)
      else if v >? 0 then int64 (total_deposits sm + v)
      else if v <? 0 then int64 (v - total_withdrawals sm)
      else true).

(** Whether the transaction reaches statement [st] when nothing before it
    raises: the INSERT runs only for a balance that is not zero. *)
Definition reached (net : Z) (st : close_stmt) : bool :=
  match st with
  | StmtInsertBalance => negb (net =? 0)
  | _ => true
  end.

Definition no_fault (st : close_stmt) : bool := false.

(** The file after a closing transaction in which no statement raised. *)
Definition closed_db (now : nat -> timestamp) (g cid net : Z) (d : db) : db :=
  let d1 := delete_previous_balances g (end_cycle (now 0%nat) cid d) in
  if negb (net =? 0) then insert_previous_balance g net (now 1%nat) d1 else d1.

Definition descending (a b : bill) : Prop := bill_id b <= bill_id a.

(** What every run keeps true of the state of a group. *)
Record consistent (g : Z) (s : state) : Prop := mk_consistent {
  one_active : (length (active_cycles g (disk s)) <= 1)%nat;
  cache_is_active :
    forall c, active_cycle_cache s = Some c ->
      c <> 0 /\ select_active_cycle g (disk s) = Some c;
  cycle_ids_positive :
    0 <= cycles_seq (disk s) /\ Forall (fun c => 0 < cycle_id c) (cycles (disk s));
  active_not_ended :
    Forall (fun c => is_active c = true -> end_time c = None) (cycles (disk s));
  bill_ids_distinct : NoDup (map bill_id (bills (disk s)));
  balance_ids_bounded :
    Forall (fun r => pb_id r <= previous_balances_seq (disk s))
      (previous_balances (disk s));
  bills_by_id :
    StronglySorted (fun a b => bill_id a < bill_id b) (bills (disk s));
  sums_in_range : forall cid, summary_raises (disk s) cid = false
}.


(** ** Sample inputs *)

Module Sample.

Definition group : Z := 7.
Definition operator : Z := 1.
Definition clock : nat -> timestamp := fun _ => [].

(** A message of an authorized operator, with a storage that does not fail. *)
Definition said (text : pystr) : event := Message operator true clock no_fault text.

(** A storage whose COMMIT raises, and one whose INSERT into
    previous_balances raises. *)
Definition commit_fails (st : close_stmt) : bool :=
  match st with StmtCommit => true | _ => false end.
Definition insert_fails (st : close_stmt) : bool :=
  match st with StmtInsertBalance => true | _ => false end.

Definition plus_900 : pystr := [43; 57; 48; 48]%N.                       (* +900 *)
Definition plus_1000 : pystr := [43; 49; 48; 48; 48]%N.                  (* +1000 *)
Definition minus_300 : pystr := [45; 51; 48; 48]%N.                      (* -300 *)
Definition plus_0 : pystr := [43; 48]%N.                                 (* +0 *)
Definition plus_5_tagged : pystr := [43; 53; 32; 91; 32467; 20313; 93; 97]%N.  (* +5 [结余]a *)
Definition plus_7_tagged : pystr := [43; 55; 32; 91; 32467; 20313; 93; 98]%N.  (* +7 [结余]b *)
Definition plus_5x : pystr := [43; 53; 120]%N.                           (* +5x *)
Definition balance_200 : pystr := [32467; 20313; 32; 43; 50; 48; 48]%N.  (* 结余 +200 *)

(** A file whose cycle 1 holds 25 entries. *)
Definition ledger_of_25 : db :=
  mk_db [mk_cycle 1 group [] None true] 1
    (map (fun i => mk_bill (Z.of_nat i) 1 group operator (Z.of_nat i) [32%N] [])
       (seq 1 25))
    25 [] 0.

End Sample.


(** ** The data of the buttons and the file of a group *)

(** The characters [str] writes an integer with. *)
Definition numeral_char (c : N) : Prop := (48 <= c <= 57)%N \/ c = 45%N.

(** f"importbalance_{group_id}_{previous_balance}", the data of the button
    the opening command offers. *)
Definition importbalance_data (g v : Z) : pystr :=
  Words.importbalance ++ [95%N] ++ PyStr.of_int g ++ [95%N] ++ PyStr.of_int v.

(** f"details_{group_id}_{cycle_id}_{page}", the data of the details button
    and of the two navigation buttons. *)
Definition details_data (g cid page : Z) : pystr :=
  Words.details ++ [95%N] ++ PyStr.of_int g ++ [95%N] ++ PyStr.of_int cid
  ++ [95%N] ++ PyStr.of_int page.

(** get_db_path: os.path.join("data", f"group_{group_id}.db"), with the
    separator of a POSIX system. *)
Definition get_db_path (g : Z) : pystr :=
  [100; 97; 116; 97]%N ++ [47%N]
  ++ [103; 114; 111; 117; 112; 95]%N ++ PyStr.of_int g ++ [46; 100; 98]%N.

(** ** What one event can do to the file *)

(** The five ways a handler leaves the file: untouched, a cycle opened, the
    active cycle closed, an entry appended to the active cycle, the newest
    entry of the active cycle deleted. *)
Inductive file_step (g : Z) (d : db) : db -> Prop :=
| file_same : file_step g d d
| file_opened (t : timestamp) :
    select_active_cycle g d = None ->
    file_step g d (insert_cycle g t true (deactivate_cycles g d))
| file_closed (now : nat -> timestamp) (c : Z) :
    select_active_cycle g d = Some c ->
    file_step g d (closed_db now g c (net_balance (get_cycle_summary d c)) d)
| file_inserted (c u v : Z) (note : pystr) (t : timestamp) :
    select_active_cycle g d = Some c ->
    file_step g d (insert_bill c g u v note t d)
| file_deleted (c : Z) (b : bill) :
    select_active_cycle g d = Some c ->
    select_last_bill c d = Some b ->
    file_step g d (delete_bill (bill_id b) d).

(** What every run keeps true of the rows of the file. *)
Record archive (g : Z) (d : db) : Prop := mk_archive {
  cycles_of_group : Forall (fun c => cycle_group_id c = g) (cycles d);
  cycle_ids_distinct : NoDup (map cycle_id (cycles d));
  bills_in_cycles :
    Forall (fun b => bill_group_id b = g
                     /\ In (bill_cycle_id b) (map cycle_id (cycles d))) (bills d);
  balances_of_group :
    Forall (fun r => pb_group_id r = g /\ pb_amount r <> 0) (previous_balances d);
  one_balance_row : (length (previous_balances d) <= 1)%nat
}.

(** ** Administrators, operators and the users table *)

(** A [datetime], in microseconds.  [(a - b).total_seconds() > 600] is then
    [a - b > 600000000]. *)
Definition datetime : Type := Z.

Definition ttl : Z := 600 * 1000000.

(** The entry [admins_<chat>] of [chat_data]. *)
Record admins_entry : Type := mk_admins {
  admin_ids : list Z;
  fetched_at : datetime
}.

Definition mem (x : Z) (l : list Z) : bool := existsb (Z.eqb x) l.

Definition cached_answer (user : Z) (cache : option admins_entry) : bool :=
  match cache with
  | Some e => mem user (admin_ids e)
  | None => false
  end.

(** is_admin.  [clock] gives the value of each [datetime.now()] by its rank
    in the call; [directory] is what get_chat_administrators would answer,
    [None] when it raises.  The result is the answer, the cache entry left
    behind, and whether the directory was asked. *)
Definition is_admin (user : Z) (clock : nat -> datetime)
    (directory : option (list Z)) (cache : option admins_entry)
    : bool * option admins_entry * bool :=
  match cache with
  | None =>
      match directory with
      | Some ids => (mem user ids, Some (mk_admins ids (clock 0%nat)), true)
      | None => (false, None, true)
      end
  | Some e =>
      if clock 0%nat - fetched_at e >? ttl
      then match directory with
           | Some ids => (mem user ids, Some (mk_admins ids (clock 1%nat)), true)
           | None => (mem user (admin_ids e), cache, true)
           end
      else (mem user (admin_ids e), cache, false)
  end.

(** is_operator: SELECT 1 FROM operators WHERE group_id = ? AND user_id = ? *)
Definition is_operator (g user : Z) (operators : list (Z * Z)) : bool :=
  existsb (fun r => (fst r =? g) && (snd r =? user)) operators.

(** A user as the chat service describes it. *)
Record tg_user : Type := mk_user {
  tg_id : Z;
  tg_username : option pystr
}.

(** The INSERT ... ON CONFLICT(user_id) DO UPDATE of record_user on the
    table users (user_id PRIMARY KEY, username UNIQUE): [Raised] is the
    IntegrityError of a name held by another row. *)
Definition upsert_user (id : Z) (name : pystr) (users : list (Z * pystr))
    : outcome (list (Z * pystr)) :=
  if existsb (fun r => negb (fst r =? id) && PyStr.eqb (snd r) name) users
  then Raised
  else if existsb (fun r => fst r =? id) users
  then Done (map (fun r => if fst r =? id then (id, name) else r) users)
  else Done (users ++ [(id, name)]).

(** record_user: nothing for a user without a name, else the upsert of
    f"@{user.username}". *)
Definition record_user (user : option tg_user) (users : list (Z * pystr))
    : outcome (list (Z * pystr)) :=
  match user with
  | None => Done users
  | Some usr =>
      match tg_username usr with
      | None => Done users
      | Some [] => Done users
      | Some name => upsert_user (tg_id usr) (64%N :: name) users
      end
  end.

(** SELECT user_id FROM users WHERE username = ?, fetchone *)
Definition select_user (name : pystr) (users : list (Z * pystr)) : option Z :=
  option_map fst (find (fun r => PyStr.eqb (snd r) name) users).

(** INSERT OR IGNORE INTO operators (group_id, user_id) VALUES (?, ?) *)
Definition insert_operator (g user : Z) (operators : list (Z * Z)) : list (Z * Z) :=
  if is_operator g user operators then operators else operators ++ [(g, user)].

(** DELETE FROM operators WHERE group_id = ? AND user_id = ? *)
Definition delete_operator (g user : Z) (operators : list (Z * Z)) : list (Z * Z) :=
  filter (fun r => negb ((fst r =? g) && (snd r =? user))) operators.

(** The rows of operators in the order of its primary key. *)
Fixpoint insert_by_user_id (o : Z * Z) (l : list (Z * Z)) : list (Z * Z) :=
  match l with
  | [] => [o]
  | x :: r => if snd o <=? snd x then o :: l else x :: insert_by_user_id o r
  end.

Fixpoint order_by_user_id (l : list (Z * Z)) : list (Z * Z) :=
  match l with
  | [] => []
  | o :: r => insert_by_user_id o (order_by_user_id r)
  end.

(** SELECT u.username FROM operators o JOIN users u ON o.user_id = u.user_id
    WHERE o.group_id = ?.  No order is asked for; the engine walks the
    primary key (group_id, user_id) of operators and looks each user up, so
    the names come by user_id. *)
Definition select_operator_names (g : Z) (operators : list (Z * Z))
    (users : list (Z * pystr)) : list pystr :=
  flat_map (fun o => map snd (filter (fun r => fst r =? snd o) users))
    (order_by_user_id (filter (fun o => fst o =? g) operators)).

(** ** The whole handler of a message *)

(** What the process holds for one group: the ledger state, the other two
    tables of the file, and the administrators entry of the chat. *)
Record bot : Type := mk_bot {
  ledger : state;
  users : list (Z * pystr);
  operators : list (Z * Z);
  admins_cache : option admins_entry
}.

Definition initial_bot : bot := mk_bot initial_state [] [] None.

Record message : Type := mk_message {
  msg_sender : tg_user;                        (* update.effective_user *)
  msg_text : pystr;                            (* update.message.text *)
  msg_replied : option (option tg_user);       (* reply_to_message.from_user *)
  msg_clock : nat -> datetime;
  msg_directory : option (list Z);
  msg_now : nat -> timestamp;
  msg_faults : close_stmt -> bool
}.

Record press : Type := mk_press {
  press_user : Z;                              (* update.effective_user.id *)
  press_data : pystr;                          (* query.data *)
  press_clock : nat -> datetime;
  press_directory : option (list Z);
  press_now : nat -> timestamp
}.

Inductive bot_reply : Type :=
| Ledger (r : reply)                 (* a branch embedded in handle_command *)
| AdminOnly                          (* 仅管理员可操作。 / 仅管理员可查看。 *)
| UnknownUser (name : pystr)         (* 用户 ... 未在群内发言过。 *)
| TargetFormat                       (* 格式: 回复某人消息或使用 @username。 *)
| NoTarget                           (* 无法确定目标用户。 *)
| OperatorSet (user : Z)             (* 已将 ... 设为操作员。 *)
| OperatorRemoved (user : Z)         (* 已移除 ... 的操作员权限。 *)
| NoOperators                        (* 当前没有操作员。 *)
| OperatorNames (names : list pystr) (* 当前操作员：... *)
| Failed.                            (* an exception reaches error_handler *)

Definition is_ledger_command (cmd : pystr) : bool :=
  PyStr.eqb cmd Words.open_cycle || PyStr.eqb cmd Words.close_cycle
  || PyStr.match_signed_digits cmd || PyStr.eqb cmd Words.balance
  || PyStr.eqb cmd Words.undo.

(** The user an operator command is about: the author of the message replied
    to, else the user recorded under the name given as first argument. *)
Definition target_user (m : message) (args : list pystr) (users : list (Z * pystr))
    : option tg_user + bot_reply :=
  match msg_replied m with
  | Some from_user => inl from_user
  | None =>
      match args with
      | a0 :: _ =>
          if PyStr.startswith a0 [64%N]
          then match select_user a0 users with
               | None => inr (UnknownUser a0)
               | Some id => inl (Some (mk_user id (Some (PyStr.strip_char 64 a0))))
               end
          else inr TargetFormat
      | [] => inr TargetFormat
      end
  end.

Section Bot.

Variable group_id : Z.

(** Branch [cmd in ["设置操作员", "删除操作员"]]. *)
Definition operator_command (is_setting : bool) (m : message) (args : list pystr)
    (b : bot) : bot_reply * bot :=
  let '(admin, cache, _) :=
    is_admin (tg_id (msg_sender m)) (msg_clock m) (msg_directory m) (admins_cache b) in
  let b := mk_bot (ledger b) (users b) (operators b) cache in
  if negb admin then (AdminOnly, b) else
  match target_user m args (users b) with
  | inr r => (r, b)
  | inl None => (NoTarget, b)
  | inl (Some target) =>
      match record_user (Some target) (users b) with
      | Raised => (Failed, b)
      | Done users' =>
          if is_setting
          then (OperatorSet (tg_id target),
                mk_bot (ledger b) users'
                  (insert_operator group_id (tg_id target) (operators b)) cache)
          else (OperatorRemoved (tg_id target),
                mk_bot (ledger b) users'
                  (delete_operator group_id (tg_id target) (operators b)) cache)
      end
  end.

(** Branch [cmd == "当前操作员"]. *)
Definition list_operators (m : message) (b : bot) : bot_reply * bot :=
  let '(admin, cache, _) :=
    is_admin (tg_id (msg_sender m)) (msg_clock m) (msg_directory m) (admins_cache b) in
  let b := mk_bot (ledger b) (users b) (operators b) cache in
  if negb admin then (AdminOnly, b) else
  match select_operator_names group_id (operators b) (users b) with
  | [] => (NoOperators, b)
  | names => (OperatorNames names, b)
  end.

(** handle_command with everything it reads: the sender is recorded, then the
    branch of the command runs; a ledger branch asks is_authorized_user (the
    administrators first, the operators table if the sender is none) and
    proceeds as [handle_command] does with that answer. *)
Definition handle_message (m : message) (b : bot) : bot_reply * bot :=
  match msg_text m with
  | [] => (Ledger NoReply, b)
  | _ =>
      match record_user (Some (msg_sender m)) (users b) with
      | Raised => (Failed, b)
      | Done users' =>
          let b := mk_bot (ledger b) users' (operators b) (admins_cache b) in
          match PyStr.split (PyStr.strip (msg_text m)) with
          | [] => (Failed, b)
          | cmd :: args =>
              if is_ledger_command cmd then
                let '(admin, cache, _) :=
                  is_admin (tg_id (msg_sender m)) (msg_clock m) (msg_directory m)
                    (admins_cache b) in
                let authorized :=
                  admin || is_operator group_id (tg_id (msg_sender m)) (operators b) in
                let (r, s) :=
                  handle_command group_id (tg_id (msg_sender m)) authorized
                    (msg_now m) (msg_faults m) (msg_text m) (ledger b) in
                (Ledger r, mk_bot s (users b) (operators b) cache)
              else if PyStr.eqb cmd Words.set_operator
              then operator_command true m args b
              else if PyStr.eqb cmd Words.del_operator
              then operator_command false m args b
              else if PyStr.eqb cmd Words.list_operators
              then list_operators m b
              else
                let (r, s) :=
                  handle_command group_id (tg_id (msg_sender m)) false
                    (msg_now m) (msg_faults m) (msg_text m) (ledger b) in
                (Ledger r, mk_bot s (users b) (operators b) (admins_cache b))
          end
      end
  end.

(** button_callback with what it reads.  Only the import branch asks
    is_authorized_user, after its data was read: the administrators of the
    chat first, then the operators of the group the data names. *)
Definition handle_callback (p : press) (b : bot) : callback_reply * bot :=
  let unasked :=
    let (r, s) :=
      button_callback group_id (press_user p) false (press_now p) (press_data p)
        (ledger b) in
    (r, mk_bot s (users b) (operators b) (admins_cache b)) in
  match PyStr.split_on 95 (press_data p) [] with
  | action :: fields =>
      if negb (PyStr.eqb action Words.details)
         && PyStr.eqb action Words.importbalance
      then match map_int fields with
           | Some [g; v] =>
               let '(admin, cache, _) :=
                 is_admin (press_user p) (press_clock p) (press_directory p)
                   (admins_cache b) in
               if g =? group_id then
                 let authorized :=
                   admin || is_operator group_id (press_user p) (operators b) in
                 let (r, s) :=
                   button_callback group_id (press_user p) authorized (press_now p)
                     (press_data p) (ledger b) in
                 (r, mk_bot s (users b) (operators b) cache)
               else (CbOtherGroup, mk_bot (ledger b) (users b) (operators b) cache)
           | _ => unasked
           end
      else unasked
  | [] => unasked
  end.

Inductive bot_event : Type :=
| Said (m : message)
| Pressed (p : press).

Definition bot_step (b : bot) (e : bot_event) : bot :=
  match e with
  | Said m => snd (handle_message m b)
  | Pressed p => snd (handle_callback p b)
  end.

Definition chat (es : list bot_event) (b : bot) : bot := fold_left bot_step es b.

End Bot.

(** What every run keeps true of the users and operators tables. *)
Record directory_ok (b : bot) : Prop := mk_directory_ok {
  user_ids_distinct : NoDup (map fst (users b));
  user_names_distinct : NoDup (map snd (users b));
  operators_distinct : NoDup (operators b)
}.

(** ** The locks of the groups *)

(** [bot_data['group_locks']]: the lock of each group, a lock being named by
    its rank of creation. *)
Record lock_table : Type := mk_locks {
  locks : list (Z * nat);
  locks_created : nat
}.

Definition no_locks : lock_table := mk_locks [] 0.

Definition lookup_lock (g : Z) (t : lock_table) : option nat :=
  option_map snd (find (fun r => fst r =? g) (locks t)).

(** get_group_lock: the lock of the group, created at the first call. *)
Definition get_group_lock (g : Z) (t : lock_table) : nat * lock_table :=
  match lookup_lock g t with
  | Some l => (l, t)
  | None =>
      (locks_created t, mk_locks ((g, locks_created t) :: locks t) (S (locks_created t)))
  end.

Definition lock_calls (gs : list Z) (t : lock_table) : lock_table :=
  fold_left (fun t g => snd (get_group_lock g t)) gs t.

(** What every table of locks satisfies: a lock was created before the
    counter, and belongs to one group. *)
Definition locks_ok (t : lock_table) : Prop :=
  (forall g l, In (g, l) (locks t) -> (l < locks_created t)%nat)
  /\ (forall g g' l, In (g, l) (locks t) -> In (g', l) (locks t) -> g = g').

(** A series of is_admin calls in one chat: the answer of each call, whether
    it asked the directory, and the cache entry left at the end. *)
Record admin_call : Type := mk_admin_call {
  call_user : Z;
  call_clock : nat -> datetime;
  call_directory : option (list Z)
}.

Fixpoint admin_calls (cs : list admin_call) (cache : option admins_entry)
    : list (bool * bool) * option admins_entry :=
  match cs with
  | [] => ([], cache)
  | c :: cs' =>
      let '(answer, cache', asked) :=
        is_admin (call_user c) (call_clock c) (call_directory c) cache in
      let (rest, final) := admin_calls cs' cache' in
      ((answer, asked) :: rest, final)
  end.

(** ** The filter of the message handler *)

(** main registers handle_command behind [filters.Regex(command_pattern)],
    which passes a message when [re.search] finds the pattern in its text.
    The pattern is: the start of the text; one of [+-]\d+, 上课, 下课,
    设置操作员, 删除操作员, 当前操作员, 帮助, 结余, 撤销; then an optional
    group made of \s and of any number of characters other than the line
    feed; then $.  It is embedded piece by piece, as the truth value of the
    search.  \s is [str.isspace] on one character, as in [split]. *)








(** * Properties *)

(** ** Sums over the rows of a cycle *)

Lemma filter_filter {A} (p q : A -> bool) (l : list A) :
  filter p (filter q l) = filter (fun x => q x && p x) l.
Proof.
  induction l as [|x l IH]; simpl; [reflexivity|].
  destruct (q x); simpl; [destruct (p x)|]; rewrite IH; reflexivity.
Qed.

Lemma filter_ext_eq {A} (p q : A -> bool) (l : list A) :
  (forall x, p x = q x) -> filter p l = filter q l.
Proof.
  intros E; induction l as [|x l IH]; simpl; [reflexivity|].
  rewrite E, IH; reflexivity.
Qed.

Lemma sql_sum_case_when (p : bill -> bool) (rows : list bill) :
  coalesce (sql_sum (map (case_when p amount) rows)) 0
  = sum_Z (map amount (filter p rows)).
Proof.
  induction rows as [|b rows IH]; simpl; [reflexivity|].
  unfold case_when at 1. destruct (p b); simpl.
  - f_equal. exact IH.
  - exact IH.
Qed.

Lemma sql_count_case_when (p : bill -> bool) (rows : list bill) :
  sql_count (map (case_when p (fun _ => 1)) rows)
  = Z.of_nat (length (filter p rows)).
Proof.
  induction rows as [|b rows IH]; [reflexivity|].
  cbn [map filter]. unfold case_when at 1.
  destruct (p b); cbn [sql_count length]; rewrite IH; lia.
Qed.

Lemma sum_Z_app (l1 l2 : list Z) : sum_Z (l1 ++ l2) = sum_Z l1 + sum_Z l2.
Proof. induction l1 as [|x l1 IH]; simpl; [reflexivity | rewrite IH; lia]. Qed.

Lemma sum_Z_perm (l1 l2 : list Z) : Permutation l1 l2 -> sum_Z l1 = sum_Z l2.
Proof. induction 1; simpl; lia. Qed.

Lemma filter_perm {A} (p : A -> bool) (l1 l2 : list A) :
  Permutation l1 l2 -> Permutation (filter p l1) (filter p l2).
Proof.
  induction 1 as [|x l1 l2 _ IH|x y l|l1 l2 l3 _ IH1 _ IH2]; simpl.
  - constructor.
  - destruct (p x); [constructor|]; exact IH.
  - destruct (p x), (p y); try reflexivity. constructor.
  - etransitivity; eassumption.
Qed.

(** The total of the withdrawals is taken as the absolute value of a sum of
    negative amounts: it is the sum of the absolute values. *)
Lemma abs_sum_negative (rows : list bill) :
  Forall (fun b => amount b < 0) rows ->
  Z.abs (sum_Z (map amount rows)) = sum_Z (map (fun b => Z.abs (amount b)) rows)
  /\ sum_Z (map amount rows) <= 0.
Proof.
  induction 1 as [|b rows Hb _ [IH1 IH2]]; simpl; [split; reflexivity || lia|].
  split; lia.
Qed.

Lemma summary_total_deposits d cid :
  total_deposits (get_cycle_summary d cid) = sum_Z (ordinary_deposits d cid).
Proof.
  unfold get_cycle_summary, ordinary_deposits; simpl.
  rewrite sql_sum_case_when, filter_filter. do 2 f_equal.
  apply filter_ext_eq; intros b. unfold is_deposit, is_balance.
  rewrite Z.gtb_ltb. destruct (in_cycle cid b), (like_balance (description b)),
    (0 <? amount b); reflexivity.
Qed.

Lemma summary_total_withdrawals d cid :
  total_withdrawals (get_cycle_summary d cid) = sum_Z (ordinary_withdrawals d cid).
Proof.
  unfold get_cycle_summary, ordinary_withdrawals; simpl.
  rewrite sql_sum_case_when, filter_filter.
  replace (filter (fun x => in_cycle cid x && is_withdrawal x) (bills d))
    with (filter (fun b => in_cycle cid b && negb (is_balance b) && (amount b <? 0))
            (bills d)).
  - apply abs_sum_negative. apply Forall_forall; intros b Hb.
    apply filter_In in Hb. destruct Hb as [_ Hb].
    apply andb_prop in Hb. destruct Hb as [_ Hb]. lia.
  - apply filter_ext_eq; intros b. unfold is_withdrawal, is_balance.
    destruct (in_cycle cid b), (like_balance (description b)),
      (amount b <? 0); reflexivity.
Qed.

Lemma summary_previous_balance d cid :
  previous_balance (get_cycle_summary d cid) = sum_Z (carry_over_entries d cid).
Proof.
  unfold get_cycle_summary, carry_over_entries; simpl.
  rewrite sql_sum_case_when, filter_filter. reflexivity.
Qed.

Lemma summary_net_balance d cid :
  net_balance (get_cycle_summary d cid)
  = total_deposits (get_cycle_summary d cid)
    - total_withdrawals (get_cycle_summary d cid)
    + previous_balance (get_cycle_summary d cid).
Proof. reflexivity. Qed.

(** ** Sums that leave the 64 bits *)

Lemma sql_sum_cons_some (v : Z) (l : list (option Z)) :
  coalesce (sql_sum (Some v :: l)) 0 = v + coalesce (sql_sum l) 0.
Proof. reflexivity. Qed.

Lemma sum_overflows_app (l1 l2 : list (option Z)) :
  forall acc,
    sum_overflows acc (l1 ++ l2)
    = sum_overflows acc l1 || sum_overflows (acc + coalesce (sql_sum l1) 0) l2.
Proof.
  induction l1 as [|[v|] l1 IH]; intros acc; cbn [app sum_overflows].
  - cbn [sql_sum coalesce orb]. rewrite Z.add_0_r. reflexivity.
  - rewrite IH, sql_sum_cons_some, Z.add_assoc, orb_assoc. reflexivity.
  - apply IH.
Qed.

Lemma sum_overflows_prefix (l1 l2 : list (option Z)) (acc : Z) :
  sum_overflows acc (l1 ++ l2) = false -> sum_overflows acc l1 = false.
Proof. rewrite sum_overflows_app. intros H. apply orb_false_elim in H. apply H. Qed.

Lemma sum_overflows_nulls (l : list (option Z)) (acc : Z) :
  Forall (fun x => x = None) l -> sum_overflows acc l = false.
Proof. induction 1 as [|x l -> _ IH]; [reflexivity | exact IH]. Qed.

Lemma sql_sum_nulls (l : list (option Z)) :
  Forall (fun x => x = None) l -> sql_sum l = None.
Proof. induction 1 as [|x l -> _ IH]; [reflexivity | exact IH]. Qed.

Lemma summary_raises_rows (d d' : db) (cid : Z) :
  filter (in_cycle cid) (bills d') = filter (in_cycle cid) (bills d) ->
  summary_raises d' cid = summary_raises d cid.
Proof. unfold summary_raises. cbv zeta. intros ->. reflexivity. Qed.

Lemma summary_raises_prefix (d d' : db) (cid : Z) (rest : list bill) :
  filter (in_cycle cid) (bills d) = filter (in_cycle cid) (bills d') ++ rest ->
  summary_raises d cid = false -> summary_raises d' cid = false.
Proof.
  unfold summary_raises. cbv zeta. intros ->. rewrite !map_app. intros H.
  apply orb_false_elim in H. destruct H as [H H3].
  apply orb_false_elim in H. destruct H as [H1 H2].
  rewrite (sum_overflows_prefix _ _ _ H1), (sum_overflows_prefix _ _ _ H2),
    (sum_overflows_prefix _ _ _ H3). reflexivity.
Qed.

Lemma summary_raises_no_rows (d : db) (cid : Z) :
  filter (in_cycle cid) (bills d) = [] -> summary_raises d cid = false.
Proof. unfold summary_raises. cbv zeta. intros ->. reflexivity. Qed.

Lemma int64_bounds (z : Z) : int64 z = true <-> - 2 ^ 63 <= z < 2 ^ 63.
Proof. unfold int64. rewrite andb_true_iff, Z.leb_le, Z.ltb_lt. tauto. Qed.

(** ** The net balance of a cycle (C1) *)

Lemma entry_totals_perm (d d' : db) (cid : Z) :
  Permutation (bills d) (bills d') ->
  sum_Z (ordinary_deposits d cid) = sum_Z (ordinary_deposits d' cid)
  /\ sum_Z (ordinary_withdrawals d cid) = sum_Z (ordinary_withdrawals d' cid)
  /\ sum_Z (carry_over_entries d cid) = sum_Z (carry_over_entries d' cid).
Proof.
  intros P. unfold ordinary_deposits, ordinary_withdrawals, carry_over_entries.
  repeat split; apply sum_Z_perm, Permutation_map, filter_perm, P.
Qed.

(** C1, as the code has it: the net balance of the summary of a cycle is the
    sum of its ordinary deposits, minus the sum of its ordinary withdrawals,
    plus the sum of its entries tagged as carry-over; the stored carried
    balance of the group is not a term of it.  The value is the same for any
    two tables that hold the same entries in a different order. *)
Theorem net_balance_of_entries (d : db) (cid : Z) :
  net_balance (get_cycle_summary d cid)
  = sum_Z (ordinary_deposits d cid) - sum_Z (ordinary_withdrawals d cid)
    + sum_Z (carry_over_entries d cid)
  /\ forall d', Permutation (bills d) (bills d') ->
       net_balance (get_cycle_summary d' cid) = net_balance (get_cycle_summary d cid).
Proof.
  assert (F : forall x, net_balance (get_cycle_summary x cid)
    = sum_Z (ordinary_deposits x cid) - sum_Z (ordinary_withdrawals x cid)
      + sum_Z (carry_over_entries x cid)).
  { intros x. rewrite summary_net_balance, summary_total_deposits,
      summary_total_withdrawals, summary_previous_balance. reflexivity. }
  split; [apply F|]. intros d' P. rewrite !F.
  destruct (entry_totals_perm d d' cid P) as (E1 & E2 & E3).
  rewrite E1, E2, E3. reflexivity.
Qed.

(** Two tables with the same three entries, the second one in another order. *)
Lemma net_balance_of_entries_witness :
  let b1 := mk_bill 1 1 7 1 1000 [32%N] [] in
  let b2 := mk_bill 2 1 7 1 (-300) [32%N] [] in
  let b3 := mk_bill 3 1 7 1 200 Words.auto_import_note [] in
  let d := mk_db [] 0 [b1; b2; b3] 3 [] 0 in
  let d' := mk_db [] 0 [b3; b1; b2] 3 [] 0 in
  net_balance (get_cycle_summary d 1) = 900
  /\ net_balance (get_cycle_summary d' 1) = net_balance (get_cycle_summary d 1).
Proof.
  intros b1 b2 b3 d d'. split; [reflexivity|].
  apply (proj2 (net_balance_of_entries d 1) d').
  change (Permutation [b1; b2; b3] [b3; b1; b2]).
  apply Permutation_sym. apply (Permutation_cons_app [b1; b2] [] b3).
  apply Permutation_refl.
Defined.

(** C1 as stated fails once a cycle was closed on a balance that is not zero:
    after open, +900, close, open the carried balance of the group is 900 and
    the new cycle is empty, yet its net balance is 0.  After 结余 +200 and
    +1000 in that cycle the net balance is 1200: the carried balance is still
    no term of it, and neither is the carry-over entry counted twice. *)
Lemma net_balance_ignores_carried_balance :
  let s := run Sample.group
             [Sample.said Words.open_cycle; Sample.said Sample.plus_900;
              Sample.said Words.close_cycle; Sample.said Words.open_cycle]
             initial_state in
  let s' := run Sample.group
              [Sample.said Sample.balance_200; Sample.said Sample.plus_1000] s in
  select_active_cycle Sample.group (disk s) = Some 2
  /\ get_previous_balance Sample.group (disk s) = 900
  /\ net_balance (get_cycle_summary (disk s) 2) = 0
  /\ net_balance (get_cycle_summary (disk s) 2)
     <> sum_Z (ordinary_deposits (disk s) 2) - sum_Z (ordinary_withdrawals (disk s) 2)
        + sum_Z (carry_over_entries (disk s) 2)
        + get_previous_balance Sample.group (disk s)
  /\ net_balance (get_cycle_summary (disk s') 2) = 1200
  /\ net_balance (get_cycle_summary (disk s') 2)
     <> sum_Z (ordinary_deposits (disk s') 2) - sum_Z (ordinary_withdrawals (disk s') 2)
        + sum_Z (carry_over_entries (disk s') 2)
        + get_previous_balance Sample.group (disk s')
  /\ net_balance (get_cycle_summary (disk s') 2)
     <> sum_Z (ordinary_deposits (disk s') 2) - sum_Z (ordinary_withdrawals (disk s') 2)
        + sum_Z (carry_over_entries (disk s') 2)
        + previous_balance (get_cycle_summary (disk s') 2).
Proof. vm_compute. repeat split; discriminate. Qed.

(** The scenario open, +1000, -300, 结余 +200, close: one deposit of 1000, one
    withdrawal of 300, 200 carried over, 900 left; the next open offers 900. *)
Example scenario_of_one_cycle :
  let s := run Sample.group
             [Sample.said Words.open_cycle; Sample.said Sample.plus_1000;
              Sample.said Sample.minus_300; Sample.said Sample.balance_200]
             initial_state in
  let closing := handle_command Sample.group Sample.operator true Sample.clock
                   no_fault Words.close_cycle s in
  fst closing
  = ReplyClosed (mk_summary 1000 1 300 1 200 900 [(1000, [])] [(-300, [])])
  /\ fst (handle_command Sample.group Sample.operator true Sample.clock no_fault
            Words.open_cycle (snd closing)) = ReplyOpened (Some 900).
Proof. split; reflexivity. Qed.

(** ** Row identifiers *)

Lemma fold_max_bounds (seq : Z) (ids : list Z) :
  seq <= fold_right Z.max seq ids
  /\ Forall (fun i => i <= fold_right Z.max seq ids) ids.
Proof.
  induction ids as [|i ids [IH1 IH2]]; simpl; [split; [lia | constructor]|].
  split; [lia|]. constructor; [lia|].
  eapply Forall_impl; [|exact IH2]. simpl; intros; lia.
Qed.

Lemma next_rowid_above_seq (seq : Z) (ids : list Z) : seq < next_rowid seq ids.
Proof. unfold next_rowid. pose proof (fold_max_bounds seq ids) as [H _]. lia. Qed.

Lemma next_rowid_above_ids (seq : Z) (ids : list Z) (i : Z) :
  In i ids -> i < next_rowid seq ids.
Proof.
  intros Hi. unfold next_rowid. pose proof (fold_max_bounds seq ids) as [_ H].
  rewrite Forall_forall in H. specialize (H i Hi). lia.
Qed.

(** ** The cycles table under the statements *)

Lemma active_cycles_deactivated (g : Z) (d : db) :
  active_cycles g (deactivate_cycles g d) = [].
Proof.
  unfold active_cycles, deactivate_cycles; simpl.
  induction (cycles d) as [|c l IH]; simpl; [reflexivity|].
  destruct (cycle_group_id c =? g) eqn:E; simpl.
  - rewrite andb_false_r. exact IH.
  - rewrite E. simpl. exact IH.
Qed.

Lemma active_cycles_insert (g g' : Z) (t : timestamp) (a : bool) (d : db) :
  active_cycles g (insert_cycle g' t a d)
  = active_cycles g d
    ++ (if (g' =? g) && a
        then [mk_cycle (next_rowid (cycles_seq d) (map cycle_id (cycles d))) g' t None a]
        else []).
Proof. unfold active_cycles, insert_cycle; simpl. rewrite filter_app. reflexivity. Qed.

Lemma active_cycles_end_cycle (g cid : Z) (t : timestamp) (d : db) :
  (length (active_cycles g (end_cycle t cid d)) <= length (active_cycles g d))%nat.
Proof.
  unfold active_cycles, end_cycle; simpl.
  induction (cycles d) as [|c l IH]; simpl; [lia|].
  destruct (cycle_id c =? cid); simpl.
  - rewrite andb_false_r. destruct (_ && _); simpl; lia.
  - destruct (_ && _); simpl; lia.
Qed.

Lemma select_active_cycle_cycles (g : Z) (d d' : db) :
  cycles d' = cycles d -> select_active_cycle g d' = select_active_cycle g d.
Proof. unfold select_active_cycle. intros ->. reflexivity. Qed.

Lemma select_active_cycle_in (g c : Z) (d : db) :
  select_active_cycle g d = Some c ->
  exists row, In row (cycles d) /\ cycle_id row = c
              /\ cycle_group_id row = g /\ is_active row = true.
Proof.
  unfold select_active_cycle. destruct (find _ _) as [row|] eqn:F; [|discriminate].
  intros [= <-]. apply find_some in F. destruct F as [Hin Hp].
  apply andb_prop in Hp. destruct Hp as [Hg Ha].
  exists row. repeat split; try assumption. lia.
Qed.

Lemma select_active_cycle_none (g : Z) (d : db) :
  select_active_cycle g d = None <-> active_cycles g d = [].
Proof.
  unfold select_active_cycle, active_cycles.
  induction (cycles d) as [|c l IH]; simpl; [tauto|].
  destruct (_ && _); simpl; [split; discriminate | exact IH].
Qed.

Lemma filter_all {A} (p : A -> bool) (l : list A) :
  Forall (fun x => p x = true) l -> filter p l = l.
Proof. induction 1 as [|x l Hx _ IH]; simpl; [|rewrite Hx, IH]; reflexivity. Qed.

(** ** Newest first: the ORDER BY of the queries *)

Lemma insert_desc_perm b l : Permutation (insert_desc b l) (b :: l).
Proof.
  induction l as [|x l IH]; simpl; [reflexivity|].
  destruct (bill_id x <=? bill_id b); [reflexivity|].
  rewrite IH. apply perm_swap.
Qed.

Lemma order_perm l : Permutation (order_by_bill_id_desc l) l.
Proof.
  induction l as [|b l IH]; simpl; [reflexivity|].
  rewrite insert_desc_perm, IH. reflexivity.
Qed.

Lemma insert_desc_sorted b l :
  StronglySorted descending l -> StronglySorted descending (insert_desc b l).
Proof.
  induction 1 as [|x l S IH F]; simpl; [repeat constructor|].
  destruct (Z.leb_spec (bill_id x) (bill_id b)) as [L|L].
  - constructor; [constructor; assumption|]. constructor; [exact L|].
    eapply Forall_impl; [|exact F]. unfold descending; intros; lia.
  - constructor; [exact IH|].
    apply (Permutation_Forall (Permutation_sym (insert_desc_perm b l))).
    constructor; [unfold descending; lia | exact F].
Qed.

Lemma order_sorted l : StronglySorted descending (order_by_bill_id_desc l).
Proof.
  induction l as [|b l IH]; simpl; [constructor | apply insert_desc_sorted, IH].
Qed.

Lemma order_newest_last b l :
  Forall (fun x => bill_id x < bill_id b) l ->
  order_by_bill_id_desc (l ++ [b]) = b :: order_by_bill_id_desc l.
Proof.
  induction 1 as [|x l Hx _ IH]; simpl; [reflexivity|].
  rewrite IH. simpl. destruct (Z.leb_spec (bill_id b) (bill_id x)); [lia | reflexivity].
Qed.

Lemma order_head_is_newest b rest l :
  order_by_bill_id_desc l = b :: rest ->
  In b l /\ forall x, In x l -> bill_id x <= bill_id b.
Proof.
  intros E. pose proof (order_perm l) as P. pose proof (order_sorted l) as S.
  rewrite E in P, S. split.
  - apply (Permutation_in b P). left; reflexivity.
  - intros x Hx. apply (Permutation_in x (Permutation_sym P)) in Hx.
    destruct Hx as [<-|Hx]; [lia|].
    inversion S as [|? ? _ F]; subst. rewrite Forall_forall in F. apply (F x Hx).
Qed.

Lemma order_nil l : order_by_bill_id_desc l = [] -> l = [].
Proof.
  intros E. pose proof (order_perm l) as P. rewrite E in P.
  apply Permutation_nil in P. exact P.
Qed.

Lemma bills_below_next d :
  Forall (fun x => bill_id x < next_rowid (bills_seq d) (map bill_id (bills d))) (bills d).
Proof.
  apply Forall_forall. intros x Hx. apply next_rowid_above_ids.
  apply in_map, Hx.
Qed.

(** ** Entries in the order of their ids *)

Lemma filter_none {A} (p : A -> bool) (l : list A) :
  Forall (fun x => p x = false) l -> filter p l = [].
Proof. induction 1 as [|x l Hx _ IH]; cbn [filter]; [|rewrite Hx]; auto. Qed.

Lemma sorted_ids_distinct (l : list bill) :
  StronglySorted (fun a b => bill_id a < bill_id b) l -> NoDup (map bill_id l).
Proof.
  induction 1 as [|x l _ IH F]; cbn [map]; constructor; [|exact IH].
  intros Hin. apply in_map_iff in Hin. destruct Hin as (y & E & Hy).
  rewrite Forall_forall in F. specialize (F y Hy). lia.
Qed.

Lemma sorted_insert_last (l : list bill) (b : bill) :
  StronglySorted (fun a b => bill_id a < bill_id b) l ->
  Forall (fun x => bill_id x < bill_id b) l ->
  StronglySorted (fun a b => bill_id a < bill_id b) (l ++ [b]).
Proof.
  induction 1 as [|x l _ IH F]; intros B; cbn [app].
  - repeat constructor.
  - inversion B as [|? ? Hx Hl]; subst. constructor; [apply IH, Hl|].
    apply Forall_app. split; [exact F | repeat constructor; exact Hx].
Qed.

Lemma sorted_filter (p : bill -> bool) (l : list bill) :
  StronglySorted (fun a b => bill_id a < bill_id b) l ->
  StronglySorted (fun a b => bill_id a < bill_id b) (filter p l).
Proof.
  induction 1 as [|x l _ IH F]; cbn [filter]; [constructor|].
  destruct (p x); [|exact IH]. constructor; [exact IH|].
  apply Forall_forall. intros y Hy. apply filter_In in Hy.
  rewrite Forall_forall in F. apply F, Hy.
Qed.

(** Taking the newest entry of a cycle away leaves the rows of every cycle
    as they were, but for that entry, which stood last among them. *)
Lemma rows_without_last (l : list bill) (b : bill) (cid : Z) :
  StronglySorted (fun a b => bill_id a < bill_id b) l -> In b l ->
  (forall x, In x l -> bill_cycle_id x = bill_cycle_id b -> bill_id x <= bill_id b) ->
  filter (in_cycle cid) l
  = filter (in_cycle cid) (filter (fun x => negb (bill_id x =? bill_id b)) l)
    ++ (if in_cycle cid b then [b] else []).
Proof.
  induction 1 as [|x l S IH F]; [intros []|]. intros Hin Hmax.
  rewrite Forall_forall in F. cbn [filter].
  destruct (Z.eqb_spec (bill_id x) (bill_id b)) as [E|E]; cbn [negb].
  - assert (x = b) as ->.
    { destruct Hin as [H|H]; [exact H|]. specialize (F b H). lia. }
    assert (K : filter (fun y => negb (bill_id y =? bill_id b)) l = l).
    { apply filter_all, Forall_forall. intros y Hy. specialize (F y Hy).
      destruct (Z.eqb_spec (bill_id y) (bill_id b)); [lia | reflexivity]. }
    rewrite K. destruct (in_cycle cid b) eqn:Hc; [|rewrite app_nil_r; reflexivity].
    assert (N : filter (in_cycle cid) l = []).
    { apply filter_none, Forall_forall. intros y Hy. unfold in_cycle in *.
      destruct (Z.eqb_spec (bill_cycle_id y) cid) as [Ey|]; [|reflexivity].
      exfalso. specialize (F y Hy).
      assert (bill_id y <= bill_id b) by (apply Hmax; [right; exact Hy | lia]).
      lia. }
    rewrite N. reflexivity.
  - assert (Hb : In b l) by (destruct Hin as [->|H]; [contradiction | exact H]).
    assert (IH' := IH Hb (fun y Hy => Hmax y (or_intror Hy))).
    cbn [filter]. destruct (in_cycle cid x); cbn [app]; rewrite IH'; reflexivity.
Qed.

Lemma select_last_bill_newest (c : Z) (d : db) (b : bill) :
  select_last_bill c d = Some b ->
  In b (bills d) /\ bill_cycle_id b = c
  /\ forall x, In x (bills d) -> bill_cycle_id x = c -> bill_id x <= bill_id b.
Proof.
  unfold select_last_bill.
  destruct (order_by_bill_id_desc _) as [|b' rest] eqn:O; [discriminate|].
  intros [= ->]. apply order_head_is_newest in O. destruct O as [Hin Hmax].
  apply filter_In in Hin. destruct Hin as [Hin Hc]. unfold in_cycle in Hc.
  split; [exact Hin|]. split; [lia|].
  intros x Hx Hxc. apply Hmax. apply filter_In. split; [exact Hx|].
  unfold in_cycle. lia.
Qed.

Lemma insert_bill_rows (cid c g u v : Z) (note : pystr) (t : timestamp) (d : db) :
  filter (in_cycle cid) (bills (insert_bill c g u v note t d))
  = filter (in_cycle cid) (bills d)
    ++ (if c =? cid
        then [mk_bill (next_rowid (bills_seq d) (map bill_id (bills d))) c g u v note t]
        else []).
Proof.
  unfold insert_bill. cbn [bills]. rewrite filter_app. cbn [filter].
  unfold in_cycle at 2. cbn [bill_cycle_id]. destruct (c =? cid); reflexivity.
Qed.

Lemma raw_withdrawals (d : db) (cid : Z) :
  coalesce (sql_sum (map (case_when is_withdrawal amount)
                       (filter (in_cycle cid) (bills d)))) 0
  = - total_withdrawals (get_cycle_summary d cid).
Proof.
  unfold get_cycle_summary. cbn [total_withdrawals].
  rewrite sql_sum_case_when.
  assert (F : Forall (fun b => amount b < 0)
                (filter is_withdrawal (filter (in_cycle cid) (bills d)))).
  { apply Forall_forall. intros b Hb. apply filter_In in Hb. destruct Hb as [_ Hb].
    unfold is_withdrawal in Hb. apply andb_prop in Hb. destruct Hb as [Hb _]. lia. }
  destruct (abs_sum_negative _ F) as [_ L]. lia.
Qed.

(** Whether the summary raises once an entry was appended to a cycle whose
    summary did not: the total the entry goes into leaves the 64 bits. *)
Lemma summary_raises_inserted (d : db) (c g u v : Z) (note : pystr) (t : timestamp) :
  summary_raises d c = false ->
  summary_raises (insert_bill c g u v note t d) c
  = if like_balance note
    then negb (int64 (previous_balance (get_cycle_summary d c) + v))
    else if v >? 0
    then negb (int64 (total_deposits (get_cycle_summary d c) + v))
    else if v <? 0
    then negb (int64 (v - total_withdrawals (get_cycle_summary d c)))
    else false.
Proof.
  intros H. pose proof (raw_withdrawals d c) as W.
  unfold summary_raises in *. cbv zeta in *.
  rewrite insert_bill_rows, Z.eqb_refl, !map_app, !sum_overflows_app.
  apply orb_false_elim in H. destruct H as [H H3].
  apply orb_false_elim in H. destruct H as [H1 H2].
  rewrite H1, H2, H3. cbn [orb map sum_overflows]. rewrite W.
  unfold case_when, is_deposit, is_withdrawal, is_balance.
  cbn [amount description Z.add].
  unfold get_cycle_summary. cbn [previous_balance total_deposits total_withdrawals].
  destruct (like_balance note); cbn [negb andb orb].
  - rewrite !andb_false_r. cbn [orb]. rewrite orb_false_r. reflexivity.
  - rewrite !andb_true_r.
    destruct (Z.gtb_spec v 0) as [P|P]; destruct (Z.ltb_spec v 0) as [Q|Q];
      try lia; cbn [orb]; rewrite ?orb_false_r; try reflexivity.
    f_equal. f_equal. lia.
Qed.

Lemma entry_fits_accepts (d : db) (c g u v : Z) (note : pystr) (t : timestamp) :
  summary_raises d c = false ->
  int64 v && negb (summary_raises (insert_bill c g u v note t d) c)
  = entry_fits d c v note.
Proof.
  intros H. rewrite (summary_raises_inserted d c g u v note t H).
  unfold entry_fits. cbv zeta. f_equal.
  destruct (like_balance note); [apply negb_involutive|].
  destruct (v >? 0); [apply negb_involutive|].
  destruct (v <? 0); [apply negb_involutive | reflexivity].
Qed.

Lemma summary_raises_inserted_other (d : db) (cid c g u v : Z) (note : pystr)
    (t : timestamp) :
  c <> cid ->
  summary_raises (insert_bill c g u v note t d) cid = summary_raises d cid.
Proof.
  intros N. apply summary_raises_rows. rewrite insert_bill_rows.
  destruct (Z.eqb_spec c cid); [contradiction|]. apply app_nil_r.
Qed.

(** ** get_active_cycle in a consistent state *)

Lemma select_nonzero (g c : Z) (s : state) :
  consistent g s -> select_active_cycle g (disk s) = Some c -> c <> 0.
Proof.
  intros C H. apply select_active_cycle_in in H.
  destruct H as (row & Hin & <- & _).
  destruct (cycle_ids_positive g s C) as [_ P].
  rewrite Forall_forall in P. specialize (P row Hin). lia.
Qed.

Lemma get_active_cycle_consistent (g : Z) (s : state) :
  consistent g s ->
  get_active_cycle g s
  = (select_active_cycle g (disk s),
     mk_state (disk s) (select_active_cycle g (disk s))).
Proof.
  intros C. unfold get_active_cycle.
  destruct (active_cycle_cache s) as [c|] eqn:E.
  - destruct (cache_is_active g s C c E) as [_ ->].
    destruct s; simpl in *; subst; reflexivity.
  - destruct (select_active_cycle g (disk s)) as [c|] eqn:S; simpl.
    + pose proof (select_nonzero g c s C S) as Hc.
      destruct (Z.eqb_spec c 0); [contradiction|]. reflexivity.
    + destruct s; simpl in *; subst; reflexivity.
Qed.

Lemma consistent_cached (g : Z) (s : state) :
  consistent g s ->
  consistent g (mk_state (disk s) (select_active_cycle g (disk s))).
Proof.
  intros C. constructor; simpl; try apply C.
  intros c Hc. split; [|exact Hc].
  eapply select_nonzero; [exact C | exact Hc].
Qed.

(** A handler that leaves the cycles table alone keeps the state consistent
    as long as the entries stay in the order of their ids and no total of a
    cycle leaves the 64 bits. *)
Lemma consistent_new_bills (g : Z) (s : state) (d' : db) :
  consistent g s ->
  cycles d' = cycles (disk s) -> cycles_seq d' = cycles_seq (disk s) ->
  previous_balances d' = previous_balances (disk s) ->
  previous_balances_seq d' = previous_balances_seq (disk s) ->
  StronglySorted (fun a b => bill_id a < bill_id b) (bills d') ->
  (forall cid, summary_raises d' cid = false) ->
  consistent g (mk_state d' (select_active_cycle g (disk s))).
Proof.
  intros C Ec Es Ep Eq Hb Hs. apply consistent_cached in C.
  destruct C as [H1 H2 H3 H4 H5 H6 H7 H8]. simpl in *.
  constructor; simpl; unfold active_cycles; rewrite ?Ec, ?Es, ?Ep, ?Eq;
    try assumption.
  - intros c Hc. rewrite (select_active_cycle_cycles g (disk s) d' Ec). auto.
  - apply sorted_ids_distinct, Hb.
Qed.

Lemma insert_bill_sorted (cid g u v : Z) (note : pystr) (t : timestamp) (d : db) :
  StronglySorted (fun a b => bill_id a < bill_id b) (bills d) ->
  StronglySorted (fun a b => bill_id a < bill_id b)
    (bills (insert_bill cid g u v note t d)).
Proof.
  intros H. unfold insert_bill. cbn [bills]. apply sorted_insert_last; [exact H|].
  cbn [bill_id]. apply bills_below_next.
Qed.

Lemma summary_raises_deleted (g : Z) (s : state) (c : Z) (b : bill) (cid : Z) :
  consistent g s -> select_last_bill c (disk s) = Some b ->
  summary_raises (delete_bill (bill_id b) (disk s)) cid = false.
Proof.
  intros C L. apply select_last_bill_newest in L. destruct L as (Hin & Hc & Hmax).
  apply (summary_raises_prefix (disk s) _ cid (if in_cycle cid b then [b] else []));
    [|apply (sums_in_range g s C)].
  unfold delete_bill. cbn [bills].
  apply rows_without_last; [apply (bills_by_id g s C) | exact Hin |].
  intros x Hx Hxc. apply Hmax; [exact Hx | lia].
Qed.

Lemma insert_bill_ids_distinct (cid g u v : Z) (note : pystr) (t : timestamp) (d : db) :
  NoDup (map bill_id (bills d)) ->
  NoDup (map bill_id (bills (insert_bill cid g u v note t d))).
Proof.
  intros H. unfold insert_bill; simpl. rewrite map_app; simpl.
  apply NoDup_app; [exact H | repeat constructor; intros [] |].
  intros i Hi [<- | []]. apply (next_rowid_above_ids (bills_seq d)) in Hi. lia.
Qed.

Lemma delete_bill_ids_distinct (id : Z) (d : db) :
  NoDup (map bill_id (bills d)) ->
  NoDup (map bill_id (bills (delete_bill id d))).
Proof.
  unfold delete_bill; simpl. induction (bills d) as [|b l IH]; simpl; [auto|].
  intros H. inversion H as [|? ? Hn Hl]; subst.
  destruct (negb _); simpl; [|auto]. constructor; [|auto].
  intros Hin. apply Hn. apply in_map_iff in Hin. destruct Hin as (x & Hx & Hin).
  apply filter_In in Hin. apply in_map_iff. exists x. tauto.
Qed.

(** ** The transaction of the closing command *)

Ltac run_txn :=
  unfold close_transaction, txn_bind, try_execute, try_bind, try_commit, txn_ret,
    execute, commit, connect, reached; simpl.

Lemma close_transaction_cases faults now g cid net d :
  (((exists st, faults st = true /\ reached net st = true)
    \/ (negb (net =? 0) = true /\ int64 net = false))
   /\ exists c', close_transaction faults now g cid net (connect d) = (Raised, c')
                 /\ durable c' = d)
  \/ (((forall st, reached net st = true -> faults st = false)
       /\ (negb (net =? 0) = true -> int64 net = true))
      /\ exists c', close_transaction faults now g cid net (connect d) = (Done tt, c')
                    /\ durable c' = closed_db now g cid net d).
Proof.
  unfold closed_db.
  destruct (faults StmtEndCycle) eqn:F1.
  { left. split; [left; exists StmtEndCycle; auto|]. run_txn. rewrite F1. eauto. }
  destruct (faults StmtDeleteBalances) eqn:F2.
  { left. split; [left; exists StmtDeleteBalances; auto|].
    run_txn. rewrite F1, F2. eauto. }
  destruct (negb (net =? 0)) eqn:N.
  - destruct (int64 net) eqn:I.
    2:{ left. split; [right; auto|]. run_txn. rewrite F1, F2, N, I. eauto. }
    destruct (faults StmtInsertBalance) eqn:F3.
    { left. split; [left; exists StmtInsertBalance; simpl; auto|].
      run_txn. rewrite F1, F2, N, I, F3. eauto. }
    destruct (faults StmtCommit) eqn:F4.
    { left. split; [left; exists StmtCommit; auto|].
      run_txn. rewrite F1, F2, N, I, F3, F4. eauto. }
    right. split; [split|].
    + intros [] _; assumption.
    + reflexivity.
    + run_txn. rewrite F1, F2, N, I, F3, F4. eauto.
  - destruct (faults StmtCommit) eqn:F4.
    { left. split; [left; exists StmtCommit; auto|].
      run_txn. rewrite F1, F2, N, F4. eauto. }
    right. split; [split|].
    + intros []; simpl; rewrite ?N; intros; try assumption; discriminate.
    + discriminate.
    + run_txn. rewrite F1, F2, N, F4. eauto.
Qed.

Lemma close_transaction_raised faults now g cid net d st :
  faults st = true -> reached net st = true ->
  exists c', close_transaction faults now g cid net (connect d) = (Raised, c')
             /\ durable c' = d.
Proof.
  intros F R.
  destruct (close_transaction_cases faults now g cid net d)
    as [[_ H] | [[H _] _]]; [exact H|].
  rewrite (H st R) in F. discriminate.
Qed.

Lemma close_transaction_done faults now g cid net d c' :
  close_transaction faults now g cid net (connect d) = (Done tt, c') ->
  durable c' = closed_db now g cid net d
  /\ (forall st, reached net st = true -> faults st = false)
  /\ (negb (net =? 0) = true -> int64 net = true).
Proof.
  intros E.
  destruct (close_transaction_cases faults now g cid net d)
    as [[_ (c'' & E' & _)] | [[H I] (c'' & E' & D)]]; rewrite E in E'.
  - discriminate.
  - injection E' as <-. split; [|split]; assumption.
Qed.

(** ** The handlers in a consistent state *)

Lemma handle_open_consistent_eq g now s :
  consistent g s ->
  handle_open g true now s
  = match select_active_cycle g (disk s) with
    | Some c => (ReplyAlreadyActive, mk_state (disk s) (Some c))
    | None =>
        let d' := insert_cycle g (now 0%nat) true (deactivate_cycles g (disk s)) in
        let pb := get_previous_balance g d' in
        (ReplyOpened (if negb (pb =? 0) then Some pb else None), mk_state d' None)
    end.
Proof.
  intros C. unfold handle_open. simpl negb. cbv iota.
  rewrite (get_active_cycle_consistent g s C).
  destruct (select_active_cycle g (disk s)) as [c|] eqn:S; simpl.
  - pose proof (select_nonzero g c s C S).
    destruct (Z.eqb_spec c 0); [contradiction | reflexivity].
  - reflexivity.
Qed.

Lemma handle_close_consistent_eq g now faults s :
  consistent g s ->
  handle_close g true now faults s
  = match select_active_cycle g (disk s) with
    | None => (ReplyNoActiveCycle, mk_state (disk s) None)
    | Some c =>
        let sm := get_cycle_summary (disk s) c in
        match close_transaction faults now g c (net_balance sm) (connect (disk s)) with
        | (Done _, c') => (ReplyClosed sm, mk_state (durable c') None)
        | (Raised, c') => (ReplyRolledBack, mk_state (durable c') (Some c))
        end
    end.
Proof.
  intros C. unfold handle_close. simpl negb. cbv iota.
  rewrite (get_active_cycle_consistent g s C).
  destruct (select_active_cycle g (disk s)) as [c|] eqn:S; simpl; [|reflexivity].
  pose proof (select_nonzero g c s C S).
  destruct (Z.eqb_spec c 0); [contradiction|].
  rewrite (sums_in_range g s C c).
  destruct (close_transaction _ _ _ _ _ _) as [[[]|] c']; reflexivity.
Qed.

Lemma handle_entry_consistent_eq g u now cmd args s :
  consistent g s ->
  handle_entry g u true now cmd args s
  = match select_active_cycle g (disk s) with
    | None => (ReplyNoActiveCycle, mk_state (disk s) None)
    | Some c =>
        match PyStr.int cmd with
        | None => (ReplyBadAmount, mk_state (disk s) (Some c))
        | Some v =>
            let d' := insert_bill c g u v (entry_note args) (now 0%nat) (disk s) in
            if entry_fits (disk s) c v (entry_note args)
            then (ReplySummary (get_cycle_summary d' c), mk_state d' (Some c))
            else (Uncaught, mk_state (disk s) (Some c))
        end
    end.
Proof.
  intros C. unfold handle_entry. simpl negb. cbv iota.
  rewrite (get_active_cycle_consistent g s C).
  destruct (select_active_cycle g (disk s)) as [c|] eqn:S; simpl; [|reflexivity].
  pose proof (select_nonzero g c s C S).
  destruct (Z.eqb_spec c 0); [contradiction|].
  destruct (PyStr.int cmd) as [v|]; [|reflexivity].
  rewrite <- (entry_fits_accepts (disk s) c g u v (entry_note args) (now 0%nat)
                (sums_in_range g s C c)).
  destruct (int64 v); [|reflexivity]. cbn [negb andb].
  destruct (summary_raises _ c); reflexivity.
Qed.

Lemma handle_balance_consistent_eq g u now args s :
  consistent g s ->
  handle_balance g u true now args s
  = match select_active_cycle g (disk s) with
    | None => (ReplyNoActiveCycle, mk_state (disk s) None)
    | Some c =>
        match args with
        | [] => (ReplyBalanceFormat, mk_state (disk s) (Some c))
        | a0 :: rest =>
            match PyStr.int a0 with
            | None => (ReplyBalanceFormat, mk_state (disk s) (Some c))
            | Some v =>
                if balance_recorded c (disk s)
                then (ReplyAlreadyRecorded, mk_state (disk s) (Some c))
                else
                  let d' :=
                    insert_bill c g u v (balance_note rest) (now 0%nat) (disk s) in
                  if entry_fits (disk s) c v (balance_note rest)
                  then (ReplyBalanceRecorded (get_cycle_summary d' c),
                        mk_state d' (Some c))
                  else (Uncaught, mk_state (disk s) (Some c))
            end
        end
    end.
Proof.
  intros C. unfold handle_balance. simpl negb. cbv iota.
  rewrite (get_active_cycle_consistent g s C).
  destruct (select_active_cycle g (disk s)) as [c|] eqn:S; simpl; [|reflexivity].
  pose proof (select_nonzero g c s C S).
  destruct (Z.eqb_spec c 0); [contradiction|].
  destruct args as [|a0 rest]; [reflexivity|].
  destruct (PyStr.int a0) as [v|]; [|reflexivity].
  destruct (balance_recorded c (disk s)); [reflexivity|].
  rewrite <- (entry_fits_accepts (disk s) c g u v _ (now 0%nat)
                (sums_in_range g s C c)).
  destruct (int64 v); [|reflexivity]. cbn [negb andb].
  destruct (summary_raises _ c); reflexivity.
Qed.

Lemma handle_undo_consistent_eq g s :
  consistent g s ->
  handle_undo g true s
  = match select_active_cycle g (disk s) with
    | None => (ReplyNoActiveCycle, mk_state (disk s) None)
    | Some c =>
        match select_last_bill c (disk s) with
        | None => (ReplyNothingToUndo, mk_state (disk s) (Some c))
        | Some b =>
            let d' := delete_bill (bill_id b) (disk s) in
            (ReplyUndone (amount b) (description b) (get_cycle_summary d' c),
             mk_state d' (Some c))
        end
    end.
Proof.
  intros C. unfold handle_undo. simpl negb. cbv iota.
  rewrite (get_active_cycle_consistent g s C).
  destruct (select_active_cycle g (disk s)) as [c|] eqn:S; simpl; [|reflexivity].
  pose proof (select_nonzero g c s C S).
  destruct (Z.eqb_spec c 0); [contradiction|].
  destruct (select_last_bill c (disk s)) as [b|] eqn:L; [|reflexivity].
  rewrite (summary_raises_deleted g s c b c C L). reflexivity.
Qed.

Lemma import_balance_consistent_eq g u now v s :
  consistent g s ->
  import_balance g u true now v s
  = match select_active_cycle g (disk s) with
    | None => (CbNoActiveCycle, mk_state (disk s) None)
    | Some c =>
        if balance_recorded c (disk s)
        then (CbAlreadyImported, mk_state (disk s) (Some c))
        else
          let d' :=
            insert_bill c g u v Words.auto_import_note (now 0%nat) (disk s) in
          if entry_fits (disk s) c v Words.auto_import_note
          then (CbImported v (get_cycle_summary d' c), mk_state d' (Some c))
          else (CbImportFailed, mk_state (disk s) (Some c))
    end.
Proof.
  intros C. unfold import_balance. simpl negb. cbv iota.
  rewrite (get_active_cycle_consistent g s C).
  destruct (select_active_cycle g (disk s)) as [c|] eqn:S; simpl; [|reflexivity].
  pose proof (select_nonzero g c s C S).
  destruct (Z.eqb_spec c 0); [contradiction|].
  destruct (balance_recorded c (disk s)); [reflexivity|].
  rewrite <- (entry_fits_accepts (disk s) c g u v _ (now 0%nat)
                (sums_in_range g s C c)).
  destruct (int64 v); [|reflexivity]. cbn [negb andb].
  destruct (summary_raises _ c); reflexivity.
Qed.

(** ** Every run keeps the state consistent *)

Lemma consistent_initial g : consistent g initial_state.
Proof.
  constructor; simpl; try constructor; try lia; try discriminate;
    try constructor; intros; reflexivity.
Qed.

Lemma consistent_opened g t s :
  consistent g s ->
  consistent g
    (mk_state (insert_cycle g t true (deactivate_cycles g (disk s))) None).
Proof.
  intros [H1 H2 [H3 H3'] H4 H5 H6 H7 H8]. constructor; simpl.
  - rewrite active_cycles_insert, active_cycles_deactivated.
    rewrite Z.eqb_refl. simpl. lia.
  - discriminate.
  - pose proof (next_rowid_above_seq (cycles_seq (disk s))
      (map cycle_id (map
         (fun c => if cycle_group_id c =? g
                   then mk_cycle (cycle_id c) (cycle_group_id c) (start_time c)
                          (end_time c) false
                   else c) (cycles (disk s))))) as Hn.
    split; [lia|]. apply Forall_app. split.
    + apply Forall_map. eapply Forall_impl; [|exact H3'].
      intros c Hc. destruct (_ =? _); simpl; assumption.
    + repeat constructor. simpl. lia.
  - apply Forall_app. split.
    + apply Forall_map. eapply Forall_impl; [|exact H4].
      intros c Hc. destruct (_ =? _); simpl; [discriminate | assumption].
    + repeat constructor.
  - assumption.
  - assumption.
  - assumption.
  - exact H8.
Qed.

Lemma closed_db_cycles now g cid net d :
  cycles (closed_db now g cid net d) = cycles (end_cycle (now 0%nat) cid d)
  /\ cycles_seq (closed_db now g cid net d) = cycles_seq d
  /\ bills (closed_db now g cid net d) = bills d.
Proof. unfold closed_db. destruct (negb _); simpl; auto. Qed.

Lemma closed_db_balance_ids now g cid net d :
  Forall (fun r => pb_id r <= previous_balances_seq d) (previous_balances d) ->
  Forall (fun r => pb_id r <= previous_balances_seq (closed_db now g cid net d))
    (previous_balances (closed_db now g cid net d)).
Proof.
  intros H. unfold closed_db.
  assert (F : Forall (fun r => pb_id r <= previous_balances_seq d)
                (filter (fun r => negb (pb_group_id r =? g)) (previous_balances d))).
  { apply Forall_forall. intros r Hr. apply filter_In in Hr.
    rewrite Forall_forall in H. apply H, Hr. }
  destruct (negb (net =? 0)); simpl; [|exact F].
  pose proof (next_rowid_above_seq (previous_balances_seq d)
    (map pb_id (filter (fun r => negb (pb_group_id r =? g)) (previous_balances d)))).
  apply Forall_app. split.
  - eapply Forall_impl; [|exact F]. simpl; intros; lia.
  - repeat constructor. simpl. lia.
Qed.

Lemma consistent_closed g now cid net s :
  consistent g s ->
  consistent g (mk_state (closed_db now g cid net (disk s)) None).
Proof.
  intros [H1 H2 [H3 H3'] H4 H5 H6 H7 H8].
  destruct (closed_db_cycles now g cid net (disk s)) as (Ec & Es & Eb).
  constructor; simpl; rewrite ?Es, ?Eb; try assumption.
  - pose proof (active_cycles_end_cycle g cid (now 0%nat) (disk s)) as L.
    unfold active_cycles in *. rewrite Ec. lia.
  - discriminate.
  - split; [assumption|]. rewrite Ec. simpl. apply Forall_map.
    eapply Forall_impl; [|exact H3']. intros c Hc. destruct (_ =? _); assumption.
  - rewrite Ec. simpl. apply Forall_map.
    eapply Forall_impl; [|exact H4]. intros c Hc.
    destruct (_ =? _); simpl; [discriminate | assumption].
  - apply closed_db_balance_ids, H6.
  - intros cid'. rewrite <- (H8 cid'). apply summary_raises_rows.
    rewrite Eb. reflexivity.
Qed.

Lemma handle_open_keeps g a now s :
  consistent g s -> consistent g (snd (handle_open g a now s)).
Proof.
  intros C. destruct a; [|exact C].
  rewrite (handle_open_consistent_eq g now s C).
  destruct (select_active_cycle g (disk s)) as [c|] eqn:S; simpl.
  - rewrite <- S. apply consistent_cached, C.
  - apply consistent_opened, C.
Qed.

Lemma handle_close_keeps g a now faults s :
  consistent g s -> consistent g (snd (handle_close g a now faults s)).
Proof.
  intros C. destruct a; [|exact C].
  rewrite (handle_close_consistent_eq g now faults s C).
  destruct (select_active_cycle g (disk s)) as [c|] eqn:S; cbv zeta.
  - destruct (close_transaction_cases faults now g c
               (net_balance (get_cycle_summary (disk s) c)) (disk s))
      as [[_ (c' & -> & D)] | [_ (c' & -> & D)]]; cbn [snd]; rewrite D.
    + rewrite <- S. apply consistent_cached, C.
    + apply consistent_closed, C.
  - rewrite <- S. apply consistent_cached, C.
Qed.

Lemma consistent_inserted g c u v note t s :
  consistent g s -> select_active_cycle g (disk s) = Some c ->
  summary_raises (insert_bill c g u v note t (disk s)) c = false ->
  consistent g (mk_state (insert_bill c g u v note t (disk s)) (Some c)).
Proof.
  intros C S O. rewrite <- S.
  apply consistent_new_bills; try assumption; try reflexivity.
  - apply insert_bill_sorted, (bills_by_id g s C).
  - intros cid. destruct (Z.eq_dec c cid) as [<-|N]; [exact O|].
    rewrite (summary_raises_inserted_other _ cid c g u v note t N).
    apply (sums_in_range g s C).
Qed.

Lemma fitting_entry_inserted g c u v note t s :
  consistent g s -> select_active_cycle g (disk s) = Some c ->
  entry_fits (disk s) c v note = true ->
  consistent g (mk_state (insert_bill c g u v note t (disk s)) (Some c)).
Proof.
  intros C S F. apply consistent_inserted; [exact C | exact S |].
  rewrite <- (entry_fits_accepts (disk s) c g u v note t (sums_in_range g s C c)) in F.
  destruct (int64 v), (summary_raises _ c); simpl in F; congruence.
Qed.

Lemma handle_entry_keeps g u a now cmd args s :
  consistent g s -> consistent g (snd (handle_entry g u a now cmd args s)).
Proof.
  intros C. destruct a; [|exact C].
  rewrite (handle_entry_consistent_eq g u now cmd args s C).
  destruct (select_active_cycle g (disk s)) as [c|] eqn:S; simpl.
  - destruct (PyStr.int cmd) as [v|]; simpl.
    + destruct (entry_fits _ _ _ _) eqn:A; cbn [snd].
      * apply fitting_entry_inserted; assumption.
      * rewrite <- S. apply consistent_cached, C.
    + rewrite <- S. apply consistent_cached, C.
  - rewrite <- S. apply consistent_cached, C.
Qed.

Lemma handle_balance_keeps g u a now args s :
  consistent g s -> consistent g (snd (handle_balance g u a now args s)).
Proof.
  intros C. destruct a; [|exact C].
  rewrite (handle_balance_consistent_eq g u now args s C).
  destruct (select_active_cycle g (disk s)) as [c|] eqn:S; simpl.
  - destruct args as [|a0 rest]; simpl;
      [rewrite <- S; apply consistent_cached, C|].
    destruct (PyStr.int a0) as [v|]; simpl;
      [|rewrite <- S; apply consistent_cached, C].
    destruct (balance_recorded c (disk s)); simpl.
    + rewrite <- S. apply consistent_cached, C.
    + destruct (entry_fits _ _ _ _) eqn:A; cbn [snd].
      * apply fitting_entry_inserted; assumption.
      * rewrite <- S. apply consistent_cached, C.
  - rewrite <- S. apply consistent_cached, C.
Qed.

Lemma handle_undo_keeps g a s :
  consistent g s -> consistent g (snd (handle_undo g a s)).
Proof.
  intros C. destruct a; [|exact C].
  rewrite (handle_undo_consistent_eq g s C).
  destruct (select_active_cycle g (disk s)) as [c|] eqn:S; simpl.
  - destruct (select_last_bill c (disk s)) as [b|] eqn:L; simpl.
    + rewrite <- S. apply consistent_new_bills; try assumption; try reflexivity.
      * apply sorted_filter, (bills_by_id g s C).
      * intros cid. exact (summary_raises_deleted g s c b cid C L).
    + rewrite <- S. apply consistent_cached, C.
  - rewrite <- S. apply consistent_cached, C.
Qed.

Lemma import_balance_keeps g u a now v s :
  consistent g s -> consistent g (snd (import_balance g u a now v s)).
Proof.
  intros C. destruct a; [|exact C].
  rewrite (import_balance_consistent_eq g u now v s C).
  destruct (select_active_cycle g (disk s)) as [c|] eqn:S; simpl.
  - destruct (balance_recorded c (disk s)); simpl.
    + rewrite <- S. apply consistent_cached, C.
    + destruct (entry_fits _ _ _ _) eqn:A; cbn [snd].
      * apply fitting_entry_inserted; assumption.
      * rewrite <- S. apply consistent_cached, C.
  - rewrite <- S. apply consistent_cached, C.
Qed.

Lemma handle_command_keeps g u a now faults text s :
  consistent g s -> consistent g (snd (handle_command g u a now faults text s)).
Proof.
  intros C. unfold handle_command.
  destruct text as [|ch text]; [exact C|].
  destruct (PyStr.split _) as [|cmd args]; [exact C|].
  destruct (PyStr.eqb cmd Words.open_cycle); [apply handle_open_keeps, C|].
  destruct (PyStr.eqb cmd Words.close_cycle); [apply handle_close_keeps, C|].
  destruct (PyStr.match_signed_digits cmd); [apply handle_entry_keeps, C|].
  destruct (PyStr.eqb cmd Words.balance); [apply handle_balance_keeps, C|].
  destruct (PyStr.eqb cmd Words.undo); [apply handle_undo_keeps, C|].
  destruct (_ || _); exact C.
Qed.

Lemma button_callback_keeps g u a now data s :
  consistent g s -> consistent g (snd (button_callback g u a now data s)).
Proof.
  intros C. unfold button_callback.
  destruct (PyStr.split_on _ _ _) as [|action fields]; [exact C|].
  destruct (PyStr.eqb action Words.details).
  - destruct (map_int fields) as [[|x [|y [|z [|w l]]]]|]; try exact C.
    destruct (_ =? _); [|exact C]. unfold show_details.
    destruct (_ || _); exact C.
  - destruct (PyStr.eqb action Words.importbalance); [|exact C].
    destruct (map_int fields) as [[|x [|y [|z l]]]|]; try exact C.
    destruct (_ =? _); [apply import_balance_keeps, C | exact C].
Qed.

Lemma step_keeps g s e : consistent g s -> consistent g (step g s e).
Proof.
  intros C. destruct e; simpl.
  - apply handle_command_keeps, C.
  - apply button_callback_keeps, C.
Qed.

Lemma run_keeps g es s : consistent g s -> consistent g (run g es s).
Proof.
  revert s. induction es as [|e es IH]; intros s C; simpl; [exact C|].
  apply IH, step_keeps, C.
Qed.

Lemma reachable_consistent g s : reachable g s -> consistent g s.
Proof. intros [es ->]. apply run_keeps, consistent_initial. Qed.

(** ** Dispatch of the command words *)

Lemma command_open g u a now faults s :
  handle_command g u a now faults Words.open_cycle s = handle_open g a now s.
Proof. reflexivity. Qed.

Lemma command_close g u a now faults s :
  handle_command g u a now faults Words.close_cycle s = handle_close g a now faults s.
Proof. reflexivity. Qed.

Lemma command_undo g u a now faults s :
  handle_command g u a now faults Words.undo s = handle_undo g a s.
Proof. reflexivity. Qed.

(** ** One active cycle per group (C2) *)

(** C2: after any run, at most one cycle of the group is active; and the
    opening command, sent while a cycle of the group is active, is refused
    (as already active for an authorized actor, as unauthorized otherwise)
    and leaves the file as it was, so no cycle is inserted. *)
Theorem at_most_one_active_cycle (g : Z) (es : list event) :
  (length (active_cycles g (disk (run g es initial_state))) <= 1)%nat
  /\ forall u a now faults,
       active_cycles g (disk (run g es initial_state)) <> [] ->
       fst (handle_command g u a now faults Words.open_cycle (run g es initial_state))
       = (if a then ReplyAlreadyActive else ReplyUnauthorized)
       /\ disk (snd (handle_command g u a now faults Words.open_cycle
                      (run g es initial_state)))
          = disk (run g es initial_state).
Proof.
  pose proof (run_keeps g es initial_state (consistent_initial g)) as C.
  split; [apply (one_active g _ C)|].
  intros u a now faults A. rewrite command_open.
  destruct a; [|split; reflexivity].
  rewrite (handle_open_consistent_eq g now _ C).
  destruct (select_active_cycle g (disk (run g es initial_state))) as [c|] eqn:S.
  - split; reflexivity.
  - apply select_active_cycle_none in S. contradiction.
Qed.

Lemma at_most_one_active_cycle_witness :
  let s := run Sample.group [Sample.said Words.open_cycle] initial_state in
  active_cycles Sample.group (disk s) <> []
  /\ fst (handle_command Sample.group Sample.operator true Sample.clock no_fault
            Words.open_cycle s) = ReplyAlreadyActive
  /\ disk (snd (handle_command Sample.group Sample.operator true Sample.clock no_fault
                  Words.open_cycle s)) = disk s.
Proof.
  intros s.
  assert (A : active_cycles Sample.group (disk s) <> []) by (vm_compute; discriminate).
  split; [exact A|].
  exact (proj2 (at_most_one_active_cycle Sample.group [Sample.said Words.open_cycle])
           Sample.operator true Sample.clock no_fault A).
Defined.

(** ** Closing a cycle (C3, C4) *)

Lemma filter_complement_nil {A} (p : A -> bool) (l : list A) :
  filter p (filter (fun x => negb (p x)) l) = [].
Proof.
  induction l as [|x l IH]; simpl; [reflexivity|].
  destruct (p x) eqn:E; simpl; [exact IH | rewrite E; exact IH].
Qed.

Lemma active_cycles_end_cycle_eq g cid t d :
  active_cycles g (end_cycle t cid d)
  = filter (fun r => negb (cycle_id r =? cid)) (active_cycles g d).
Proof.
  unfold active_cycles, end_cycle; simpl.
  induction (cycles d) as [|c l IH]; simpl; [reflexivity|].
  destruct (cycle_id c =? cid) eqn:E; simpl.
  - rewrite andb_false_r. destruct (_ && _); simpl; rewrite ?E; exact IH.
  - destruct (_ && _); simpl; rewrite ?E; simpl; rewrite IH; reflexivity.
Qed.

Lemma select_active_cycle_head g d :
  select_active_cycle g d = option_map cycle_id (hd_error (active_cycles g d)).
Proof.
  unfold select_active_cycle, active_cycles.
  induction (cycles d) as [|c l IH]; simpl; [reflexivity|].
  destruct (_ && _); simpl; [reflexivity | exact IH].
Qed.

Lemma closed_db_no_active_cycle g now c net s :
  consistent g s -> select_active_cycle g (disk s) = Some c ->
  select_active_cycle g (closed_db now g c net (disk s)) = None.
Proof.
  intros C S. apply select_active_cycle_none.
  destruct (closed_db_cycles now g c net (disk s)) as (Ec & _ & _).
  unfold active_cycles. rewrite Ec.
  change (active_cycles g (end_cycle (now 0%nat) c (disk s)) = []).
  rewrite active_cycles_end_cycle_eq.
  pose proof (one_active g s C) as L. rewrite select_active_cycle_head in S.
  destruct (active_cycles g (disk s)) as [|row [|row' l]]; simpl in *;
    [reflexivity | | lia].
  injection S as ->. rewrite Z.eqb_refl. reflexivity.
Qed.

Lemma closed_db_balance_rows g now c net d :
  balance_rows g (closed_db now g c net d)
  = if net =? 0 then []
    else [mk_previous_balance
            (next_rowid (previous_balances_seq d)
               (map pb_id (filter (fun r => negb (pb_group_id r =? g))
                             (previous_balances d))))
            g net (now 1%nat)].
Proof.
  unfold balance_rows, closed_db. destruct (net =? 0); simpl.
  - apply (filter_complement_nil (fun r => pb_group_id r =? g)).
  - rewrite filter_app, (filter_complement_nil (fun r => pb_group_id r =? g)).
    simpl. rewrite Z.eqb_refl. reflexivity.
Qed.

Lemma get_previous_balance_rows g d :
  get_previous_balance g d
  = match newest_balance (balance_rows g d) with Some r => pb_amount r | None => 0 end.
Proof. reflexivity. Qed.

Lemma balance_rows_opened g t d :
  balance_rows g (insert_cycle g t true (deactivate_cycles g d)) = balance_rows g d.
Proof. reflexivity. Qed.

(** C3: when the closing command succeeds, the rows of the group in the
    carried-balance table are replaced: none is left for a net balance of
    zero (the balance then reads 0), and exactly one, new, with the net
    balance as its amount, otherwise.  The opening command that follows
    offers that amount for import and leaves the rows as they are. *)
Theorem close_replaces_carried_balance
    (g : Z) (s s' : state) (u : Z) (a : bool) (now : nat -> timestamp)
    (faults : close_stmt -> bool) (sm : summary) :
  reachable g s ->
  handle_command g u a now faults Words.close_cycle s = (ReplyClosed sm, s') ->
  (exists c, select_active_cycle g (disk s) = Some c
             /\ sm = get_cycle_summary (disk s) c)
  /\ map pb_amount (balance_rows g (disk s'))
     = (if net_balance sm =? 0 then [] else [net_balance sm])
  /\ Forall (fun r => ~ In (pb_id r) (map pb_id (previous_balances (disk s))))
       (balance_rows g (disk s'))
  /\ get_previous_balance g (disk s') = net_balance sm
  /\ forall u' now' faults',
       fst (handle_command g u' true now' faults' Words.open_cycle s')
       = ReplyOpened (if net_balance sm =? 0 then None else Some (net_balance sm))
       /\ map pb_amount
            (balance_rows g
               (disk (snd (handle_command g u' true now' faults' Words.open_cycle s'))))
          = (if net_balance sm =? 0 then [] else [net_balance sm]).
Proof.
  intros R H. apply reachable_consistent in R. rewrite command_close in H.
  destruct a; [|discriminate].
  rewrite (handle_close_consistent_eq g now faults s R) in H.
  destruct (select_active_cycle g (disk s)) as [c|] eqn:S; [|discriminate].
  cbv zeta in H.
  destruct (close_transaction faults now g c _ (connect (disk s)))
    as [[[]|] c'] eqn:T; [|discriminate].
  injection H as <- <-. apply close_transaction_done in T. destruct T as [D _].
  set (net := net_balance (get_cycle_summary (disk s) c)) in *.
  assert (B := closed_db_balance_rows g now c net (disk s)).
  assert (P : get_previous_balance g (closed_db now g c net (disk s)) = net).
  { rewrite get_previous_balance_rows, B.
    destruct (Z.eqb_spec net 0) as [->|]; reflexivity. }
  simpl disk. rewrite D. split; [eauto|].
  split; [rewrite B; destruct (net =? 0); reflexivity|].
  split.
  { rewrite B. destruct (net =? 0); constructor; [|constructor].
    simpl. intros Hin. apply in_map_iff in Hin. destruct Hin as (r & Er & Hr).
    pose proof (balance_ids_bounded g s R) as Hb. rewrite Forall_forall in Hb.
    specialize (Hb r Hr).
    pose proof (next_rowid_above_seq (previous_balances_seq (disk s))
      (map pb_id (filter (fun r => negb (pb_group_id r =? g))
                    (previous_balances (disk s))))). lia. }
  split; [exact P|].
  intros u' now' faults'. rewrite command_open.
  assert (C' : consistent g (mk_state (closed_db now g c net (disk s)) None)).
  { apply consistent_closed, R. }
  rewrite (handle_open_consistent_eq g now' _ C'). simpl disk.
  rewrite (closed_db_no_active_cycle g now c net s R S). cbv zeta.
  cbn [fst snd disk]. rewrite balance_rows_opened, B.
  change (get_previous_balance g
            (insert_cycle g (now' 0%nat) true
               (deactivate_cycles g (closed_db now g c net (disk s)))))
    with (get_previous_balance g (closed_db now g c net (disk s))).
  rewrite P. destruct (net =? 0); split; reflexivity.
Qed.

Lemma close_replaces_carried_balance_witness :
  let s := run Sample.group
             [Sample.said Words.open_cycle; Sample.said Sample.plus_900] initial_state in
  let r := handle_command Sample.group Sample.operator true Sample.clock no_fault
             Words.close_cycle s in
  reachable Sample.group s
  /\ r = (ReplyClosed (get_cycle_summary (disk s) 1), snd r)
  /\ map pb_amount (balance_rows Sample.group (disk (snd r))) = [900]
  /\ get_previous_balance Sample.group (disk (snd r)) = 900.
Proof.
  intros s r.
  assert (R : reachable Sample.group s) by (eexists; reflexivity).
  assert (H : r = (ReplyClosed (get_cycle_summary (disk s) 1), snd r)) by reflexivity.
  destruct (close_replaces_carried_balance Sample.group s (snd r) Sample.operator
              true Sample.clock no_fault (get_cycle_summary (disk s) 1) R H)
    as (_ & A & _ & P & _).
  repeat split; assumption.
Defined.

(** C4: when a statement of the closing transaction raises, the command
    answers that the operation failed and was rolled back, and the file is
    what it was before: the cycle is still active with no end time, and the
    carried-balance rows are the same. *)
Theorem close_failure_changes_nothing
    (g : Z) (s : state) (u : Z) (now : nat -> timestamp)
    (faults : close_stmt -> bool) (st : close_stmt) (c : Z) :
  reachable g s ->
  select_active_cycle g (disk s) = Some c ->
  faults st = true ->
  reached (net_balance (get_cycle_summary (disk s) c)) st = true ->
  fst (handle_command g u true now faults Words.close_cycle s) = ReplyRolledBack
  /\ disk (snd (handle_command g u true now faults Words.close_cycle s)) = disk s
  /\ previous_balances
       (disk (snd (handle_command g u true now faults Words.close_cycle s)))
     = previous_balances (disk s)
  /\ exists row,
       In row (cycles (disk (snd (handle_command g u true now faults
                                    Words.close_cycle s))))
       /\ cycle_id row = c /\ is_active row = true /\ end_time row = None.
Proof.
  intros R S F Re. apply reachable_consistent in R. rewrite command_close.
  rewrite (handle_close_consistent_eq g now faults s R), S. cbv zeta.
  destruct (close_transaction_raised faults now g c _ (disk s) st F Re)
    as (c' & -> & D).
  cbn [fst snd disk]. rewrite D. repeat split.
  destruct (select_active_cycle_in g c (disk s) S) as (row & Hin & Hid & _ & Ha).
  exists row. repeat split; try assumption.
  pose proof (active_not_ended g s R) as E. rewrite Forall_forall in E.
  apply (E row Hin Ha).
Qed.

Lemma close_failure_changes_nothing_witness :
  let s := run Sample.group
             [Sample.said Words.open_cycle; Sample.said Sample.plus_900] initial_state in
  let r := handle_command Sample.group Sample.operator true Sample.clock
             Sample.commit_fails Words.close_cycle s in
  reachable Sample.group s
  /\ select_active_cycle Sample.group (disk s) = Some 1
  /\ fst r = ReplyRolledBack /\ disk (snd r) = disk s.
Proof.
  intros s r.
  assert (R : reachable Sample.group s) by (eexists; reflexivity).
  assert (S : select_active_cycle Sample.group (disk s) = Some 1) by reflexivity.
  destruct (close_failure_changes_nothing Sample.group s Sample.operator Sample.clock
              Sample.commit_fails StmtCommit 1 R S eq_refl eq_refl)
    as (A & B & _).
  repeat split; assumption.
Defined.

(** ** Dispatch of the other commands *)

Lemma signed_digits_not_word cmd :
  PyStr.match_signed_digits cmd = true ->
  PyStr.eqb cmd Words.open_cycle = false /\ PyStr.eqb cmd Words.close_cycle = false.
Proof.
  destruct cmd as [|c [|d r]]; try discriminate. simpl.
  destruct (N.eqb_spec c 43) as [->|]; [split; reflexivity|].
  destruct (N.eqb_spec c 45) as [->|]; [split; reflexivity | discriminate].
Qed.

Lemma command_entry g u a now faults text cmd args s :
  PyStr.split (PyStr.strip text) = cmd :: args ->
  PyStr.match_signed_digits cmd = true ->
  handle_command g u a now faults text s = handle_entry g u a now cmd args s.
Proof.
  intros H M. unfold handle_command. destruct text as [|ch text]; [discriminate|].
  rewrite H. destruct (signed_digits_not_word cmd M) as [-> ->]. rewrite M.
  reflexivity.
Qed.

Lemma command_balance g u a now faults text args s :
  PyStr.split (PyStr.strip text) = Words.balance :: args ->
  handle_command g u a now faults text s = handle_balance g u a now args s.
Proof.
  intros H. unfold handle_command. destruct text as [|ch text]; [discriminate|].
  rewrite H. reflexivity.
Qed.

Lemma callback_import g u a now data fields v s :
  PyStr.split_on 95 data [] = Words.importbalance :: fields ->
  map_int fields = Some [g; v] ->
  button_callback g u a now data s = import_balance g u a now v s.
Proof.
  intros H M. unfold button_callback. rewrite H.
  change (PyStr.eqb Words.importbalance Words.details) with false.
  change (PyStr.eqb Words.importbalance Words.importbalance) with true.
  cbv iota. rewrite M, Z.eqb_refl. reflexivity.
Qed.

(** ** Adding an entry (C5) *)

(** C5, as the code has it: the entry command is refused for want of an
    active cycle when the group has none, and for a bad amount when its first
    word is not an integer literal.  An amount the store cannot take, because
    it or the total it goes into leaves the 64 bits, ends the handler by an
    exception that no one catches.  None of these cases touches the file.
    Any other integer is taken, zero included: the command then appends
    exactly one entry, with that amount and the note of the command, to the
    active cycle and answers with the summary computed over the cycle with
    the new entry; the entry is a carry-over record when its note starts with
    the tag, and an ordinary one otherwise.  From an unauthorized actor the
    command does nothing. *)
Theorem add_entry_outcomes
    (g : Z) (s : state) (u : Z) (now : nat -> timestamp)
    (faults : close_stmt -> bool) (text cmd : pystr) (args : list pystr) :
  reachable g s ->
  PyStr.split (PyStr.strip text) = cmd :: args ->
  PyStr.match_signed_digits cmd = true ->
  (active_cycles g (disk s) = [] ->
     fst (handle_command g u true now faults text s) = ReplyNoActiveCycle
     /\ disk (snd (handle_command g u true now faults text s)) = disk s)
  /\ (forall c, select_active_cycle g (disk s) = Some c -> PyStr.int cmd = None ->
        fst (handle_command g u true now faults text s) = ReplyBadAmount
        /\ disk (snd (handle_command g u true now faults text s)) = disk s)
  /\ (forall c v, select_active_cycle g (disk s) = Some c -> PyStr.int cmd = Some v ->
        entry_fits (disk s) c v (entry_note args) = false ->
        fst (handle_command g u true now faults text s) = Uncaught
        /\ disk (snd (handle_command g u true now faults text s)) = disk s)
  /\ (forall c v, select_active_cycle g (disk s) = Some c -> PyStr.int cmd = Some v ->
        entry_fits (disk s) c v (entry_note args) = true ->
        exists id,
          bills (disk (snd (handle_command g u true now faults text s)))
          = bills (disk s) ++ [mk_bill id c g u v (entry_note args) (now 0%nat)]
          /\ ~ In id (map bill_id (bills (disk s)))
          /\ fst (handle_command g u true now faults text s)
             = ReplySummary
                 (get_cycle_summary
                    (disk (snd (handle_command g u true now faults text s))) c)
          /\ cycles (disk (snd (handle_command g u true now faults text s)))
             = cycles (disk s)
          /\ previous_balances (disk (snd (handle_command g u true now faults text s)))
             = previous_balances (disk s)
          /\ carry_over_entries
               (disk (snd (handle_command g u true now faults text s))) c
             = carry_over_entries (disk s) c
               ++ (if PyStr.startswith (entry_note args) Words.balance_tag
                   then [v] else []))
  /\ handle_command g u false now faults text s = (NoReply, s).
Proof.
  intros R H M. apply reachable_consistent in R.
  rewrite !(command_entry g u _ now faults text cmd args s H M).
  rewrite (handle_entry_consistent_eq g u now cmd args s R).
  split; [|split; [|split; [|split]]].
  - intros A. apply select_active_cycle_none in A. rewrite A. split; reflexivity.
  - intros c S I. rewrite S, I. split; reflexivity.
  - intros c v S I F. rewrite S, I. cbv zeta. rewrite F. split; reflexivity.
  - intros c v S I F. rewrite S, I. cbv zeta. rewrite F. cbn [fst snd disk].
    eexists. split; [reflexivity|]. split; [|repeat split].
    + intros Hin. apply (next_rowid_above_ids (bills_seq (disk s))) in Hin. lia.
    + unfold carry_over_entries, insert_bill. cbn [bills].
      rewrite filter_app, map_app. f_equal. cbn [filter].
      unfold in_cycle, is_balance, like_balance.
      cbn [bill_cycle_id description]. rewrite Z.eqb_refl. cbn [andb].
      destruct (PyStr.startswith _ _); reflexivity.
  - reflexivity.
Qed.

Lemma add_entry_outcomes_witness :
  let s := run Sample.group [Sample.said Words.open_cycle] initial_state in
  let r := handle_command Sample.group Sample.operator true Sample.clock no_fault
             Sample.plus_900 s in
  reachable Sample.group s
  /\ select_active_cycle Sample.group (disk s) = Some 1
  /\ PyStr.int [43; 57; 48; 48]%N = Some 900
  /\ entry_fits (disk s) 1 900 (entry_note []) = true
  /\ exists id,
       bills (disk (snd r))
       = bills (disk s)
         ++ [mk_bill id 1 Sample.group Sample.operator 900 (entry_note [])
               (Sample.clock 0%nat)].
Proof.
  intros s r.
  assert (R : reachable Sample.group s) by (eexists; reflexivity).
  assert (S : select_active_cycle Sample.group (disk s) = Some 1) by reflexivity.
  assert (I : PyStr.int [43; 57; 48; 48]%N = Some 900) by reflexivity.
  assert (F : entry_fits (disk s) 1 900 (entry_note []) = true) by reflexivity.
  destruct (add_entry_outcomes Sample.group s Sample.operator Sample.clock no_fault
              Sample.plus_900 [43; 57; 48; 48]%N [] R eq_refl eq_refl)
    as (_ & _ & _ & A & _).
  destruct (A 1 900 S I F) as (id & E & _).
  repeat split; try assumption. exists id. exact E.
Defined.

(** C5 as stated fails on the amount 0: in an open cycle, [+0] is not refused
    as a bad amount; it appends an entry of amount 0. *)
Lemma zero_amount_is_accepted :
  let s := run Sample.group [Sample.said Words.open_cycle] initial_state in
  let r := handle_command Sample.group Sample.operator true Sample.clock no_fault
             Sample.plus_0 s in
  bills (disk s) = []
  /\ fst r <> ReplyBadAmount
  /\ map amount (bills (disk (snd r))) = [0].
Proof. vm_compute. repeat split. discriminate. Qed.

(** ** One balance record per cycle (C6) *)

Lemma import_refused_when_recorded g s c :
  reachable g s ->
  select_active_cycle g (disk s) = Some c ->
  balance_recorded c (disk s) = true ->
  (forall u now faults text a0 rest v,
      PyStr.split (PyStr.strip text) = Words.balance :: a0 :: rest ->
      PyStr.int a0 = Some v ->
      fst (handle_command g u true now faults text s) = ReplyAlreadyRecorded
      /\ disk (snd (handle_command g u true now faults text s)) = disk s)
  /\ (forall u now data fields v,
        PyStr.split_on 95 data [] = Words.importbalance :: fields ->
        map_int fields = Some [g; v] ->
        fst (button_callback g u true now data s) = CbAlreadyImported
        /\ disk (snd (button_callback g u true now data s)) = disk s).
Proof.
  intros R S B. apply reachable_consistent in R. split.
  - intros u now faults text a0 rest v H I.
    rewrite (command_balance g u true now faults text (a0 :: rest) s H).
    rewrite (handle_balance_consistent_eq g u now (a0 :: rest) s R), S, I, B.
    split; reflexivity.
  - intros u now data fields v H M.
    rewrite (callback_import g u true now data fields v s H M).
    rewrite (import_balance_consistent_eq g u now v s R), S, B.
    split; reflexivity.
Qed.

(** C6 on the code: the second import is refused, but the entry command does
    not look for a recorded balance.  After open, [+5 [结余]a], [+7 [结余]b]
    the cycle holds two entries with the carry-over tag, and both count in
    the previous balance of the summary. *)
Theorem two_tagged_entries_in_one_cycle :
  let s := run Sample.group
             [Sample.said Words.open_cycle; Sample.said Sample.plus_5_tagged;
              Sample.said Sample.plus_7_tagged] initial_state in
  select_active_cycle Sample.group (disk s) = Some 1
  /\ carry_over_entries (disk s) 1 = [5; 7]
  /\ previous_balance (get_cycle_summary (disk s) 1) = 12
  /\ fst (handle_command Sample.group Sample.operator true Sample.clock no_fault
            Sample.balance_200 s) = ReplyAlreadyRecorded.
Proof. vm_compute. repeat split. Qed.

(** ** Undoing the last entry (C7) *)

Lemma get_cycle_summary_bills d d' c :
  bills d' = bills d -> get_cycle_summary d' c = get_cycle_summary d c.
Proof. unfold get_cycle_summary. intros ->. reflexivity. Qed.

Lemma select_last_bill_inserted c g u v note t d :
  select_last_bill c (insert_bill c g u v note t d)
  = Some (mk_bill (next_rowid (bills_seq d) (map bill_id (bills d))) c g u v note t).
Proof.
  unfold select_last_bill, insert_bill; simpl. rewrite filter_app. simpl.
  unfold in_cycle at 2. simpl. rewrite Z.eqb_refl.
  rewrite order_newest_last; [reflexivity|].
  apply Forall_forall. intros x Hx. apply filter_In in Hx. destruct Hx as [Hx _].
  pose proof (bills_below_next d) as F. rewrite Forall_forall in F.
  simpl. apply (F x Hx).
Qed.

Lemma delete_inserted_bill c g u v note t d :
  bills (delete_bill (next_rowid (bills_seq d) (map bill_id (bills d)))
           (insert_bill c g u v note t d))
  = bills d.
Proof.
  unfold delete_bill, insert_bill; simpl. rewrite filter_app. simpl.
  rewrite Z.eqb_refl. simpl. rewrite app_nil_r. apply filter_all.
  eapply Forall_impl; [|apply bills_below_next]. simpl. intros x Hx.
  destruct (Z.eqb_spec (bill_id x) (next_rowid (bills_seq d) (map bill_id (bills d))));
    [lia | reflexivity].
Qed.

(** The undo command that follows an insertion into the active cycle takes
    the inserted entry away again. *)
Lemma undo_after_insert g s c u v note t :
  consistent g s -> select_active_cycle g (disk s) = Some c ->
  entry_fits (disk s) c v note = true ->
  let s1 := mk_state (insert_bill c g u v note t (disk s)) (Some c) in
  fst (handle_undo g true s1) = ReplyUndone v note (get_cycle_summary (disk s) c)
  /\ bills (disk (snd (handle_undo g true s1))) = bills (disk s).
Proof.
  intros C S F s1.
  assert (C1 : consistent g s1) by (apply fitting_entry_inserted; assumption).
  rewrite (handle_undo_consistent_eq g s1 C1).
  replace (select_active_cycle g (disk s1)) with (Some c)
    by (rewrite <- S; symmetry; apply select_active_cycle_cycles; reflexivity).
  unfold s1. cbn [disk]. rewrite select_last_bill_inserted. cbv zeta.
  cbn [fst snd disk bill_id amount description].
  pose proof (delete_inserted_bill c g u v note t (disk s)) as D.
  rewrite (get_cycle_summary_bills _ _ c D). split; [reflexivity | exact D].
Qed.

Lemma remove_by_id_perm b l :
  NoDup (map bill_id l) -> In b l ->
  Permutation l (b :: filter (fun x => negb (bill_id x =? bill_id b)) l).
Proof.
  induction l as [|x l IH]; simpl; [intros _ []|].
  intros N Hin. inversion N as [|? ? Hn Hl]; subst.
  destruct (Z.eqb_spec (bill_id x) (bill_id b)) as [E|E]; simpl.
  - destruct Hin as [->|Hin].
    + rewrite filter_all; [reflexivity|].
      apply Forall_forall. intros y Hy.
      destruct (Z.eqb_spec (bill_id y) (bill_id b)) as [E'|]; [|reflexivity].
      exfalso. apply Hn. rewrite <- E'. apply in_map, Hy.
    + exfalso. apply Hn. rewrite E. apply in_map, Hin.
  - destruct Hin as [->|Hin]; [contradiction|].
    rewrite (IH Hl Hin) at 1. apply perm_swap.
Qed.

(** C7: in an active cycle, the undo command that follows an accepted entry,
    balance record or import (one that was answered by the summary, the
    record or the import text) answers with the amount and note just stored
    and with the summary the cycle had before the insertion, and leaves the
    table of entries as it was before.  In general the command removes
    exactly one entry, the one of the cycle with the largest identifier,
    whatever its kind, and answers with the summary computed without it; when
    the cycle has no entry it answers that there is nothing to undo and
    changes nothing. *)
Theorem undo_reverts_last_insert (g : Z) (s : state) (c : Z) :
  reachable g s ->
  select_active_cycle g (disk s) = Some c ->
  (forall u now faults text cmd args v sm u' now' faults',
      PyStr.split (PyStr.strip text) = cmd :: args ->
      PyStr.match_signed_digits cmd = true ->
      PyStr.int cmd = Some v ->
      fst (handle_command g u true now faults text s) = ReplySummary sm ->
      let s1 := snd (handle_command g u true now faults text s) in
      fst (handle_command g u' true now' faults' Words.undo s1)
      = ReplyUndone v (entry_note args) (get_cycle_summary (disk s) c)
      /\ bills (disk (snd (handle_command g u' true now' faults' Words.undo s1)))
         = bills (disk s))
  /\ (forall u now faults text a0 rest v sm u' now' faults',
        PyStr.split (PyStr.strip text) = Words.balance :: a0 :: rest ->
        PyStr.int a0 = Some v ->
        fst (handle_command g u true now faults text s) = ReplyBalanceRecorded sm ->
        let s1 := snd (handle_command g u true now faults text s) in
        fst (handle_command g u' true now' faults' Words.undo s1)
        = ReplyUndone v (balance_note rest) (get_cycle_summary (disk s) c)
        /\ bills (disk (snd (handle_command g u' true now' faults' Words.undo s1)))
           = bills (disk s))
  /\ (forall u now data fields v w sm u' now' faults',
        PyStr.split_on 95 data [] = Words.importbalance :: fields ->
        map_int fields = Some [g; v] ->
        fst (button_callback g u true now data s) = CbImported w sm ->
        let s1 := snd (button_callback g u true now data s) in
        w = v
        /\ fst (handle_command g u' true now' faults' Words.undo s1)
           = ReplyUndone v Words.auto_import_note (get_cycle_summary (disk s) c)
        /\ bills (disk (snd (handle_command g u' true now' faults' Words.undo s1)))
           = bills (disk s))
  /\ (forall u now faults,
        match select_last_bill c (disk s) with
        | None =>
            filter (in_cycle c) (bills (disk s)) = []
            /\ fst (handle_command g u true now faults Words.undo s) = ReplyNothingToUndo
            /\ disk (snd (handle_command g u true now faults Words.undo s)) = disk s
        | Some b =>
            In b (bills (disk s)) /\ bill_cycle_id b = c
            /\ (forall x, In x (bills (disk s)) -> bill_cycle_id x = c ->
                          bill_id x <= bill_id b)
            /\ Permutation (bills (disk s))
                 (b :: bills (disk (snd (handle_command g u true now faults
                                           Words.undo s))))
            /\ fst (handle_command g u true now faults Words.undo s)
               = ReplyUndone (amount b) (description b)
                   (get_cycle_summary
                      (disk (snd (handle_command g u true now faults Words.undo s))) c)
        end).
Proof.
  intros R S. apply reachable_consistent in R. split; [|split; [|split]].
  - intros u now faults text cmd args v sm u' now' faults' H M I A s1.
    rewrite command_undo. subst s1. revert A.
    rewrite (command_entry g u true now faults text cmd args s H M).
    rewrite (handle_entry_consistent_eq g u now cmd args s R), S, I.
    cbv zeta. destruct (entry_fits _ _ _ _) eqn:F; [|discriminate].
    intros _. cbn [snd]. apply (undo_after_insert g s c u v _ _ R S F).
  - intros u now faults text a0 rest v sm u' now' faults' H I A s1.
    rewrite command_undo. subst s1. revert A.
    rewrite (command_balance g u true now faults text (a0 :: rest) s H).
    rewrite (handle_balance_consistent_eq g u now (a0 :: rest) s R), S, I.
    destruct (balance_recorded c (disk s)); [discriminate|].
    cbv zeta. destruct (entry_fits _ _ _ _) eqn:F; [|discriminate].
    intros _. cbn [snd]. apply (undo_after_insert g s c u v _ _ R S F).
  - intros u now data fields v w sm u' now' faults' H M A s1.
    rewrite command_undo. subst s1. revert A.
    rewrite (callback_import g u true now data fields v s H M).
    rewrite (import_balance_consistent_eq g u now v s R), S.
    destruct (balance_recorded c (disk s)); [discriminate|].
    cbv zeta. destruct (entry_fits _ _ _ _) eqn:F; [|discriminate].
    intros [= <- _]. split; [reflexivity|].
    cbn [snd]. apply (undo_after_insert g s c u v _ _ R S F).
  - intros u now faults. rewrite !command_undo.
    rewrite (handle_undo_consistent_eq g s R), S.
    destruct (select_last_bill c (disk s)) as [b|] eqn:L.
    + destruct (select_last_bill_newest c (disk s) b L) as (Hin & Hc & Hmax).
      cbv zeta. cbn [fst snd disk]. repeat split; try assumption.
      apply remove_by_id_perm; [apply (bill_ids_distinct g s R) | exact Hin].
    + unfold select_last_bill in L.
      destruct (order_by_bill_id_desc _) as [|b' rest] eqn:O; [|discriminate].
      apply order_nil in O. repeat split. exact O.
Qed.

Lemma undo_reverts_last_insert_witness :
  let s := run Sample.group [Sample.said Words.open_cycle] initial_state in
  let s1 := snd (handle_command Sample.group Sample.operator true Sample.clock no_fault
                   Sample.plus_900 s) in
  reachable Sample.group s
  /\ select_active_cycle Sample.group (disk s) = Some 1
  /\ fst (handle_command Sample.group Sample.operator true Sample.clock no_fault
            Words.undo s1)
     = ReplyUndone 900 (entry_note []) (get_cycle_summary (disk s) 1)
  /\ bills (disk (snd (handle_command Sample.group Sample.operator true Sample.clock
                         no_fault Words.undo s1)))
     = bills (disk s).
Proof.
  intros s s1.
  assert (R : reachable Sample.group s) by (eexists; reflexivity).
  assert (S : select_active_cycle Sample.group (disk s) = Some 1) by reflexivity.
  destruct (undo_reverts_last_insert Sample.group s 1 R S) as (A & _).
  destruct (A Sample.operator Sample.clock no_fault Sample.plus_900
              [43; 57; 48; 48]%N [] 900
              (get_cycle_summary
                 (insert_bill 1 Sample.group Sample.operator 900 (entry_note [])
                    (Sample.clock 0%nat) (disk s)) 1)
              Sample.operator Sample.clock no_fault
              eq_refl eq_refl eq_refl eq_refl) as (A1 & A2).
  repeat split; assumption.
Defined.

(** An amount outside the 64 bits is not stored.  After the opening command
    and [+900], the entry [+9223372036854775808] ends by the exception of
    the store and leaves the file as it was; the undo command that follows
    takes the entry of 900 away. *)
Example overflowing_entry_is_not_stored :
  let big := [43; 57; 50; 50; 51; 51; 55; 50; 48; 51; 54; 56; 53; 52; 55; 55; 53; 56; 48; 56]%N in
  let s := run Sample.group [Sample.said Words.open_cycle; Sample.said Sample.plus_900]
             initial_state in
  let r := handle_command Sample.group Sample.operator true Sample.clock no_fault big s in
  PyStr.int big = Some (2 ^ 63)
  /\ fst r = Uncaught
  /\ map amount (bills (disk (snd r))) = [900]
  /\ exists sm,
       fst (handle_command Sample.group Sample.operator true Sample.clock no_fault
              Words.undo (snd r)) = ReplyUndone 900 (entry_note []) sm
       /\ bills (disk (snd (handle_command Sample.group Sample.operator true
                              Sample.clock no_fault Words.undo (snd r)))) = [].
Proof.
  vm_compute. split; [reflexivity|]. split; [reflexivity|]. split; [reflexivity|].
  eexists. split; reflexivity.
Qed.

(** ** The pages of the details view (C8) *)

Lemma ceil_div_10 (n : Z) : ceil_div n 10 = (n + 9) / 10.
Proof.
  unfold ceil_div, Qceiling, Qfloor, Qdiv, Qmult, Qinv, Qopp, inject_Z; simpl.
  Z.to_euclidean_division_equations. lia.
Qed.

Lemma length_limit_offset {A} (limit offset : Z) (rows : list A) :
  0 <= limit -> 0 <= offset ->
  Z.of_nat (length (limit_offset limit offset rows))
  = Z.max 0 (Z.min limit (Z.of_nat (length rows) - offset)).
Proof.
  intros Hl Ho. unfold limit_offset. rewrite length_firstn, length_skipn. lia.
Qed.

Lemma limit_offset_beyond {A} (limit offset : Z) (rows : list A) :
  Z.of_nat (length rows) <= offset -> limit_offset limit offset rows = [].
Proof.
  intros H. unfold limit_offset. rewrite skipn_all2; [apply firstn_nil | lia].
Qed.

(** C8: the details view of a cycle with [n] entries counts
    max(1, ceil(n / 10)) pages, the least number of pages of 10 that hold
    them; page [p >= 1] shows the entries of rank 10(p-1) to 10p - 1 in the
    order of decreasing identifier, newest first; a page after the last one
    shows nothing, under the same page count.  With 25 entries there are 3
    pages, page 3 shows 5 entries and page 4 none. *)
Theorem details_pages (d : db) (cid page : Z) :
  let n := Z.of_nat (length (filter (in_cycle cid) (bills d))) in
  let v := details_page d cid page in
  let newest_first := order_by_bill_id_desc (filter (in_cycle cid) (bills d)) in
  dv_total_items v = n
  /\ dv_total_pages v = Z.max 1 ((n + 9) / 10)
  /\ (1 <= dv_total_pages v /\ n <= 10 * dv_total_pages v
      /\ (0 < n -> 10 * (dv_total_pages v - 1) < n))
  /\ Permutation newest_first (filter (in_cycle cid) (bills d))
  /\ StronglySorted descending newest_first
  /\ (1 <= page ->
        dv_bills v
        = map bill_line (firstn 10 (skipn (Z.to_nat (10 * (page - 1))) newest_first))
        /\ Z.of_nat (length (dv_bills v)) = Z.max 0 (Z.min 10 (n - 10 * (page - 1))))
  /\ (dv_total_pages v < page -> dv_bills v = [])
  /\ (n = 25 ->
        dv_total_pages v = 3
        /\ (page = 3 -> length (dv_bills v) = 5%nat)
        /\ (page = 4 -> dv_bills v = [])).
Proof.
  intros n v newest_first.
  assert (Hn : 0 <= n) by (unfold n; lia).
  assert (T : dv_total_pages v = Z.max 1 ((n + 9) / 10)).
  { unfold v, details_page. cbn [dv_total_pages]. fold n.
    destruct (Z.gtb_spec n 0).
    - rewrite ceil_div_10. Z.to_euclidean_division_equations; lia.
    - replace n with 0 by lia. reflexivity. }
  assert (L : Z.of_nat (length newest_first) = n).
  { unfold newest_first, n. rewrite (Permutation_length (order_perm _)). reflexivity. }
  assert (B : dv_bills v
              = map bill_line (limit_offset 10 ((page - 1) * 10) newest_first))
    by reflexivity.
  assert (Len : 1 <= page ->
                Z.of_nat (length (dv_bills v))
                = Z.max 0 (Z.min 10 (n - 10 * (page - 1)))).
  { intros Hp. rewrite B, length_map, length_limit_offset by lia. rewrite L. lia. }
  assert (Beyond : dv_total_pages v < page -> dv_bills v = []).
  { intros Hp. rewrite B, limit_offset_beyond; [reflexivity|]. rewrite L.
    rewrite T in Hp. Z.to_euclidean_division_equations; lia. }
  split; [reflexivity|]. split; [exact T|].
  split; [rewrite T; Z.to_euclidean_division_equations; lia|].
  split; [apply order_perm|]. split; [apply order_sorted|].
  split.
  { intros Hp. split; [|apply Len, Hp].
    rewrite B. unfold limit_offset. do 4 f_equal. lia. }
  split; [exact Beyond|].
  intros N. assert (T3 : dv_total_pages v = 3) by (rewrite T, N; reflexivity).
  split; [exact T3|]. split.
  - intros ->. assert (1 <= 3) as Hp by lia. specialize (Len Hp). lia.
  - intros ->. apply Beyond. lia.
Qed.

Lemma details_pages_witness :
  let v3 := details_page Sample.ledger_of_25 1 3 in
  let v4 := details_page Sample.ledger_of_25 1 4 in
  dv_total_items v3 = 25
  /\ dv_total_pages v3 = 3 /\ length (dv_bills v3) = 5%nat
  /\ map (fun r => fst (fst r)) (dv_bills v3) = [5; 4; 3; 2; 1]
  /\ dv_total_pages v4 = 3 /\ dv_bills v4 = [].
Proof.
  intros v3 v4.
  assert (N : Z.of_nat (length (filter (in_cycle 1) (bills Sample.ledger_of_25))) = 25)
    by reflexivity.
  destruct (details_pages Sample.ledger_of_25 1 3) as (_ & _ & _ & _ & _ & _ & _ & A).
  destruct (details_pages Sample.ledger_of_25 1 4) as (_ & _ & _ & _ & _ & _ & _ & B).
  destruct (A N) as (A1 & A2 & _). destruct (B N) as (B1 & _ & B2).
  split; [reflexivity|]. split; [exact A1|]. split; [apply A2; reflexivity|].
  split; [reflexivity|]. split; [exact B1 | apply B2; reflexivity].
Defined.

(** ** The retry wrapper (C9) *)

Lemma sleeps_app t1 t2 : Retry.sleeps (t1 ++ t2) = Retry.sleeps t1 ++ Retry.sleeps t2.
Proof. unfold Retry.sleeps. apply flat_map_app. Qed.

Lemma calls_app t1 t2 : Retry.calls (t1 ++ t2) = Retry.calls t1 ++ Retry.calls t2.
Proof. unfold Retry.calls. apply flat_map_app. Qed.

(** What one run of the loop does, from iteration [attempt_no] on: [k] calls
    in a row, a sleep between two calls, each twice as long as the one
    before. *)
Lemma retry_loop_trace {A} (api_call : nat -> Retry.attempt A) (max_retries : nat) :
  forall (remaining attempt_no : nat) (delay : Q),
    (attempt_no + remaining = max_retries)%nat ->
    exists k : nat,
      (k <= remaining)%nat /\ (remaining <> 0 -> k <> 0)%nat
      /\ Retry.calls (snd (Retry.retry_loop api_call max_retries remaining attempt_no delay))
         = seq attempt_no k
      /\ Retry.sleeps (snd (Retry.retry_loop api_call max_retries remaining attempt_no delay))
         = Retry.doubling delay (pred k)
      /\ (forall n, (attempt_no <= n)%nat -> (S n < attempt_no + k)%nat ->
                    api_call n = Retry.RaisesTimedOut)
      /\ (forall n e, (attempt_no <= n < attempt_no + k)%nat ->
                      api_call n = Retry.RaisesOther e ->
                      (S n = attempt_no + k)%nat
                      /\ fst (Retry.retry_loop api_call max_retries remaining attempt_no delay)
                         = Retry.Raise (Retry.Other e))
      /\ (fst (Retry.retry_loop api_call max_retries remaining attempt_no delay)
          = Retry.Raise Retry.TimedOut ->
          (attempt_no + k = max_retries)%nat
          /\ forall n, (attempt_no <= n < max_retries)%nat ->
                       api_call n = Retry.RaisesTimedOut).
Proof.
  induction remaining as [|rem IH]; intros attempt_no delay E.
  - exists 0%nat. simpl.
    split; [lia|]. split; [lia|]. split; [reflexivity|]. split; [reflexivity|].
    split; [intros n H1 H2; lia|]. split; [intros n e H1; lia | discriminate].
  - simpl. destruct (api_call attempt_no) as [a| |e] eqn:Ea.
    + exists 1%nat. simpl.
      split; [lia|]. split; [lia|]. split; [reflexivity|]. split; [reflexivity|].
      split; [intros n H1 H2; lia|]. split; [|discriminate].
      intros n e [H1 H2] He. assert (n = attempt_no) by lia. subst. congruence.
    + destruct (Nat.eqb_spec (attempt_no + 1) max_retries) as [Em|Em].
      * exists 1%nat. simpl.
        split; [lia|]. split; [lia|]. split; [reflexivity|]. split; [reflexivity|].
        split; [intros n H1 H2; lia|]. split.
        -- intros n e [H1 H2] He. assert (n = attempt_no) by lia. subst. congruence.
        -- intros _. split; [lia|].
           intros n Hn. assert (n = attempt_no) by lia. subst. exact Ea.
      * destruct (IH (S attempt_no) (delay * 2)%Q ltac:(lia))
          as (k & K1 & K2 & K3 & K4 & K5 & K6 & K7).
        destruct (Retry.retry_loop api_call max_retries rem (S attempt_no) (delay * 2)%Q)
          as [r t] eqn:Er.
        simpl in *. exists (S k). assert (k <> 0)%nat by (apply K2; lia).
        split; [lia|]. split; [lia|]. split; [rewrite K3; reflexivity|].
        split; [rewrite K4; destruct k; [lia | reflexivity]|].
        split; [|split].
        -- intros n H1 H2. destruct (Nat.eq_dec n attempt_no) as [->|];
             [exact Ea | apply K5; lia].
        -- intros n e H1 He. destruct (Nat.eq_dec n attempt_no) as [->|];
             [congruence|]. destruct (K6 n e ltac:(lia) He). split; [lia | assumption].
        -- intros Hr. destruct (K7 Hr) as [K8 K9]. split; [lia|].
           intros n Hn. destruct (Nat.eq_dec n attempt_no) as [->|];
             [exact Ea | apply K9; lia].
    + exists 1%nat. simpl.
      split; [lia|]. split; [lia|]. split; [reflexivity|]. split; [reflexivity|].
      split; [intros n H1 H2; lia|]. split; [|discriminate].
      intros n e' [H1 H2] He. assert (n = attempt_no) by lia. subst.
      split; [lia | congruence].
Qed.

Lemma calls_retried (n : nat) (d : Q) (k : nat) :
  Retry.calls (Retry.retried n d k) = seq n k
  /\ Retry.sleeps (Retry.retried n d k) = Retry.doubling d k.
Proof.
  revert n d. induction k as [|k IH]; intros n d; [split; reflexivity|].
  destruct (IH (S n) (d * 2)%Q) as [C1 C2].
  cbn [Retry.retried Retry.doubling seq]. split.
  - change (n :: Retry.calls (Retry.retried (S n) (d * 2)%Q k) = n :: seq (S n) k).
    rewrite C1. reflexivity.
  - change (d :: Retry.sleeps (Retry.retried (S n) (d * 2)%Q k)
            = d :: Retry.doubling (d * 2)%Q k).
    rewrite C2. reflexivity.
Qed.

(** The loop, once told which call is the first that does not time out, or
    that the last one times out too. *)
Lemma retry_loop_run {A} (api_call : nat -> Retry.attempt A) (max_retries : nat) :
  forall (k remaining attempt_no : nat) (delay : Q),
    (k < remaining)%nat -> (attempt_no + remaining = max_retries)%nat ->
    (forall n, (attempt_no <= n < attempt_no + k)%nat ->
               api_call n = Retry.RaisesTimedOut) ->
    match api_call (attempt_no + k)%nat with
    | Retry.Returns a =>
        Retry.retry_loop api_call max_retries remaining attempt_no delay
        = (Retry.Value (Some a),
           Retry.retried attempt_no delay k ++ [Retry.Call (attempt_no + k)])
    | Retry.RaisesOther e =>
        Retry.retry_loop api_call max_retries remaining attempt_no delay
        = (Retry.Raise (Retry.Other e),
           Retry.retried attempt_no delay k
           ++ [Retry.Call (attempt_no + k); Retry.LogError])
    | Retry.RaisesTimedOut =>
        S k = remaining ->
        Retry.retry_loop api_call max_retries remaining attempt_no delay
        = (Retry.Raise Retry.TimedOut,
           Retry.retried attempt_no delay k
           ++ [Retry.Call (attempt_no + k); Retry.LogWarning (attempt_no + k);
               Retry.LogError])
    end.
Proof.
  induction k as [|k IH]; intros remaining attempt_no delay Hk E T;
    (destruct remaining as [|rem]; [lia|]); cbn [Retry.retry_loop Retry.retried app].
  - rewrite Nat.add_0_r. destruct (api_call attempt_no) as [a| |e]; try reflexivity.
    intros L. destruct (Nat.eqb_spec (attempt_no + 1) max_retries); [reflexivity | lia].
  - rewrite (T attempt_no ltac:(lia)).
    destruct (Nat.eqb_spec (attempt_no + 1) max_retries) as [Em|Em]; [lia|].
    specialize (IH rem (S attempt_no) (delay * 2)%Q ltac:(lia) ltac:(lia)
                  ltac:(intros n Hn; apply T; lia)).
    replace (S attempt_no + k)%nat with (attempt_no + S k)%nat in IH by lia.
    destruct (api_call (attempt_no + S k)%nat) as [a| |e].
    + rewrite IH. reflexivity.
    + intros L. rewrite (IH ltac:(lia)). reflexivity.
    + rewrite IH. reflexivity.
Qed.

(** C9: the wrapper calls until a call does not time out, [max_retries]
    times at most, 3 by default.  After [k] time-outs, each followed by a
    sleep that starts at the initial delay, 1 by default, and doubles, the
    first call that returns ends the loop with its value, and the first call
    that raises anything else ends it at once with that exception; when call
    number [max_retries] times out as well, the time-out is logged and
    raised, without a sleep.  Exactly one of these happens when
    [max_retries] is not 0, and nothing is called when it is 0.
    [send_robust_reply] runs the wrapper with its defaults, logs what it
    raised and returns normally, so that nothing reaches its caller. *)
Theorem delivery_is_retried_then_dropped
    (A : Type) (api_call : nat -> Retry.attempt A)
    (max_retries : nat) (initial_delay : Q) :
  (forall k, (k < max_retries)%nat ->
     (forall n, (n < k)%nat -> api_call n = Retry.RaisesTimedOut) ->
     match api_call k with
     | Retry.Returns a =>
         Retry.robust_telegram_call api_call max_retries initial_delay
         = (Retry.Value (Some a),
            Retry.retried 0 initial_delay k ++ [Retry.Call k])
     | Retry.RaisesOther e =>
         Retry.robust_telegram_call api_call max_retries initial_delay
         = (Retry.Raise (Retry.Other e),
            Retry.retried 0 initial_delay k ++ [Retry.Call k; Retry.LogError])
     | Retry.RaisesTimedOut =>
         S k = max_retries ->
         Retry.robust_telegram_call api_call max_retries initial_delay
         = (Retry.Raise Retry.TimedOut,
            Retry.retried 0 initial_delay k
            ++ [Retry.Call k; Retry.LogWarning k; Retry.LogError])
     end)
  /\ (max_retries <> 0%nat ->
      exists k, (k < max_retries)%nat
                /\ (forall n, (n < k)%nat -> api_call n = Retry.RaisesTimedOut)
                /\ (api_call k = Retry.RaisesTimedOut -> S k = max_retries))
  /\ (max_retries = 0%nat ->
      Retry.robust_telegram_call api_call max_retries initial_delay
      = (Retry.Value None, []))
  /\ (forall k, (k < 3)%nat ->
        (forall n, (n < k)%nat -> api_call n = Retry.RaisesTimedOut) ->
        match api_call k with
        | Retry.Returns a =>
            Retry.send_robust_reply api_call
            = (Retry.Value tt, Retry.retried 0 1 k ++ [Retry.Call k])
        | Retry.RaisesOther e =>
            Retry.send_robust_reply api_call
            = (Retry.Value tt,
               Retry.retried 0 1 k ++ [Retry.Call k; Retry.LogError; Retry.LogError])
        | Retry.RaisesTimedOut =>
            k = 2%nat ->
            Retry.send_robust_reply api_call
            = (Retry.Value tt,
               Retry.retried 0 1 2
               ++ [Retry.Call 2; Retry.LogWarning 2; Retry.LogError; Retry.LogError])
        end)
  /\ (forall k, Retry.calls (Retry.retried 0 initial_delay k) = seq 0 k
                /\ Retry.sleeps (Retry.retried 0 initial_delay k)
                   = Retry.doubling initial_delay k)
  /\ fst (Retry.send_robust_reply api_call) = Retry.Value tt
  /\ (length (Retry.calls (snd (Retry.robust_telegram_call api_call max_retries
                                  initial_delay))) <= max_retries)%nat
  /\ (length (Retry.calls (snd (Retry.send_robust_reply api_call))) <= 3)%nat.
Proof.
  assert (Run : forall m d k, (k < m)%nat ->
            (forall n, (n < k)%nat -> api_call n = Retry.RaisesTimedOut) ->
            match api_call k with
            | Retry.Returns a =>
                Retry.robust_telegram_call api_call m d
                = (Retry.Value (Some a), Retry.retried 0 d k ++ [Retry.Call k])
            | Retry.RaisesOther e =>
                Retry.robust_telegram_call api_call m d
                = (Retry.Raise (Retry.Other e),
                   Retry.retried 0 d k ++ [Retry.Call k; Retry.LogError])
            | Retry.RaisesTimedOut =>
                S k = m ->
                Retry.robust_telegram_call api_call m d
                = (Retry.Raise Retry.TimedOut,
                   Retry.retried 0 d k
                   ++ [Retry.Call k; Retry.LogWarning k; Retry.LogError])
            end).
  { intros m d k Hk T. unfold Retry.robust_telegram_call.
    exact (retry_loop_run api_call m k m 0 d Hk eq_refl
             ltac:(intros n Hn; apply T; lia)). }
  split; [exact (Run max_retries initial_delay)|].
  split.
  { clear Run. induction max_retries as [|m IH]; [congruence|]. intros _.
    destruct m as [|m].
    - exists 0%nat. split; [lia|]. split; [intros n Hn; lia | reflexivity].
    - destruct (IH ltac:(discriminate)) as (k & Hk & T & L).
      destruct (api_call k) as [a| |e] eqn:Ek.
      + exists k. split; [lia|]. split; [exact T | intros E; congruence].
      + specialize (L eq_refl). exists (S m). split; [lia|]. split; [|reflexivity].
        intros n Hn. destruct (Nat.eq_dec n k) as [->|]; [exact Ek | apply T; lia].
      + exists k. split; [lia|]. split; [exact T | intros E; congruence]. }
  split; [intros ->; reflexivity|].
  split.
  { intros k Hk T. specialize (Run 3%nat 1%Q k Hk T). unfold Retry.send_robust_reply.
    destruct (api_call k) as [a| |e].
    - rewrite Run. reflexivity.
    - intros ->. rewrite (Run eq_refl). reflexivity.
    - rewrite Run, <- app_assoc. reflexivity. }
  split; [intros k; apply calls_retried|].
  assert (Bound : forall m d,
            (length (Retry.calls (snd (Retry.robust_telegram_call api_call m d)))
             <= m)%nat).
  { intros m d. unfold Retry.robust_telegram_call.
    destruct (retry_loop_trace api_call m m 0 d eq_refl) as (k & K1 & _ & K3 & _).
    rewrite K3, length_seq. exact K1. }
  split; [|split; [apply Bound|]].
  - unfold Retry.send_robust_reply.
    destruct (Retry.robust_telegram_call api_call 3 1%Q) as [[v|e] t]; reflexivity.
  - unfold Retry.send_robust_reply. specialize (Bound 3%nat 1%Q).
    destruct (Retry.robust_telegram_call api_call 3 1%Q) as [[v|e] t];
      cbn [snd] in *; [exact Bound|].
    rewrite calls_app. cbn. rewrite app_nil_r. exact Bound.
Qed.

Lemma delivery_is_retried_then_dropped_witness :
  let late := fun n : nat => if Nat.eqb n 2 then Retry.Returns 7 else Retry.RaisesTimedOut in
  let never := fun _ : nat => @Retry.RaisesTimedOut Z in
  Retry.robust_telegram_call late 3 1%Q
  = (Retry.Value (Some 7),
     [Retry.Call 0; Retry.LogWarning 0; Retry.Sleep 1;
      Retry.Call 1; Retry.LogWarning 1; Retry.Sleep (1 * 2); Retry.Call 2])
  /\ Retry.send_robust_reply never
     = (Retry.Value tt,
        [Retry.Call 0; Retry.LogWarning 0; Retry.Sleep 1;
         Retry.Call 1; Retry.LogWarning 1; Retry.Sleep (1 * 2);
         Retry.Call 2; Retry.LogWarning 2; Retry.LogError; Retry.LogError]).
Proof.
  intros late never. split.
  - destruct (delivery_is_retried_then_dropped Z late 3 1%Q) as (R & _).
    apply (R 2%nat); [lia|]. intros [|[|n]] Hn; [reflexivity | reflexivity | lia].
  - destruct (delivery_is_retried_then_dropped Z never 3 1%Q) as (_ & _ & _ & R & _).
    apply (R 2%nat); [lia | intros n Hn; reflexivity | reflexivity].
Defined.

(** ** The note prefix decides the kind of an entry (C10) *)

Lemma filter_without {A} (p : A -> bool) (l1 l2 : list A) (b : A) :
  p b = false -> filter p (l1 ++ b :: l2) = filter p (l1 ++ l2).
Proof. intros H. rewrite !filter_app. simpl. rewrite H. reflexivity. Qed.

Lemma filter_with {A} (p : A -> bool) (l1 l2 : list A) (b : A) :
  p b = true -> Permutation (filter p (l1 ++ b :: l2)) (b :: filter p (l1 ++ l2)).
Proof.
  intros H. rewrite !filter_app. simpl. rewrite H.
  symmetry. apply Permutation_middle.
Qed.

(** Two files that differ by one tagged entry of the cycle have summaries
    that differ in the previous balance, and so in the net balance, only. *)
Lemma summary_with_tagged_entry d d' c b l1 l2 :
  bills d' = l1 ++ b :: l2 -> bills d = l1 ++ l2 ->
  bill_cycle_id b = c -> is_balance b = true ->
  total_deposits (get_cycle_summary d' c) = total_deposits (get_cycle_summary d c)
  /\ deposit_count (get_cycle_summary d' c) = deposit_count (get_cycle_summary d c)
  /\ total_withdrawals (get_cycle_summary d' c)
     = total_withdrawals (get_cycle_summary d c)
  /\ withdrawal_count (get_cycle_summary d' c)
     = withdrawal_count (get_cycle_summary d c)
  /\ deposits (get_cycle_summary d' c) = deposits (get_cycle_summary d c)
  /\ withdrawals (get_cycle_summary d' c) = withdrawals (get_cycle_summary d c)
  /\ previous_balance (get_cycle_summary d' c)
     = previous_balance (get_cycle_summary d c) + amount b
  /\ net_balance (get_cycle_summary d' c)
     = net_balance (get_cycle_summary d c) + amount b
  /\ balance_recorded c d' = true.
Proof.
  intros E' E Hc Hb.
  assert (Hin : in_cycle c b = true) by (unfold in_cycle; lia).
  assert (Hd : (fun x => in_cycle c x && is_deposit x) b = false).
  { unfold is_deposit. unfold is_balance in Hb. rewrite Hb, andb_false_r.
    apply andb_false_r. }
  assert (Hw : (fun x => in_cycle c x && is_withdrawal x) b = false).
  { unfold is_withdrawal. unfold is_balance in Hb. rewrite Hb, andb_false_r.
    apply andb_false_r. }
  assert (Fd : filter is_deposit (filter (in_cycle c) (bills d'))
               = filter is_deposit (filter (in_cycle c) (bills d))).
  { rewrite !filter_filter, E', E. apply filter_without, Hd. }
  assert (Fw : filter is_withdrawal (filter (in_cycle c) (bills d'))
               = filter is_withdrawal (filter (in_cycle c) (bills d))).
  { rewrite !filter_filter, E', E. apply filter_without, Hw. }
  assert (Pb : previous_balance (get_cycle_summary d' c)
               = previous_balance (get_cycle_summary d c) + amount b).
  { rewrite !summary_previous_balance. unfold carry_over_entries. rewrite E', E.
    rewrite (sum_Z_perm _ _ (Permutation_map amount
      (filter_with (fun x => in_cycle c x && is_balance x) l1 l2 b
         ltac:(cbv beta; rewrite Hin, Hb; reflexivity)))).
    simpl. lia. }
  assert (Td : total_deposits (get_cycle_summary d' c)
               = total_deposits (get_cycle_summary d c)).
  { unfold get_cycle_summary; cbn [total_deposits].
    rewrite !sql_sum_case_when, Fd. reflexivity. }
  assert (Tw : total_withdrawals (get_cycle_summary d' c)
               = total_withdrawals (get_cycle_summary d c)).
  { unfold get_cycle_summary; cbn [total_withdrawals].
    rewrite !sql_sum_case_when, Fw. reflexivity. }
  split; [exact Td|]. split.
  { unfold get_cycle_summary; cbn [deposit_count coalesce].
    rewrite !sql_count_case_when, Fd. reflexivity. }
  split; [exact Tw|]. split.
  { unfold get_cycle_summary; cbn [withdrawal_count coalesce].
    rewrite !sql_count_case_when, Fw. reflexivity. }
  split; [unfold get_cycle_summary; cbn [deposits]; rewrite Fd; reflexivity|].
  split; [unfold get_cycle_summary; cbn [withdrawals]; rewrite Fw; reflexivity|].
  split; [exact Pb|]. split.
  { rewrite !summary_net_balance, Td, Tw, Pb. lia. }
  unfold balance_recorded. rewrite E'. apply existsb_exists.
  exists b. split; [apply in_elt | rewrite Hin, Hb; reflexivity].
Qed.

Lemma startswith_app s t p :
  PyStr.startswith s p = true -> PyStr.startswith (s ++ t) p = true.
Proof.
  revert s. induction p as [|x p IH]; intros [|c s] H; simpl in *;
    try reflexivity; try discriminate.
  apply andb_prop in H. destruct H as [-> H]. apply IH, H.
Qed.

Lemma startswith_firstn s p n :
  (length p <= n)%nat ->
  PyStr.startswith s p = true -> PyStr.startswith (firstn n s) p = true.
Proof.
  revert s n. induction p as [|x p IH]; intros [|c s] [|n] L H; simpl in *;
    try reflexivity; try discriminate; try lia.
  apply andb_prop in H. destruct H as [-> H]. apply IH; [lia | exact H].
Qed.

Lemma entry_note_keeps_tag a0 rest :
  PyStr.startswith a0 Words.balance_tag = true ->
  PyStr.startswith (entry_note (a0 :: rest)) Words.balance_tag = true.
Proof.
  intros H. unfold entry_note.
  assert (J : PyStr.startswith (PyStr.join Words.space (a0 :: rest)) Words.balance_tag
              = true).
  { destruct rest; [exact H|]. cbn [PyStr.join]. apply startswith_app, H. }
  apply (startswith_firstn _ _ 255) in J; [|simpl; lia].
  destruct (firstn 255 (PyStr.join Words.space (a0 :: rest))); [discriminate J|].
  exact J.
Qed.

Lemma reachable_step g s e : reachable g s -> reachable g (step g s e).
Proof.
  intros [es ->]. exists (es ++ [e]). unfold run. rewrite fold_left_app. reflexivity.
Qed.

Lemma summary_counts d cid :
  deposit_count (get_cycle_summary d cid) = Z.of_nat (length (ordinary_deposits d cid))
  /\ withdrawal_count (get_cycle_summary d cid)
     = Z.of_nat (length (ordinary_withdrawals d cid)).
Proof.
  unfold get_cycle_summary, ordinary_deposits, ordinary_withdrawals.
  cbn [deposit_count withdrawal_count coalesce].
  rewrite !sql_count_case_when, !filter_filter, !length_map. split.
  - do 2 f_equal. apply filter_ext_eq; intros b. unfold is_deposit, is_balance.
    rewrite Z.gtb_ltb. destruct (in_cycle cid b), (like_balance (description b)),
      (0 <? amount b); reflexivity.
  - do 2 f_equal. apply filter_ext_eq; intros b. unfold is_withdrawal, is_balance.
    destruct (in_cycle cid b), (like_balance (description b)),
      (amount b <? 0); reflexivity.
Qed.

(** Two files that differ by one entry of the cycle whose note does not start
    with the tag have summaries that differ in the deposits or in the
    withdrawals, by the sign of its amount, and not in the previous
    balance. *)
Lemma summary_with_ordinary_entry d d' c b l1 l2 :
  bills d' = l1 ++ b :: l2 -> bills d = l1 ++ l2 ->
  bill_cycle_id b = c -> is_balance b = false ->
  total_deposits (get_cycle_summary d' c)
  = total_deposits (get_cycle_summary d c) + (if 0 <? amount b then amount b else 0)
  /\ deposit_count (get_cycle_summary d' c)
     = deposit_count (get_cycle_summary d c) + (if 0 <? amount b then 1 else 0)
  /\ total_withdrawals (get_cycle_summary d' c)
     = total_withdrawals (get_cycle_summary d c)
       + (if amount b <? 0 then - amount b else 0)
  /\ withdrawal_count (get_cycle_summary d' c)
     = withdrawal_count (get_cycle_summary d c) + (if amount b <? 0 then 1 else 0)
  /\ previous_balance (get_cycle_summary d' c)
     = previous_balance (get_cycle_summary d c)
  /\ net_balance (get_cycle_summary d' c)
     = net_balance (get_cycle_summary d c) + amount b
  /\ balance_recorded c d' = balance_recorded c d.
Proof.
  intros E' E Hc Hb.
  assert (Hin : in_cycle c b = true) by (unfold in_cycle; lia).
  destruct (summary_counts d c) as [Cd Cw]. destruct (summary_counts d' c) as [Cd' Cw'].
  assert (D : sum_Z (ordinary_deposits d' c)
              = sum_Z (ordinary_deposits d c) + (if 0 <? amount b then amount b else 0)
              /\ Z.of_nat (length (ordinary_deposits d' c))
                 = Z.of_nat (length (ordinary_deposits d c))
                   + (if 0 <? amount b then 1 else 0)).
  { unfold ordinary_deposits. rewrite E', E. destruct (0 <? amount b) eqn:P.
    - pose proof (filter_with
        (fun x => in_cycle c x && negb (is_balance x) && (0 <? amount x)) l1 l2 b
        ltac:(cbv beta; rewrite Hin, Hb, P; reflexivity)) as Q.
      split.
      + rewrite (sum_Z_perm _ _ (Permutation_map amount Q)). simpl. lia.
      + rewrite !length_map, (Permutation_length Q). cbn [length]. lia.
    - rewrite (filter_without
        (fun x => in_cycle c x && negb (is_balance x) && (0 <? amount x)) l1 l2 b
        ltac:(cbv beta; rewrite Hin, Hb, P; reflexivity)).
      split; lia. }
  assert (W : sum_Z (ordinary_withdrawals d' c)
              = sum_Z (ordinary_withdrawals d c)
                + (if amount b <? 0 then - amount b else 0)
              /\ Z.of_nat (length (ordinary_withdrawals d' c))
                 = Z.of_nat (length (ordinary_withdrawals d c))
                   + (if amount b <? 0 then 1 else 0)).
  { unfold ordinary_withdrawals. rewrite E', E. destruct (Z.ltb_spec (amount b) 0) as [P|P].
    - pose proof (filter_with
        (fun x => in_cycle c x && negb (is_balance x) && (amount x <? 0)) l1 l2 b
        ltac:(cbv beta; rewrite Hin, Hb; cbn [negb andb]; apply Z.ltb_lt, P)) as Q.
      split.
      + rewrite (sum_Z_perm _ _ (Permutation_map (fun x => Z.abs (amount x)) Q)).
        simpl. lia.
      + rewrite !length_map, (Permutation_length Q). cbn [length]. lia.
    - rewrite (filter_without
        (fun x => in_cycle c x && negb (is_balance x) && (amount x <? 0)) l1 l2 b
        ltac:(cbv beta; rewrite Hin, Hb; cbn [negb andb]; apply Z.ltb_ge, P)).
      split; lia. }
  assert (B : sum_Z (carry_over_entries d' c) = sum_Z (carry_over_entries d c)).
  { unfold carry_over_entries. rewrite E', E.
    rewrite (filter_without (fun x => in_cycle c x && is_balance x) l1 l2 b
               ltac:(cbv beta; rewrite Hin, Hb; reflexivity)).
    reflexivity. }
  destruct D as [D1 D2]. destruct W as [W1 W2].
  rewrite !summary_net_balance, !summary_total_deposits, !summary_total_withdrawals,
    !summary_previous_balance, Cd, Cw, Cd', Cw', D1, D2, W1, W2, B.
  repeat split; try reflexivity.
  - destruct (Z.ltb_spec 0 (amount b)), (Z.ltb_spec (amount b) 0); lia.
  - unfold balance_recorded. rewrite E', E, !existsb_app. cbn [existsb].
    rewrite Hin, Hb. reflexivity.
Qed.

Lemma forall2_filter {A} (R : A -> A -> Prop) (p : A -> bool) (l l' : list A) :
  (forall x y, R x y -> p x = p y) ->
  Forall2 R l l' -> Forall2 R (filter p l) (filter p l').
Proof.
  intros Hp. induction 1 as [|x y l l' Hxy _ IH]; cbn [filter]; [constructor|].
  rewrite (Hp x y Hxy). destruct (p y); [constructor; assumption | exact IH].
Qed.

Lemma forall2_map {A B} (R : A -> A -> Prop) (f : A -> B) (l l' : list A) :
  (forall x y, R x y -> f x = f y) -> Forall2 R l l' -> map f l = map f l'.
Proof.
  intros Hf. induction 1 as [|x y l l' Hxy _ IH]; cbn [map]; [reflexivity|].
  rewrite (Hf x y Hxy), IH. reflexivity.
Qed.

Lemma forall2_order (l l' : list bill) :
  Forall2 same_but_note l l' ->
  Forall2 same_but_note (order_by_bill_id_desc l) (order_by_bill_id_desc l').
Proof.
  assert (Ins : forall a b m m', same_but_note a b -> Forall2 same_but_note m m' ->
                  Forall2 same_but_note (insert_desc a m) (insert_desc b m')).
  { intros a b m m' Hab. induction 1 as [|x y m m' Hxy Hm IH]; cbn [insert_desc].
    - constructor; [exact Hab | constructor].
    - rewrite (proj1 Hab), (proj1 Hxy).
      destruct (bill_id y <=? bill_id b).
      + constructor; [exact Hab|]. constructor; [exact Hxy | exact Hm].
      + constructor; [exact Hxy | apply IH]. }
  induction 1 as [|x y l l' Hxy _ IH]; cbn [order_by_bill_id_desc];
    [constructor | apply Ins; assumption].
Qed.

(** The summary reads of the note of an entry whether it starts with the tag,
    and nothing else; it reads neither the author nor the group. *)
Lemma summary_same_but_note (d d' : db) (cid : Z) :
  Forall2 same_but_note (bills d) (bills d') ->
  get_cycle_summary d cid = get_cycle_summary d' cid
  /\ balance_recorded cid d = balance_recorded cid d'.
Proof.
  intros F.
  assert (Kc : forall x y, same_but_note x y -> in_cycle cid x = in_cycle cid y).
  { intros x y (_ & E & _). unfold in_cycle. rewrite E. reflexivity. }
  assert (Kb : forall x y, same_but_note x y -> is_balance x = is_balance y).
  { intros x y (_ & _ & _ & _ & E). exact E. }
  assert (Kd : forall x y, same_but_note x y -> is_deposit x = is_deposit y).
  { intros x y H. pose proof (Kb x y H) as E. destruct H as (_ & _ & Ea & _).
    unfold is_deposit. unfold is_balance in E. rewrite Ea, E. reflexivity. }
  assert (Kw : forall x y, same_but_note x y -> is_withdrawal x = is_withdrawal y).
  { intros x y H. pose proof (Kb x y H) as E. destruct H as (_ & _ & Ea & _).
    unfold is_withdrawal. unfold is_balance in E. rewrite Ea, E. reflexivity. }
  assert (Ka : forall x y, same_but_note x y -> amount x = amount y).
  { intros x y (_ & _ & Ea & _). exact Ea. }
  assert (Kt : forall x y, same_but_note x y -> amount_and_time x = amount_and_time y).
  { intros x y (_ & _ & Ea & Et & _). unfold amount_and_time. rewrite Ea, Et.
    reflexivity. }
  pose proof (forall2_filter _ (in_cycle cid) _ _ Kc F) as FR.
  assert (Kcase : forall (p : bill -> bool) (e : bill -> Z),
            (forall x y, same_but_note x y -> p x = p y) ->
            (forall x y, same_but_note x y -> e x = e y) ->
            map (case_when p e) (filter (in_cycle cid) (bills d))
            = map (case_when p e) (filter (in_cycle cid) (bills d'))).
  { intros p e Hp He. apply (forall2_map same_but_note); [|exact FR].
    intros x y H. unfold case_when. rewrite (Hp x y H), (He x y H). reflexivity. }
  assert (Klist : forall (p : bill -> bool),
            (forall x y, same_but_note x y -> p x = p y) ->
            map amount_and_time
              (order_by_bill_id_desc (filter p (filter (in_cycle cid) (bills d))))
            = map amount_and_time
                (order_by_bill_id_desc (filter p (filter (in_cycle cid) (bills d'))))).
  { intros p Hp. apply (forall2_map same_but_note); [exact Kt|].
    apply forall2_order, forall2_filter; assumption. }
  split.
  - unfold get_cycle_summary. cbv zeta.
    rewrite (Kcase is_deposit amount Kd Ka),
      (Kcase is_deposit (fun _ => 1) Kd (fun _ _ _ => eq_refl)),
      (Kcase is_withdrawal amount Kw Ka),
      (Kcase is_withdrawal (fun _ => 1) Kw (fun _ _ _ => eq_refl)),
      (Kcase is_balance amount Kb Ka), (Klist is_deposit Kd), (Klist is_withdrawal Kw).
    reflexivity.
  - unfold balance_recorded. clear FR Kcase Klist.
    induction F as [|x y l l' Hxy _ IH]; [reflexivity|].
    cbn [existsb]. rewrite (Kc x y Hxy), (Kb x y Hxy), IH. reflexivity.
Qed.

Lemma balance_recorded_iff (c : Z) (d : db) :
  balance_recorded c d = true
  <-> exists b, In b (bills d) /\ bill_cycle_id b = c
                /\ PyStr.startswith (description b) Words.balance_tag = true.
Proof.
  unfold balance_recorded. rewrite existsb_exists. split.
  - intros (b & Hin & H). apply andb_prop in H. destruct H as [Hc Hb].
    exists b. unfold in_cycle in Hc. repeat split; [exact Hin | lia | exact Hb].
  - intros (b & Hin & Hc & Hb). exists b. split; [exact Hin|].
    unfold in_cycle, is_balance, like_balance. rewrite Hb.
    destruct (Z.eqb_spec (bill_cycle_id b) c); [reflexivity | contradiction].
Qed.

(** C10: only the prefix of the stored note tells a carry-over from an
    ordinary entry.  An entry of the active cycle whose note starts with the
    tag adds nothing to the totals, counts and lists of deposits and
    withdrawals and adds its amount to the previous balance and to the net
    balance; an entry whose note does not start with it adds its amount to
    the deposits or to the withdrawals, by its sign, and nothing to the
    previous balance.  Nothing else of an entry decides: two tables whose
    entries agree on identifier, cycle, amount and time and on whether the
    note starts with the tag have the same summary, whatever the rest of the
    notes, the authors and the groups.  The balance command and the import
    button answer that a balance is already recorded, with no change to the
    file, exactly when the cycle holds an entry whose note starts with the
    tag.  The entry command stores the note it is given, so that an accepted
    entry whose note starts with the tag is such an entry, and blocks the
    import from then on. *)
Theorem note_prefix_decides_kind (g : Z) (s : state) (c : Z) :
  reachable g s ->
  select_active_cycle g (disk s) = Some c ->
  (forall b l1 l2 d0,
      bills (disk s) = l1 ++ b :: l2 -> bills d0 = l1 ++ l2 ->
      bill_cycle_id b = c ->
      if PyStr.startswith (description b) Words.balance_tag
      then
        total_deposits (get_cycle_summary (disk s) c)
        = total_deposits (get_cycle_summary d0 c)
        /\ deposit_count (get_cycle_summary (disk s) c)
           = deposit_count (get_cycle_summary d0 c)
        /\ total_withdrawals (get_cycle_summary (disk s) c)
           = total_withdrawals (get_cycle_summary d0 c)
        /\ withdrawal_count (get_cycle_summary (disk s) c)
           = withdrawal_count (get_cycle_summary d0 c)
        /\ deposits (get_cycle_summary (disk s) c) = deposits (get_cycle_summary d0 c)
        /\ withdrawals (get_cycle_summary (disk s) c)
           = withdrawals (get_cycle_summary d0 c)
        /\ previous_balance (get_cycle_summary (disk s) c)
           = previous_balance (get_cycle_summary d0 c) + amount b
        /\ net_balance (get_cycle_summary (disk s) c)
           = net_balance (get_cycle_summary d0 c) + amount b
      else
        total_deposits (get_cycle_summary (disk s) c)
        = total_deposits (get_cycle_summary d0 c)
          + (if 0 <? amount b then amount b else 0)
        /\ deposit_count (get_cycle_summary (disk s) c)
           = deposit_count (get_cycle_summary d0 c) + (if 0 <? amount b then 1 else 0)
        /\ total_withdrawals (get_cycle_summary (disk s) c)
           = total_withdrawals (get_cycle_summary d0 c)
             + (if amount b <? 0 then - amount b else 0)
        /\ withdrawal_count (get_cycle_summary (disk s) c)
           = withdrawal_count (get_cycle_summary d0 c)
             + (if amount b <? 0 then 1 else 0)
        /\ previous_balance (get_cycle_summary (disk s) c)
           = previous_balance (get_cycle_summary d0 c)
        /\ net_balance (get_cycle_summary (disk s) c)
           = net_balance (get_cycle_summary d0 c) + amount b
        /\ balance_recorded c (disk s) = balance_recorded c d0)
  /\ (forall d' cid,
        Forall2 same_but_note (bills (disk s)) (bills d') ->
        get_cycle_summary d' cid = get_cycle_summary (disk s) cid
        /\ balance_recorded cid d' = balance_recorded cid (disk s))
  /\ (forall u now faults text a0 rest v,
        PyStr.split (PyStr.strip text) = Words.balance :: a0 :: rest ->
        PyStr.int a0 = Some v ->
        if existsb (fun b => (bill_cycle_id b =? c)
                             && PyStr.startswith (description b) Words.balance_tag)
             (bills (disk s))
        then fst (handle_command g u true now faults text s) = ReplyAlreadyRecorded
             /\ disk (snd (handle_command g u true now faults text s)) = disk s
        else fst (handle_command g u true now faults text s) <> ReplyAlreadyRecorded)
  /\ (forall u now data fields v,
        PyStr.split_on 95 data [] = Words.importbalance :: fields ->
        map_int fields = Some [g; v] ->
        if existsb (fun b => (bill_cycle_id b =? c)
                             && PyStr.startswith (description b) Words.balance_tag)
             (bills (disk s))
        then fst (button_callback g u true now data s) = CbAlreadyImported
             /\ disk (snd (button_callback g u true now data s)) = disk s
        else fst (button_callback g u true now data s) <> CbAlreadyImported)
  /\ (forall u now faults text cmd a0 rest v sm,
        PyStr.split (PyStr.strip text) = cmd :: a0 :: rest ->
        PyStr.match_signed_digits cmd = true ->
        PyStr.int cmd = Some v ->
        PyStr.startswith a0 Words.balance_tag = true ->
        fst (handle_command g u true now faults text s) = ReplySummary sm ->
        let s1 := snd (handle_command g u true now faults text s) in
        reachable g s1
        /\ select_active_cycle g (disk s1) = Some c
        /\ PyStr.startswith (entry_note (a0 :: rest)) Words.balance_tag = true
        /\ (exists id,
              bills (disk s1)
              = bills (disk s)
                ++ [mk_bill id c g u v (entry_note (a0 :: rest)) (now 0%nat)])
        /\ previous_balance sm
           = previous_balance (get_cycle_summary (disk s) c) + v
        /\ total_deposits sm = total_deposits (get_cycle_summary (disk s) c)
        /\ forall u' now' data fields w,
             PyStr.split_on 95 data [] = Words.importbalance :: fields ->
             map_int fields = Some [g; w] ->
             fst (button_callback g u' true now' data s1) = CbAlreadyImported).
Proof.
  intros R S.
  assert (Rec : existsb (fun b => (bill_cycle_id b =? c)
                                  && PyStr.startswith (description b) Words.balance_tag)
                  (bills (disk s))
                = balance_recorded c (disk s)) by reflexivity.
  split; [|split; [|split; [|split]]].
  - intros b l1 l2 d0 E E0 Hc.
    destruct (PyStr.startswith (description b) Words.balance_tag) eqn:Hb.
    + destruct (summary_with_tagged_entry d0 (disk s) c b l1 l2 E E0 Hc Hb)
        as (T1 & T2 & T3 & T4 & T5 & T6 & T7 & T8 & T9).
      repeat split; assumption.
    + exact (summary_with_ordinary_entry d0 (disk s) c b l1 l2 E E0 Hc Hb).
  - intros d' cid F. destruct (summary_same_but_note (disk s) d' cid F) as [E1 E2].
    split; symmetry; assumption.
  - intros u now faults text a0 rest v H I. rewrite Rec.
    destruct (balance_recorded c (disk s)) eqn:B.
    + exact (proj1 (import_refused_when_recorded g s c R S B)
               u now faults text a0 rest v H I).
    + apply reachable_consistent in R.
      rewrite (command_balance g u true now faults text (a0 :: rest) s H).
      rewrite (handle_balance_consistent_eq g u now (a0 :: rest) s R), S, I, B.
      cbv zeta. destruct (entry_fits _ _ _ _); discriminate.
  - intros u now data fields v H M. rewrite Rec.
    destruct (balance_recorded c (disk s)) eqn:B.
    + exact (proj2 (import_refused_when_recorded g s c R S B) u now data fields v H M).
    + apply reachable_consistent in R.
      rewrite (callback_import g u true now data fields v s H M).
      rewrite (import_balance_consistent_eq g u now v s R), S, B.
      cbv zeta. destruct (entry_fits _ _ _ _); discriminate.
  - intros u now faults text cmd a0 rest v sm H M I T A s1.
    assert (R1 : reachable g s1)
      by apply (reachable_step g s (Message u true now faults text) R).
    split; [exact R1|].
    pose proof (reachable_consistent g s R) as C. subst s1. revert A R1.
    rewrite (command_entry g u true now faults text cmd (a0 :: rest) s H M).
    rewrite (handle_entry_consistent_eq g u now cmd (a0 :: rest) s C), S, I.
    cbv zeta. destruct (entry_fits _ _ _ _) eqn:F; [|discriminate].
    cbn [fst snd disk]. intros [= <-] R1.
    pose proof (entry_note_keeps_tag a0 rest T) as Tag.
    assert (S1 : select_active_cycle g
                   (insert_bill c g u v (entry_note (a0 :: rest)) (now 0%nat) (disk s))
                 = Some c)
      by (rewrite <- S; apply select_active_cycle_cycles; reflexivity).
    split; [exact S1|]. split; [exact Tag|]. split; [eexists; reflexivity|].
    destruct (summary_with_tagged_entry (disk s)
                (insert_bill c g u v (entry_note (a0 :: rest)) (now 0%nat) (disk s)) c
                (mk_bill (next_rowid (bills_seq (disk s)) (map bill_id (bills (disk s))))
                   c g u v (entry_note (a0 :: rest)) (now 0%nat))
                (bills (disk s)) [] eq_refl (eq_sym (app_nil_r _)) eq_refl Tag)
      as (T1 & _ & _ & _ & _ & _ & T7 & _ & T9).
    split; [exact T7|]. split; [exact T1|].
    intros u' now' data fields w Hd Hm.
    rewrite (callback_import g u' true now' data fields w _ Hd Hm).
    rewrite (import_balance_consistent_eq g u' now' w _ (reachable_consistent g _ R1)).
    cbn [disk]. rewrite S1, T9. reflexivity.
Qed.

Lemma note_prefix_decides_kind_witness :
  let s := run Sample.group [Sample.said Words.open_cycle] initial_state in
  let s1 := run Sample.group
              [Sample.said Words.open_cycle; Sample.said Sample.plus_5_tagged]
              initial_state in
  reachable Sample.group s1
  /\ select_active_cycle Sample.group (disk s1) = Some 1
  /\ map description (bills (disk s1)) = [[91; 32467; 20313; 93; 97]%N]
  /\ deposit_count (get_cycle_summary (disk s1) 1)
     = deposit_count (get_cycle_summary (disk s) 1)
  /\ previous_balance (get_cycle_summary (disk s1) 1)
     = previous_balance (get_cycle_summary (disk s) 1) + 5
  /\ fst (handle_command Sample.group Sample.operator true Sample.clock no_fault
            Sample.balance_200 s1) = ReplyAlreadyRecorded.
Proof.
  intros s s1.
  assert (R : reachable Sample.group s1) by (eexists; reflexivity).
  assert (S : select_active_cycle Sample.group (disk s1) = Some 1) by reflexivity.
  destruct (note_prefix_decides_kind Sample.group s1 1 R S) as (A & _ & B & _).
  pose proof (A (mk_bill 1 1 Sample.group Sample.operator 5
                   [91; 32467; 20313; 93; 97]%N []) [] [] (disk s)
                eq_refl eq_refl eq_refl) as A1.
  cbv beta iota in A1.
  change (PyStr.startswith
            (description (mk_bill 1 1 Sample.group Sample.operator 5
                            [91; 32467; 20313; 93; 97]%N [])) Words.balance_tag)
    with true in A1.
  destruct A1 as (_ & T2 & _ & _ & _ & _ & T7 & _).
  pose proof (B Sample.operator Sample.clock no_fault Sample.balance_200
                [43; 50; 48; 48]%N [] 200 eq_refl eq_refl) as B1.
  change (existsb _ (bills (disk s1))) with true in B1.
  destruct B1 as (B1 & _).
  split; [exact R|]. split; [exact S|]. split; [reflexivity|].
  split; [exact T2|]. split; [exact T7 | exact B1].
Defined.

(** * Further properties of the code *)

(** ** Integers in button data and file names *)

Lemma ascii_digit d : (d < 10)%N -> PyStr.decimal (48 + d) = Some d.
Proof.
  intros H.
  assert (C : (d = 0 \/ d = 1 \/ d = 2 \/ d = 3 \/ d = 4 \/ d = 5 \/ d = 6 \/ d = 7
               \/ d = 8 \/ d = 9)%N) by lia.
  decompose [or] C; subst; reflexivity.
Qed.

Lemma ascii_digit_char c :
  (48 <= c <= 57)%N -> PyStr.decimal c = Some (c - 48)%N.
Proof.
  intros H. replace c with (48 + (c - 48))%N at 1 by lia. apply ascii_digit. lia.
Qed.

Lemma digit_char d : (d < 10)%N -> PyStr.isdecimal (48 + d) = true.
Proof. intros H. unfold PyStr.isdecimal. rewrite (ascii_digit d H). reflexivity. Qed.

Lemma decimal_below_ten c v : PyStr.decimal c = Some v -> (v < 10)%N.
Proof.
  unfold PyStr.decimal. destruct (find _ _) as [r|]; [|discriminate].
  intros [= <-]. apply N.mod_lt. discriminate.
Qed.

Lemma digit_value_bounds c : 0 <= PyStr.digit_value c <= 9.
Proof.
  unfold PyStr.digit_value. destruct (PyStr.decimal c) as [v|] eqn:E; [|lia].
  apply decimal_below_ten in E. lia.
Qed.



Lemma digit_is_no_mark c :
  PyStr.isdecimal c = true -> c <> 43%N /\ c <> 45%N /\ c <> 95%N.
Proof. intros D. repeat split; intros ->; discriminate D. Qed.

Lemma int_digits_digit d tl a b :
  (d < 10)%N ->
  PyStr.int_digits ((48 + d)%N :: tl) a b
  = PyStr.int_digits tl (a * 10 + Z.of_N d) true.
Proof.
  intros Hd. cbn [PyStr.int_digits]. rewrite (digit_char d Hd). f_equal.
  unfold PyStr.digit_value. rewrite (ascii_digit d Hd). lia.
Qed.

Lemma digits_from_read fuel :
  forall n tl, (n < 2 ^ N.of_nat (S fuel))%N ->
  exists m, forall a b,
    PyStr.int_digits (PyStr.digits_from (S fuel) n tl) a b
    = PyStr.int_digits tl (a * m + Z.of_N n) true.
Proof.
  induction fuel as [|fuel IH]; intros n tl Hn.
  - assert (n < 2)%N by (simpl in Hn; lia).
    exists 10. intros a b. cbn [PyStr.digits_from].
    destruct (N.ltb_spec n 10); [|lia].
    rewrite N.mod_small by lia. apply int_digits_digit. lia.
  - cbn [PyStr.digits_from]. destruct (N.ltb_spec n 10) as [L|L].
    + exists 10. intros a b. rewrite N.mod_small by lia.
      apply int_digits_digit. lia.
    + assert (H2 : (n / 10 < 2 ^ N.of_nat (S fuel))%N).
      { rewrite Nat2N.inj_succ, N.pow_succ_r' in Hn.
        apply N.Div0.div_lt_upper_bound. lia. }
      destruct (IH (n / 10)%N ((48 + n mod 10)%N :: tl) H2) as (m & Hm).
      exists (10 * m). intros a b. rewrite Hm.
      assert (Hd : (n mod 10 < 10)%N) by (apply N.mod_lt; discriminate).
      rewrite int_digits_digit by exact Hd. f_equal.
      pose proof (N.div_mod n 10 ltac:(discriminate)) as E.
      revert E Hd. generalize (n mod 10)%N (n / 10)%N. intros r q E Hd. lia.
Qed.

Lemma of_N_read n : PyStr.int_digits (PyStr.of_N n) 0 false = Some (Z.of_N n).
Proof.
  unfold PyStr.of_N.
  destruct (digits_from_read (N.to_nat (N.size n)) n []) as (m & Hm).
  - rewrite Nat2N.inj_succ, N2Nat.id, N.pow_succ_r'.
    pose proof (N.size_gt n). lia.
  - rewrite Hm. reflexivity.
Qed.

Lemma digits_from_digits fuel :
  forall n tl, Forall (fun c => (48 <= c <= 57)%N) tl ->
  Forall (fun c => (48 <= c <= 57)%N) (PyStr.digits_from fuel n tl).
Proof.
  induction fuel as [|fuel IH]; intros n tl F; cbn [PyStr.digits_from]; [exact F|].
  assert (Hd : (n mod 10 < 10)%N) by (apply N.mod_lt; discriminate).
  assert (F' : Forall (fun c => (48 <= c <= 57)%N) ((48 + n mod 10)%N :: tl)).
  { constructor; [|exact F]. revert Hd. generalize (n mod 10)%N. intros r Hr. lia. }
  destruct (n <? 10)%N; [exact F' | apply IH, F'].
Qed.

Lemma digits_from_not_empty fuel n tl : PyStr.digits_from (S fuel) n tl <> [].
Proof.
  revert n tl. induction fuel as [|fuel IH]; intros n tl; cbn [PyStr.digits_from].
  - destruct (n <? 10)%N; discriminate.
  - destruct (n <? 10)%N; [discriminate | apply IH].
Qed.

Lemma of_N_head n :
  exists c r, PyStr.of_N n = c :: r /\ (48 <= c <= 57)%N
              /\ Forall (fun x => (48 <= x <= 57)%N) r.
Proof.
  unfold PyStr.of_N.
  pose proof (digits_from_digits (S (N.to_nat (N.size n))) n [] (Forall_nil _)) as F.
  pose proof (digits_from_not_empty (N.to_nat (N.size n)) n []) as E.
  destruct (PyStr.digits_from _ n []) as [|c r]; [contradiction|].
  inversion F; subst. eauto.
Qed.

Lemma of_int_chars z : Forall numeral_char (PyStr.of_int z).
Proof.
  unfold PyStr.of_int.
  assert (F : forall n, Forall numeral_char (PyStr.of_N n)).
  { intros n. destruct (of_N_head n) as (c & r & -> & Hc & Hr).
    constructor; [left; exact Hc|].
    eapply Forall_impl; [|exact Hr]. intros x Hx. left. exact Hx. }
  destruct (z <? 0); [constructor; [right; reflexivity|]|]; apply F.
Qed.

Lemma numeral_char_not_space c : numeral_char c -> PyStr.isspace c = false.
Proof.
  intros [H| ->]; [|reflexivity].
  unfold PyStr.isspace. cbn [existsb].
  repeat match goal with
         | |- context [N.eqb c ?k] => destruct (N.eqb_spec c k); [lia|]
         end.
  reflexivity.
Qed.

Lemma numeral_char_not_underscore c : numeral_char c -> c <> 95%N.
Proof. intros [H| ->]; [lia | discriminate]. Qed.

Lemma strip_no_space s :
  Forall (fun c => PyStr.isspace c = false) s -> PyStr.strip s = s.
Proof.
  assert (L : forall t, Forall (fun c => PyStr.isspace c = false) t ->
                        PyStr.lstrip t = t).
  { intros [|c t] F; [reflexivity|]. inversion F as [|? ? Hc _]; subst.
    cbn [PyStr.lstrip]. rewrite Hc. reflexivity. }
  intros F. unfold PyStr.strip. rewrite (L s F), (L (rev s)).
  - apply rev_involutive.
  - apply Forall_rev, F.
Qed.

Lemma int_strip_no_space s :
  Forall (fun c => PyStr.isspace c = false) s -> PyStr.int_strip s = s.
Proof.
  assert (L : forall t, Forall (fun c => PyStr.isspace c = false) t ->
                        PyStr.int_lstrip t = t).
  { intros [|c t] F; [reflexivity|]. inversion F as [|? ? Hc _]; subst.
    cbn [PyStr.int_lstrip]. unfold PyStr.int_space. rewrite Hc. reflexivity. }
  intros F. unfold PyStr.int_strip. rewrite (L s F), (L (rev s)).
  - apply rev_involutive.
  - apply Forall_rev, F.
Qed.

Lemma int_unsigned c r :
  c <> 43%N -> c <> 45%N ->
  PyStr.int_literal (c :: r) = PyStr.int_digits (c :: r) 0 false.
Proof.
  intros P M. unfold PyStr.int_literal.
  destruct c as [|p]; [reflexivity|].
  do 6 (destruct p as [p|p|]; try reflexivity); congruence.
Qed.

(** What [int] reads is the value of the literal, and it reads every
    literal of at most [max_str_digits] digits. *)
Lemma int_some s v :
  PyStr.int s = Some v -> PyStr.int_literal (PyStr.int_strip s) = Some v.
Proof. unfold PyStr.int. cbv zeta. destruct (_ <? _); [discriminate | tauto]. Qed.

Lemma int_within s :
  Z.of_nat (length (filter PyStr.isdecimal (PyStr.int_strip s))) <= PyStr.max_str_digits ->
  PyStr.int s = PyStr.int_literal (PyStr.int_strip s).
Proof.
  intros H. unfold PyStr.int. cbv zeta.
  destruct (Z.ltb_spec PyStr.max_str_digits
              (Z.of_nat (length (filter PyStr.isdecimal (PyStr.int_strip s)))));
    [lia | reflexivity].
Qed.

Lemma literal_of_int z : PyStr.int_literal (PyStr.of_int z) = Some z.
Proof.
  unfold PyStr.of_int. destruct (Z.ltb_spec z 0).
  - unfold PyStr.int_literal. rewrite of_N_read. cbn [option_map]. f_equal. lia.
  - destruct (of_N_head (Z.to_N z)) as (c & r & E & Hc & _).
    rewrite E, (int_unsigned c r) by lia. rewrite <- E, of_N_read. f_equal. lia.
Qed.

Lemma length_digits_from fuel :
  forall n acc k, (n < 10 ^ k)%N -> (1 <= k)%N ->
  (N.of_nat (length (PyStr.digits_from fuel n acc)) <= k + N.of_nat (length acc))%N.
Proof.
  induction fuel as [|fuel IH]; intros n acc k Hn Hk; cbn [PyStr.digits_from]; [lia|].
  destruct (N.ltb_spec n 10) as [L|L]; [cbn [length]; lia|].
  assert (K : (2 <= k)%N).
  { destruct (N.le_gt_cases 2 k) as [G|G]; [exact G|]. exfalso.
    assert (E : k = 1%N) by lia. subst k. change (10 ^ 1)%N with 10%N in Hn. lia. }
  assert (H2 : (n / 10 < 10 ^ (k - 1))%N).
  { apply N.Div0.div_lt_upper_bound. rewrite <- N.pow_succ_r'.
    replace (N.succ (k - 1)) with k by lia. exact Hn. }
  specialize (IH (n / 10)%N ((48 + n mod 10)%N :: acc) (k - 1)%N H2 ltac:(lia)).
  cbn [length] in IH. lia.
Qed.

Lemma length_of_N n k :
  (n < 10 ^ k)%N -> (1 <= k)%N -> (N.of_nat (length (PyStr.of_N n)) <= k)%N.
Proof.
  intros Hn Hk. unfold PyStr.of_N.
  pose proof (length_digits_from (S (N.to_nat (N.size n))) n [] k Hn Hk) as L.
  cbn [length] in L. lia.
Qed.

(** [str] writes at most [max_str_digits] digits for the integers it
    converts. *)
Lemma digits_of_int z :
  PyStr.str_fits z = true ->
  Z.of_nat (length (filter PyStr.isdecimal (PyStr.of_int z))) <= PyStr.max_str_digits.
Proof.
  unfold PyStr.str_fits. intros F. apply Z.ltb_lt in F.
  assert (B : forall n, Z.of_N n = Z.abs z ->
              Z.of_nat (length (filter PyStr.isdecimal (PyStr.of_N n)))
              <= PyStr.max_str_digits).
  { intros n E.
    assert (Hn : (n < 10 ^ Z.to_N PyStr.max_str_digits)%N).
    { apply N2Z.inj_lt. rewrite N2Z.inj_pow, E. exact F. }
    pose proof (length_of_N n (Z.to_N PyStr.max_str_digits) Hn ltac:(discriminate)) as L.
    pose proof (filter_length_le PyStr.isdecimal (PyStr.of_N n)) as G.
    apply N2Z.inj_le in L. rewrite nat_N_Z in L.
    change (Z.of_N (Z.to_N PyStr.max_str_digits)) with PyStr.max_str_digits in L.
    apply Nat2Z.inj_le in G. exact (Z.le_trans _ _ _ G L). }
  unfold PyStr.of_int. destruct (Z.ltb_spec z 0).
  - cbn [filter]. change (PyStr.isdecimal 45) with false. cbv iota.
    apply B. rewrite Z2N.id by lia. lia.
  - apply B. rewrite Z2N.id by lia. lia.
Qed.

(** Reading back what [str] wrote gives the integer. *)
Lemma int_of_int z : PyStr.str_fits z = true -> PyStr.int (PyStr.of_int z) = Some z.
Proof.
  intros F.
  assert (S0 : PyStr.int_strip (PyStr.of_int z) = PyStr.of_int z).
  { apply int_strip_no_space. eapply Forall_impl; [|apply of_int_chars].
    apply numeral_char_not_space. }
  rewrite int_within; rewrite S0; [apply literal_of_int | apply digits_of_int, F].
Qed.

Lemma of_int_injective z z' : PyStr.of_int z = PyStr.of_int z' -> z = z'.
Proof.
  intros E. pose proof (literal_of_int z) as H. rewrite E, literal_of_int in H.
  congruence.
Qed.

Lemma int64_str_fits z : int64 z = true -> PyStr.str_fits z = true.
Proof.
  intros H. apply int64_bounds in H. unfold PyStr.str_fits. apply Z.ltb_lt.
  apply (Z.le_lt_trans _ (2 ^ 63)); [lia|].
  apply Z.ltb_lt. vm_compute. reflexivity.
Qed.

Lemma split_on_plain sep s t tok :
  Forall (fun c => c <> sep) s ->
  PyStr.split_on sep (s ++ t) tok = PyStr.split_on sep t (rev s ++ tok).
Proof.
  revert tok. induction s as [|c s IH]; intros tok F; [reflexivity|].
  inversion F as [|? ? Hc Hs]; subst. cbn [app PyStr.split_on].
  destruct (N.eqb_spec c sep); [contradiction|].
  rewrite IH by exact Hs. cbn [rev]. rewrite <- app_assoc. reflexivity.
Qed.

Lemma split_on_field sep s t :
  Forall (fun c => c <> sep) s ->
  PyStr.split_on sep (s ++ sep :: t) [] = s :: PyStr.split_on sep t [].
Proof.
  intros F. rewrite split_on_plain by exact F. cbn [PyStr.split_on].
  rewrite N.eqb_refl, app_nil_r, rev_involutive. reflexivity.
Qed.

Lemma split_on_last sep s :
  Forall (fun c => c <> sep) s -> PyStr.split_on sep s [] = [s].
Proof.
  intros F. rewrite <- (app_nil_r s) at 1. rewrite split_on_plain by exact F.
  cbn [PyStr.split_on]. rewrite app_nil_r, rev_involutive. reflexivity.
Qed.

Lemma of_int_no_underscore z : Forall (fun c => c <> 95%N) (PyStr.of_int z).
Proof.
  eapply Forall_impl; [|apply of_int_chars]. apply numeral_char_not_underscore.
Qed.

Lemma importbalance_data_fields g v :
  PyStr.split_on 95 (importbalance_data g v) []
  = [Words.importbalance; PyStr.of_int g; PyStr.of_int v].
Proof.
  unfold importbalance_data. cbn [app].
  change (105%N :: 109%N :: 112%N :: 111%N :: 114%N :: 116%N :: 98%N :: 97%N
          :: 108%N :: 97%N :: 110%N :: 99%N :: 101%N :: 95%N
          :: PyStr.of_int g ++ 95%N :: PyStr.of_int v)
    with (Words.importbalance ++ 95%N :: PyStr.of_int g ++ 95%N :: PyStr.of_int v).
  rewrite split_on_field by (repeat constructor; discriminate).
  rewrite split_on_field by apply of_int_no_underscore.
  rewrite split_on_last by apply of_int_no_underscore. reflexivity.
Qed.

Lemma details_data_fields g cid page :
  PyStr.split_on 95 (details_data g cid page) []
  = [Words.details; PyStr.of_int g; PyStr.of_int cid; PyStr.of_int page].
Proof.
  unfold details_data. cbn [app].
  change (100%N :: 101%N :: 116%N :: 97%N :: 105%N :: 108%N :: 115%N :: 95%N
          :: PyStr.of_int g ++ 95%N :: PyStr.of_int cid ++ 95%N :: PyStr.of_int page)
    with (Words.details
          ++ 95%N :: PyStr.of_int g ++ 95%N :: PyStr.of_int cid
          ++ 95%N :: PyStr.of_int page).
  rewrite split_on_field by (repeat constructor; discriminate).
  rewrite !split_on_field by apply of_int_no_underscore.
  rewrite split_on_last by apply of_int_no_underscore. reflexivity.
Qed.

Lemma import_button_decodes g g' v u a now s :
  PyStr.str_fits g' = true -> PyStr.str_fits v = true ->
  button_callback g u a now (importbalance_data g' v) s
  = (if g' =? g then import_balance g u a now v s else (CbOtherGroup, s)).
Proof.
  intros Fg Fv. unfold button_callback. rewrite importbalance_data_fields.
  change (PyStr.eqb Words.importbalance Words.details) with false.
  change (PyStr.eqb Words.importbalance Words.importbalance) with true.
  cbv iota. cbn [map_int]. rewrite (int_of_int g' Fg), (int_of_int v Fv). reflexivity.
Qed.

Lemma details_button_decodes g g' cid page u a now s :
  PyStr.str_fits g' = true -> PyStr.str_fits cid = true ->
  PyStr.str_fits page = true ->
  button_callback g u a now (details_data g' cid page) s
  = (if g' =? g then show_details cid page s else (CbOtherGroup, s)).
Proof.
  intros Fg Fc Fp. unfold button_callback. rewrite details_data_fields.
  change (PyStr.eqb Words.details Words.details) with true.
  cbv iota. cbn [map_int].
  rewrite (int_of_int g' Fg), (int_of_int cid Fc), (int_of_int page Fp). reflexivity.
Qed.

Lemma show_details_in_range cid page s :
  int64 cid = true -> int64 ((page - 1) * 10) = true ->
  summary_raises (disk s) cid = false ->
  show_details cid page s = (CbDetails (details_page (disk s) cid page), s).
Proof. intros C P O. unfold show_details. rewrite C, P, O. reflexivity. Qed.

(** X1: the data the handlers put on a button decode to what they were built
    from, for the integers an f-string formats, which are those of at most
    4300 digits.  Pressing the import button built for group [g'] and amount
    [v] runs the import of [v] in that group, and pressing a details button
    runs the details branch on the cycle and the page it names; in the file
    of any other group it does nothing.  The details branch shows that page
    whenever the cycle identifier and the offset of the page are inside the
    64 bits and no total of the cycle overflows, which holds of every cycle
    of a file a run can reach. *)
Theorem button_data_round_trip
    (g g' v cid page u : Z) (a : bool) (now : nat -> timestamp) (s : state) :
  PyStr.str_fits g' = true ->
  (PyStr.str_fits v = true ->
   button_callback g u a now (importbalance_data g' v) s
   = (if g' =? g then import_balance g u a now v s else (CbOtherGroup, s)))
  /\ (PyStr.str_fits cid = true -> PyStr.str_fits page = true ->
      button_callback g u a now (details_data g' cid page) s
      = (if g' =? g then show_details cid page s else (CbOtherGroup, s)))
  /\ (int64 cid = true -> int64 ((page - 1) * 10) = true ->
      summary_raises (disk s) cid = false ->
      show_details cid page s = (CbDetails (details_page (disk s) cid page), s))
  /\ (reachable g s -> summary_raises (disk s) cid = false).
Proof.
  intros Fg.
  split; [intros Fv; apply import_button_decodes; assumption|].
  split; [intros Fc Fp; apply details_button_decodes; assumption|].
  split; [apply show_details_in_range|].
  intros R. apply (sums_in_range g s (reachable_consistent g s R)).
Qed.

Lemma button_data_round_trip_witness :
  let s := run Sample.group [Sample.said Words.open_cycle; Sample.said Sample.plus_900]
             initial_state in
  button_callback Sample.group Sample.operator true Sample.clock
    (details_data Sample.group 1 1) s
  = (CbDetails (details_page (disk s) 1 1), s).
Proof.
  intros s.
  destruct (button_data_round_trip Sample.group Sample.group 0 1 1 Sample.operator
              true Sample.clock s eq_refl) as (_ & D & V & O).
  rewrite (D eq_refl eq_refl). change (Sample.group =? Sample.group) with true.
  cbv iota. apply V; [reflexivity | reflexivity |]. apply O. eexists. reflexivity.
Defined.

(** X2: the navigation buttons of the details view lead to the neighbouring
    pages only.  The previous button is shown exactly on a page above 1 and
    leads to the page before it, so never below page 1; the next button is
    shown exactly on a page below the last one and leads to the page after
    it, so never beyond the last page.  From a page in range both stay in
    range.  On a page out of range, which no button of a page in range leads
    to, one button is shown and leads one page toward the range, which may
    still be out of it.  The page count is the same on every page, and at
    least 1. *)
Theorem details_navigation (d : db) (cid page : Z) :
  let v := details_page d cid page in
  (forall p, dv_previous_button v = Some p -> p = page - 1 /\ 1 <= p)
  /\ (forall p, dv_next_button v = Some p -> p = page + 1 /\ p <= dv_total_pages v)
  /\ (page <= 1 -> dv_previous_button v = None)
  /\ (dv_total_pages v <= page -> dv_next_button v = None)
  /\ (1 < page -> dv_previous_button v = Some (page - 1))
  /\ (page < dv_total_pages v -> dv_next_button v = Some (page + 1))
  /\ (forall p, dv_total_pages (details_page d cid p) = dv_total_pages v)
  /\ 1 <= dv_total_pages v
  /\ (1 <= page <= dv_total_pages v ->
      forall p, dv_previous_button v = Some p \/ dv_next_button v = Some p ->
                1 <= p <= dv_total_pages v).
Proof.
  intros v.
  assert (P : forall p, dv_previous_button v = Some p -> p = page - 1 /\ 1 <= p).
  { intros p. unfold v, details_page. cbn [dv_previous_button].
    destruct (Z.gtb_spec page 1); [|discriminate]. intros [= <-]. lia. }
  assert (N : forall p, dv_next_button v = Some p ->
                        p = page + 1 /\ p <= dv_total_pages v).
  { intros p. unfold v, details_page. cbn [dv_next_button dv_total_pages].
    match goal with
    | |- context [page <? ?t] => destruct (Z.ltb_spec page t)
    end; [|discriminate]. intros [= <-]. lia. }
  split; [exact P|]. split; [exact N|]. split.
  { intros H. unfold v, details_page. cbn [dv_previous_button].
    destruct (Z.gtb_spec page 1); [lia | reflexivity]. }
  split.
  { unfold v, details_page. cbn [dv_next_button dv_total_pages]. intros H.
    match goal with
    | |- context [page <? ?t] => destruct (Z.ltb_spec page t)
    end; [lia | reflexivity]. }
  split.
  { intros H. unfold v, details_page. cbn [dv_previous_button].
    destruct (Z.gtb_spec page 1); [reflexivity | lia]. }
  split.
  { unfold v, details_page. cbn [dv_next_button dv_total_pages]. intros H.
    match goal with
    | |- context [page <? ?t] => destruct (Z.ltb_spec page t)
    end; [reflexivity | lia]. }
  split; [reflexivity|]. split.
  { unfold v, details_page. cbn [dv_total_pages].
    match goal with
    | |- context [?n >? 0] => destruct (Z.gtb_spec n 0); [rewrite ceil_div_10|lia]
    end.
    Z.to_euclidean_division_equations. lia. }
  intros H p [Hp|Hp]; [apply P in Hp | apply N in Hp]; lia.
Qed.

Lemma details_navigation_witness :
  let v := details_page Sample.ledger_of_25 1 2 in
  dv_previous_button v = Some 1 /\ dv_next_button v = Some 3
  /\ 1 <= 1 <= dv_total_pages v /\ 1 <= 3 <= dv_total_pages v.
Proof.
  intros v.
  destruct (details_navigation Sample.ledger_of_25 1 2)
    as (_ & _ & _ & _ & _ & _ & _ & _ & R).
  assert (H : 1 <= 2 <= dv_total_pages v) by (vm_compute; split; discriminate).
  split; [reflexivity|]. split; [reflexivity|].
  split; [apply (R H 1); left; reflexivity | apply (R H 3); right; reflexivity].
Defined.

(** X3: two groups never share a database file. *)
Theorem get_db_path_separates (g g' : Z) :
  g <> g' -> get_db_path g <> get_db_path g'.
Proof.
  intros N E. apply N. unfold get_db_path in E.
  repeat apply app_inv_head in E. apply app_inv_tail in E.
  apply of_int_injective, E.
Qed.

Lemma get_db_path_separates_witness :
  7 <> -7 /\ get_db_path 7 <> get_db_path (-7).
Proof.
  assert (N : 7 <> -7) by discriminate.
  split; [exact N | apply (get_db_path_separates 7 (-7) N)].
Defined.

(** ** The lists and counts of a summary *)

Lemma sorted_app_inv {A} (R : A -> A -> Prop) (l1 l2 : list A) :
  StronglySorted R (l1 ++ l2) ->
  StronglySorted R l1 /\ forall x y, In x l1 -> In y l2 -> R x y.
Proof.
  induction l1 as [|a l1 IH]; simpl; intros S.
  - split; [constructor | intros x y []].
  - inversion S as [|? ? S' F]; subst. destruct (IH S') as [S1 H].
    rewrite Forall_forall in F. split.
    + constructor; [exact S1|]. apply Forall_forall. intros x Hx.
      apply F, in_or_app. left; exact Hx.
    + intros x y [<-|Hx] Hy; [apply F, in_or_app; right; exact Hy | apply H; assumption].
Qed.

Lemma newest_five (p : bill -> bool) (rows : list bill) :
  exists shown rest,
    Permutation (shown ++ rest) (filter p rows)
    /\ firstn 5 (map amount_and_time (order_by_bill_id_desc (filter p rows)))
       = map amount_and_time shown
    /\ length shown = Nat.min 5 (length (filter p rows))
    /\ StronglySorted descending shown
    /\ (forall x y, In x shown -> In y rest -> bill_id y <= bill_id x)
    /\ Forall (fun b => p b = true) shown.
Proof.
  set (L := order_by_bill_id_desc (filter p rows)).
  exists (firstn 5 L), (skipn 5 L).
  pose proof (order_perm (filter p rows)) as P. fold L in P.
  pose proof (order_sorted (filter p rows)) as S. fold L in S.
  rewrite <- (firstn_skipn 5 L) in S. apply sorted_app_inv in S. destruct S as [S1 S2].
  split; [rewrite firstn_skipn; exact P|].
  split; [apply firstn_map|].
  split; [rewrite length_firstn, (Permutation_length P); reflexivity|].
  split; [exact S1|]. split; [exact S2|].
  apply Forall_forall. intros b Hb.
  assert (Hl : In b L)
    by (rewrite <- (firstn_skipn 5 L); apply in_or_app; left; exact Hb).
  apply (Permutation_in b P) in Hl. apply filter_In in Hl. tauto.
Qed.

(** X4: the two lists of a summary hold the five newest ordinary deposits and
    the five newest ordinary withdrawals of the cycle (all of them when there
    are fewer), newest first; every listed deposit is positive and every
    listed withdrawal negative, the counts are the numbers of such entries,
    and no total or count is negative. *)
Theorem summary_recent_lists (d : db) (cid : Z) :
  let sm := get_cycle_summary d cid in
  let dep := filter (fun b => in_cycle cid b && is_deposit b) (bills d) in
  let wd := filter (fun b => in_cycle cid b && is_withdrawal b) (bills d) in
  (exists shown rest,
      Permutation (shown ++ rest) dep
      /\ deposits sm = map amount_and_time shown
      /\ length shown = Nat.min 5 (length dep)
      /\ StronglySorted descending shown
      /\ (forall x y, In x shown -> In y rest -> bill_id y <= bill_id x))
  /\ (exists shown rest,
        Permutation (shown ++ rest) wd
        /\ withdrawals sm = map amount_and_time shown
        /\ length shown = Nat.min 5 (length wd)
        /\ StronglySorted descending shown
        /\ (forall x y, In x shown -> In y rest -> bill_id y <= bill_id x))
  /\ Forall (fun p => 0 < fst p) (deposits sm)
  /\ Forall (fun p => fst p < 0) (withdrawals sm)
  /\ deposit_count sm = Z.of_nat (length dep)
  /\ withdrawal_count sm = Z.of_nat (length wd)
  /\ 0 <= total_deposits sm /\ 0 <= total_withdrawals sm.
Proof.
  intros sm dep wd.
  assert (Ed : filter is_deposit (filter (in_cycle cid) (bills d)) = dep)
    by apply filter_filter.
  assert (Ew : filter is_withdrawal (filter (in_cycle cid) (bills d)) = wd)
    by apply filter_filter.
  destruct (newest_five is_deposit (filter (in_cycle cid) (bills d)))
    as (s1 & r1 & A1 & A2 & A3 & A4 & A5 & A6).
  destruct (newest_five is_withdrawal (filter (in_cycle cid) (bills d)))
    as (s2 & r2 & B1 & B2 & B3 & B4 & B5 & B6).
  rewrite Ed in A1, A3. rewrite Ew in B1, B3.
  assert (D : deposits sm = map amount_and_time s1) by exact A2.
  assert (W : withdrawals sm = map amount_and_time s2) by exact B2.
  split; [exists s1, r1; repeat split; assumption|].
  split; [exists s2, r2; repeat split; assumption|].
  split.
  { rewrite D. apply Forall_map. eapply Forall_impl; [|exact A6].
    intros b Hb. unfold is_deposit in Hb. apply andb_prop in Hb.
    cbn [fst amount_and_time]. lia. }
  split.
  { rewrite W. apply Forall_map. eapply Forall_impl; [|exact B6].
    intros b Hb. unfold is_withdrawal in Hb. apply andb_prop in Hb.
    cbn [fst amount_and_time]. lia. }
  split.
  { unfold sm, get_cycle_summary. cbn [deposit_count coalesce].
    rewrite sql_count_case_when, Ed. reflexivity. }
  split.
  { unfold sm, get_cycle_summary. cbn [withdrawal_count coalesce].
    rewrite sql_count_case_when, Ew. reflexivity. }
  split.
  - unfold sm, get_cycle_summary. cbn [total_deposits].
    rewrite sql_sum_case_when, Ed.
    assert (F : Forall (fun b => 0 < amount b) dep).
    { apply Forall_forall. intros b Hb. apply filter_In in Hb. destruct Hb as [_ Hb].
      apply andb_prop in Hb. destruct Hb as [_ Hb].
      unfold is_deposit in Hb. apply andb_prop in Hb. lia. }
    clear - F. induction F; simpl; lia.
  - unfold sm, get_cycle_summary. cbn [total_withdrawals]. apply Z.abs_nonneg.
Qed.

(** X5: in the details view, the total number of entries is the number of
    deposits, plus the number of withdrawals, plus the number of carry-over
    records, plus the number of untagged entries of amount 0, which the view
    shows in no other figure. *)
Theorem details_counts (d : db) (cid page : Z) :
  let v := details_page d cid page in
  dv_total_items v
  = deposit_count (dv_summary v) + withdrawal_count (dv_summary v)
    + dv_balance_count v
    + Z.of_nat (length (filter (fun b => in_cycle cid b && negb (is_balance b)
                                          && (amount b =? 0)) (bills d))).
Proof.
  intros v. unfold v, details_page.
  cbn [dv_total_items dv_summary dv_balance_count].
  unfold get_cycle_summary. cbn [deposit_count withdrawal_count coalesce].
  rewrite !sql_count_case_when, !filter_filter.
  induction (bills d) as [|b l IH]; [reflexivity|].
  cbn [filter]. unfold is_deposit, is_withdrawal, is_balance in *.
  destruct (in_cycle cid b); cbn [andb]; [|exact IH].
  destruct (like_balance (description b)); cbn [negb andb].
  - rewrite !andb_false_r. cbn [length]. lia.
  - rewrite !andb_true_r.
    destruct (Z.gtb_spec (amount b) 0), (Z.ltb_spec (amount b) 0),
      (Z.eqb_spec (amount b) 0); try lia; cbn [length]; lia.
Qed.

(** ** The effect of an event on the file *)

Lemma step_file g s e : consistent g s -> file_step g (disk s) (disk (step g s e)).
Proof.
  intros C. destruct e as [u a now faults text | u a now data]; cbn [step].
  - unfold handle_command. destruct text as [|ch text]; [constructor|].
    destruct (PyStr.split _) as [|cmd args]; [constructor|].
    destruct (PyStr.eqb cmd Words.open_cycle).
    { destruct a; [|constructor]. rewrite (handle_open_consistent_eq g now s C).
      destruct (select_active_cycle g (disk s)) eqn:S; [constructor|].
      apply file_opened, S. }
    destruct (PyStr.eqb cmd Words.close_cycle).
    { destruct a; [|constructor]. rewrite (handle_close_consistent_eq g now faults s C).
      destruct (select_active_cycle g (disk s)) as [c|] eqn:S; [|constructor].
      cbv zeta.
      destruct (close_transaction_cases faults now g c
                  (net_balance (get_cycle_summary (disk s) c)) (disk s))
        as [[_ (c' & -> & D)] | [_ (c' & -> & D)]]; cbn [snd disk]; rewrite D.
      - constructor.
      - apply file_closed, S. }
    destruct (PyStr.match_signed_digits cmd).
    { destruct a; [|constructor].
      rewrite (handle_entry_consistent_eq g u now cmd args s C).
      destruct (select_active_cycle g (disk s)) as [c|] eqn:S; [|constructor].
      destruct (PyStr.int cmd); [|constructor]. cbv zeta.
      destruct (entry_fits _ _ _ _); [apply file_inserted, S | constructor]. }
    destruct (PyStr.eqb cmd Words.balance).
    { destruct a; [|constructor].
      rewrite (handle_balance_consistent_eq g u now args s C).
      destruct (select_active_cycle g (disk s)) as [c|] eqn:S; [|constructor].
      destruct args as [|a0 rest]; [constructor|].
      destruct (PyStr.int a0); [|constructor].
      destruct (balance_recorded c (disk s)); [constructor|]. cbv zeta.
      destruct (entry_fits _ _ _ _); [apply file_inserted, S | constructor]. }
    destruct (PyStr.eqb cmd Words.undo).
    { destruct a; [|constructor]. rewrite (handle_undo_consistent_eq g s C).
      destruct (select_active_cycle g (disk s)) as [c|] eqn:S; [|constructor].
      destruct (select_last_bill c (disk s)) as [b|] eqn:L; [|constructor].
      apply (file_deleted g (disk s) c b S L). }
    destruct (_ || _); constructor.
  - unfold button_callback.
    destruct (PyStr.split_on _ _ _) as [|action fields]; [constructor|].
    destruct (PyStr.eqb action Words.details).
    { destruct (map_int fields) as [[|x [|y [|z [|w l]]]]|]; try constructor.
      destruct (_ =? _); [|constructor]. unfold show_details.
      destruct (_ || _); constructor. }
    destruct (PyStr.eqb action Words.importbalance); [|constructor].
    destruct (map_int fields) as [[|x [|y [|z l]]]|]; try constructor.
    destruct (_ =? _); [|constructor].
    destruct a; [|constructor]. rewrite (import_balance_consistent_eq g u now y s C).
    destruct (select_active_cycle g (disk s)) as [c|] eqn:S; [|constructor].
    destruct (balance_recorded c (disk s)); [constructor|]. cbv zeta.
    destruct (entry_fits _ _ _ _); [apply file_inserted, S | constructor].
Qed.

(** ** What every run keeps true of the rows *)

Lemma deactivate_cycles_ids g d :
  map cycle_id (cycles (deactivate_cycles g d)) = map cycle_id (cycles d).
Proof.
  unfold deactivate_cycles; cbn [cycles]. rewrite map_map. apply map_ext.
  intros c. destruct (_ =? _); reflexivity.
Qed.

Lemma end_cycle_ids t cid d :
  map cycle_id (cycles (end_cycle t cid d)) = map cycle_id (cycles d).
Proof.
  unfold end_cycle; cbn [cycles]. rewrite map_map. apply map_ext.
  intros c. destruct (_ =? _); reflexivity.
Qed.

Lemma closed_db_balances now g c net d :
  Forall (fun r => pb_group_id r = g /\ pb_amount r <> 0) (previous_balances d) ->
  previous_balances (closed_db now g c net d)
  = if net =? 0 then []
    else [mk_previous_balance
            (next_rowid (previous_balances_seq d) (map pb_id [])) g net (now 1%nat)].
Proof.
  intros F.
  assert (E : filter (fun r => negb (pb_group_id r =? g)) (previous_balances d) = []).
  { induction F as [|r l [Hr _] _ IH]; [reflexivity|]. cbn [filter].
    rewrite Hr, Z.eqb_refl. exact IH. }
  unfold closed_db. destruct (net =? 0); cbn [negb].
  - cbn [delete_previous_balances end_cycle previous_balances]. exact E.
  - unfold insert_previous_balance.
    cbn [delete_previous_balances end_cycle previous_balances previous_balances_seq].
    rewrite E. reflexivity.
Qed.

Lemma archive_initial g : archive g empty_db.
Proof. constructor; simpl; try constructor. lia. Qed.

Lemma file_step_archive g d d' : archive g d -> file_step g d d' -> archive g d'.
Proof.
  intros [A1 A2 A3 A4 A5] H. destruct H as [|t S|now c S|c u v note t S|c b S L].
  - constructor; assumption.
  - constructor; cbn [insert_cycle cycles bills previous_balances]; try assumption.
    + apply Forall_app. split; [|repeat constructor].
      unfold deactivate_cycles; cbn [cycles]. apply Forall_map.
      eapply Forall_impl; [|exact A1]. intros x Hx.
      destruct (cycle_group_id x =? g); exact Hx.
    + rewrite map_app, deactivate_cycles_ids. cbn [map cycle_id].
      apply NoDup_app; [exact A2 | repeat constructor; intros [] |].
      intros i Hi [<- | []].
      apply (next_rowid_above_ids (cycles_seq (deactivate_cycles g d))) in Hi. lia.
    + eapply Forall_impl; [|exact A3]. intros b [Hg Hb]. split; [exact Hg|].
      rewrite map_app, deactivate_cycles_ids. apply in_or_app. left; exact Hb.
  - destruct (closed_db_cycles now g c (net_balance (get_cycle_summary d c)) d)
      as (Ec & _ & Eb).
    pose proof (closed_db_balances now g c (net_balance (get_cycle_summary d c)) d A4)
      as Ep.
    constructor; rewrite ?Ec, ?Eb, ?Ep, ?end_cycle_ids; try assumption.
    + unfold end_cycle; cbn [cycles]. apply Forall_map.
      eapply Forall_impl; [|exact A1]. intros x Hx.
      destruct (cycle_id x =? c); exact Hx.
    + destruct (Z.eqb_spec (net_balance (get_cycle_summary d c)) 0);
        repeat constructor. assumption.
    + destruct (_ =? _); simpl; lia.
  - constructor; cbn [insert_bill cycles bills previous_balances]; try assumption.
    apply Forall_app. split; [exact A3|]. repeat constructor. cbn [bill_cycle_id].
    destruct (select_active_cycle_in g c d S) as (row & Hin & <- & _).
    apply in_map, Hin.
  - constructor; cbn [delete_bill cycles bills previous_balances]; try assumption.
    apply Forall_forall. intros x Hx. apply filter_In in Hx.
    rewrite Forall_forall in A3. apply A3, Hx.
Qed.

Lemma run_archive g es s :
  consistent g s -> archive g (disk s) -> archive g (disk (run g es s)).
Proof.
  revert s. induction es as [|e es IH]; intros s C A; [exact A|].
  cbn [run fold_left]. apply IH; [apply step_keeps, C|].
  apply (file_step_archive g (disk s)); [exact A | apply step_file, C].
Qed.

Lemma reachable_archive g s : reachable g s -> archive g (disk s).
Proof.
  intros [es ->]. apply run_archive; [apply consistent_initial | apply archive_initial].
Qed.

(** X6: in every state a run can reach, get_active_cycle answers what the
    file says, whether it reads the cached identifier or the table: the cache
    is never stale, and an answer is never the false value 0. *)
Theorem active_cycle_cache_is_fresh (g : Z) (es : list event) :
  let s := run g es initial_state in
  fst (get_active_cycle g s) = select_active_cycle g (disk s)
  /\ disk (snd (get_active_cycle g s)) = disk s
  /\ (active_cycle_cache s = None
      \/ active_cycle_cache s = select_active_cycle g (disk s))
  /\ truthy (fst (get_active_cycle g s))
     = negb (length (active_cycles g (disk s)) =? 0)%nat.
Proof.
  intros s. assert (C : consistent g s) by (apply run_keeps, consistent_initial).
  rewrite (get_active_cycle_consistent g s C). cbn [fst snd disk].
  split; [reflexivity|]. split; [reflexivity|]. split.
  - destruct (active_cycle_cache s) as [c|] eqn:E; [right | left; reflexivity].
    destruct (cache_is_active g s C c E) as [_ ->]. reflexivity.
  - destruct (select_active_cycle g (disk s)) as [c|] eqn:S.
    + pose proof (select_nonzero g c s C S) as N. cbn [truthy].
      destruct (Z.eqb_spec c 0); [contradiction|].
      destruct (active_cycles g (disk s)) eqn:A; [|reflexivity].
      apply select_active_cycle_none in A. congruence.
    + apply select_active_cycle_none in S. rewrite S. reflexivity.
Qed.

Lemma nodup_map_injective {A} (f : A -> Z) (l : list A) (x y : A) :
  NoDup (map f l) -> In x l -> In y l -> f x = f y -> x = y.
Proof.
  induction l as [|a l IH]; simpl; [intros _ []|].
  intros N Hx Hy E. inversion N as [|? ? Hn Hl]; subst.
  destruct Hx as [->|Hx], Hy as [->|Hy]; try reflexivity.
  - exfalso. apply Hn. rewrite E. apply in_map, Hy.
  - exfalso. apply Hn. rewrite <- E. apply in_map, Hx.
  - apply IH; assumption.
Qed.

(** X7: in every state a run can reach, an entry belongs to the group of the
    file and to a cycle of that group that is in the cycles table; entries
    have distinct identifiers, and so have cycles. *)
Theorem entries_belong_to_cycles (g : Z) (es : list event) :
  let d := disk (run g es initial_state) in
  (forall b, In b (bills d) ->
     bill_group_id b = g
     /\ exists row, In row (cycles d) /\ cycle_id row = bill_cycle_id b
                    /\ cycle_group_id row = g)
  /\ NoDup (map bill_id (bills d))
  /\ NoDup (map cycle_id (cycles d))
  /\ Forall (fun row => 0 < cycle_id row) (cycles d).
Proof.
  intros d.
  assert (R : reachable g (run g es initial_state)) by (exists es; reflexivity).
  pose proof (reachable_archive g _ R) as A.
  pose proof (reachable_consistent g _ R) as C. fold d in A.
  split; [|split; [apply (bill_ids_distinct g _ C) | split;
     [apply (cycle_ids_distinct g d A) | apply (cycle_ids_positive g _ C)]]].
  intros b Hb. pose proof (bills_in_cycles g d A) as F.
  rewrite Forall_forall in F. destruct (F b Hb) as [Hg Hc]. split; [exact Hg|].
  apply in_map_iff in Hc. destruct Hc as (row & E & Hrow). exists row.
  repeat split; try assumption.
  pose proof (cycles_of_group g d A) as G. rewrite Forall_forall in G. apply G, Hrow.
Qed.

(** X8: in every state a run can reach, the carried-balance table holds at
    most one row, of the group and with an amount that is not zero; the
    carried balance reads 0 exactly when the table is empty, and the amount
    of the row otherwise. *)
Theorem carried_balance_is_single (g : Z) (es : list event) :
  let d := disk (run g es initial_state) in
  (previous_balances d = [] /\ get_previous_balance g d = 0)
  \/ (exists r, previous_balances d = [r] /\ pb_group_id r = g
                /\ pb_amount r <> 0 /\ get_previous_balance g d = pb_amount r).
Proof.
  intros d.
  assert (R : reachable g (run g es initial_state)) by (exists es; reflexivity).
  pose proof (reachable_archive g _ R) as A. fold d in A.
  pose proof (balances_of_group g d A) as F. pose proof (one_balance_row g d A) as L.
  unfold get_previous_balance.
  destruct (previous_balances d) as [|r [|r' l]]; [left; split; reflexivity | | simpl in L; lia].
  right. exists r. inversion F as [|? ? [Hg Hn] _]; subst.
  repeat split; try assumption. cbn [filter]. rewrite Z.eqb_refl. reflexivity.
Qed.

(** ** Closed cycles are final *)

Lemma inactive_row_not_selected g d row c :
  NoDup (map cycle_id (cycles d)) ->
  In row (cycles d) -> is_active row = false ->
  select_active_cycle g d = Some c -> c <> cycle_id row.
Proof.
  intros N Hin Ha S E. destruct (select_active_cycle_in g c d S) as (r & Hr & Hc & _ & Hact).
  assert (r = row) by (apply (nodup_map_injective cycle_id (cycles d)); congruence).
  subst r. congruence.
Qed.

Lemma inactive_row_stays_deactivate g d row :
  In row (cycles d) -> is_active row = false -> In row (cycles (deactivate_cycles g d)).
Proof.
  intros Hin Ha. unfold deactivate_cycles; cbn [cycles]. apply in_map_iff.
  exists row. split; [|exact Hin].
  destruct (_ =? _); [|reflexivity]. destruct row; simpl in *; subst; reflexivity.
Qed.

Lemma other_row_stays_end_cycle t c d row :
  In row (cycles d) -> cycle_id row <> c -> In row (cycles (end_cycle t c d)).
Proof.
  intros Hin Hc. unfold end_cycle; cbn [cycles]. apply in_map_iff.
  exists row. split; [|exact Hin].
  destruct (Z.eqb_spec (cycle_id row) c); [contradiction | reflexivity].
Qed.

Lemma select_last_bill_in c d b :
  select_last_bill c d = Some b -> In b (bills d) /\ bill_cycle_id b = c.
Proof.
  unfold select_last_bill. destruct (order_by_bill_id_desc _) as [|b' rest] eqn:O;
    [discriminate|]. intros [= ->]. apply order_head_is_newest in O.
  destruct O as [Hin _]. apply filter_In in Hin. unfold in_cycle in Hin.
  split; [tauto | lia].
Qed.

Lemma file_step_keeps_closed g d d' row :
  archive g d -> NoDup (map bill_id (bills d)) -> file_step g d d' ->
  In row (cycles d) -> is_active row = false ->
  In row (cycles d')
  /\ filter (in_cycle (cycle_id row)) (bills d')
     = filter (in_cycle (cycle_id row)) (bills d).
Proof.
  intros A N H Hin Ha. pose proof (cycle_ids_distinct g d A) as Nc.
  destruct H as [|t S|now c S|c u v note t S|c b S L].
  - split; [exact Hin | reflexivity].
  - split; [|reflexivity]. cbn [insert_cycle cycles]. apply in_or_app. left.
    apply inactive_row_stays_deactivate; assumption.
  - destruct (closed_db_cycles now g c (net_balance (get_cycle_summary d c)) d)
      as (Ec & _ & Eb).
    rewrite Ec, Eb. split; [|reflexivity]. apply other_row_stays_end_cycle; [exact Hin|].
    intros E. apply (inactive_row_not_selected g d row c Nc Hin Ha S). congruence.
  - split; [exact Hin|]. cbn [insert_bill bills]. rewrite filter_app.
    cbn [filter]. unfold in_cycle at 2. cbn [bill_cycle_id].
    pose proof (inactive_row_not_selected g d row c Nc Hin Ha S) as Hc.
    destruct (Z.eqb_spec c (cycle_id row)); [contradiction | apply app_nil_r].
  - split; [exact Hin|]. cbn [delete_bill bills]. rewrite filter_filter.
    apply filter_ext_in. intros x Hx.
    destruct (Z.eqb_spec (bill_id x) (bill_id b)) as [E|E]; cbn [negb];
      [|apply andb_true_l].
    destruct (select_last_bill_in c d b L) as [Hb Hbc].
    assert (x = b) by (apply (nodup_map_injective bill_id (bills d)); assumption).
    subst x. pose proof (inactive_row_not_selected g d row c Nc Hin Ha S) as Hc.
    unfold in_cycle. rewrite Hbc. destruct (Z.eqb_spec c (cycle_id row));
      [contradiction | reflexivity].
Qed.

(** X9: a closed cycle is final.  Once a row of the cycles table is inactive,
    no later message or button changes that row, the entries of that cycle,
    or the summary computed over it. *)
Theorem closed_cycle_is_final (g : Z) (s : state) (row : cycle) (es : list event) :
  reachable g s ->
  In row (cycles (disk s)) -> is_active row = false ->
  In row (cycles (disk (run g es s)))
  /\ filter (in_cycle (cycle_id row)) (bills (disk (run g es s)))
     = filter (in_cycle (cycle_id row)) (bills (disk s))
  /\ get_cycle_summary (disk (run g es s)) (cycle_id row)
     = get_cycle_summary (disk s) (cycle_id row)
  /\ forall page,
       dv_bills (details_page (disk (run g es s)) (cycle_id row) page)
       = dv_bills (details_page (disk s) (cycle_id row) page).
Proof.
  intros R Hin Ha.
  assert (K : In row (cycles (disk (run g es s)))
              /\ filter (in_cycle (cycle_id row)) (bills (disk (run g es s)))
                 = filter (in_cycle (cycle_id row)) (bills (disk s))).
  { pose proof (reachable_consistent g s R) as C.
    pose proof (reachable_archive g s R) as A. clear R.
    revert s C A Hin. induction es as [|e es IH]; intros s C A Hin;
      [split; [exact Hin | reflexivity]|].
    cbn [run fold_left].
    destruct (file_step_keeps_closed g (disk s) (disk (step g s e)) row A
                (bill_ids_distinct g s C) (step_file g s e C) Hin Ha) as [H1 H2].
    destruct (IH (step g s e) (step_keeps g s e C)
                (file_step_archive g _ _ A (step_file g s e C)) H1) as [H3 H4].
    split; [exact H3 | rewrite <- H2; exact H4]. }
  destruct K as [K1 K2]. split; [exact K1|]. split; [exact K2|].
  split.
  - unfold get_cycle_summary. rewrite K2. reflexivity.
  - intros page. unfold details_page. cbn [dv_bills]. rewrite K2. reflexivity.
Qed.

Lemma closed_cycle_is_final_witness :
  let s := run Sample.group
             [Sample.said Words.open_cycle; Sample.said Sample.plus_900;
              Sample.said Words.close_cycle] initial_state in
  let later := [Sample.said Words.open_cycle; Sample.said Sample.plus_1000;
                Sample.said Words.undo; Sample.said Sample.minus_300] in
  reachable Sample.group s
  /\ get_cycle_summary (disk (run Sample.group later s)) 1
     = get_cycle_summary (disk s) 1
  /\ net_balance (get_cycle_summary (disk s) 1) = 900.
Proof.
  intros s later.
  assert (R : reachable Sample.group s) by (eexists; reflexivity).
  destruct (closed_cycle_is_final Sample.group s (mk_cycle 1 Sample.group [] (Some []) false)
              later R (or_introl eq_refl) eq_refl) as (_ & _ & H & _).
  split; [exact R|]. split; [exact H | reflexivity].
Defined.

(** ** Opening and closing, as sequences of commands *)

Lemma opened_selects_new g t d :
  select_active_cycle g (insert_cycle g t true (deactivate_cycles g d))
  = Some (next_rowid (cycles_seq d) (map cycle_id (cycles d))).
Proof.
  rewrite select_active_cycle_head, active_cycles_insert, active_cycles_deactivated.
  rewrite Z.eqb_refl. cbn [andb app hd_error option_map cycle_id].
  rewrite deactivate_cycles_ids. reflexivity.
Qed.

Lemma new_cycle_has_no_entry g d :
  archive g d ->
  filter (in_cycle (next_rowid (cycles_seq d) (map cycle_id (cycles d)))) (bills d) = [].
Proof.
  intros A. pose proof (bills_in_cycles g _ A) as F.
  induction F as [|b l [_ Hb] _ IH]; [reflexivity|]. cbn [filter].
  unfold in_cycle at 1.
  destruct (Z.eqb_spec (bill_cycle_id b)
              (next_rowid (cycles_seq d) (map cycle_id (cycles d)))) as [Eb|]; [|exact IH].
  apply (next_rowid_above_ids (cycles_seq d)) in Hb. lia.
Qed.

(** X10: an accepted opening command leaves a new cycle active, with an
    identifier no cycle had before, no entry and a summary of zeros; all
    entries are kept, and every older cycle of the group is inactive. *)
Theorem open_starts_empty
    (g : Z) (s s' : state) (u : Z) (a : bool) (now : nat -> timestamp)
    (faults : close_stmt -> bool) (offer : option Z) :
  reachable g s ->
  handle_command g u a now faults Words.open_cycle s = (ReplyOpened offer, s') ->
  exists c,
    select_active_cycle g (disk s') = Some c
    /\ ~ In c (map cycle_id (cycles (disk s)))
    /\ filter (in_cycle c) (bills (disk s')) = []
    /\ get_cycle_summary (disk s') c = mk_summary 0 0 0 0 0 0 [] []
    /\ bills (disk s') = bills (disk s)
    /\ active_cycles g (disk s)  = []
    /\ length (cycles (disk s')) = S (length (cycles (disk s)))
    /\ active_cycle_cache s' = None.
Proof.
  intros R H. pose proof (reachable_archive g s R) as A.
  apply reachable_consistent in R. rewrite command_open in H.
  destruct a; [|discriminate].
  rewrite (handle_open_consistent_eq g now s R) in H.
  destruct (select_active_cycle g (disk s)) as [c0|] eqn:S; [discriminate|].
  cbv zeta in H. injection H as _ <-. cbn [disk active_cycle_cache].
  set (c := next_rowid (cycles_seq (disk s)) (map cycle_id (cycles (disk s)))).
  assert (Fresh : ~ In c (map cycle_id (cycles (disk s)))).
  { intros Hin. apply (next_rowid_above_ids (cycles_seq (disk s))) in Hin.
    unfold c in Hin. lia. }
  assert (E : filter (in_cycle c) (bills (disk s)) = [])
    by apply (new_cycle_has_no_entry g _ A).
  exists c. split; [apply opened_selects_new|]. split; [exact Fresh|].
  split; [exact E|]. split.
  { unfold get_cycle_summary. cbn [insert_cycle bills deactivate_cycles].
    rewrite E. reflexivity. }
  split; [reflexivity|]. split; [apply select_active_cycle_none, S|].
  split; [|reflexivity].
  cbn [insert_cycle cycles deactivate_cycles]. rewrite length_app, length_map.
  simpl. lia.
Qed.

Lemma open_starts_empty_witness :
  let s := run Sample.group
             [Sample.said Words.open_cycle; Sample.said Sample.plus_900;
              Sample.said Words.close_cycle] initial_state in
  let r := handle_command Sample.group Sample.operator true Sample.clock no_fault
             Words.open_cycle s in
  reachable Sample.group s
  /\ r = (ReplyOpened (Some 900), snd r)
  /\ exists c, select_active_cycle Sample.group (disk (snd r)) = Some c
               /\ get_cycle_summary (disk (snd r)) c = mk_summary 0 0 0 0 0 0 [] [].
Proof.
  intros s r.
  assert (R : reachable Sample.group s) by (eexists; reflexivity).
  assert (H : r = (ReplyOpened (Some 900), snd r)) by reflexivity.
  destruct (open_starts_empty Sample.group s (snd r) Sample.operator true Sample.clock
              no_fault (Some 900) R H) as (c & H1 & _ & _ & H4 & _).
  split; [exact R|]. split; [exact H|]. exists c. split; assumption.
Defined.

(** X11: after an accepted closing command the group has no active cycle:
    the entry, balance, undo and closing commands and the import button are
    all refused for want of an active cycle, and none of them touches the
    file. *)
Theorem closed_group_refuses_entries
    (g : Z) (s s' : state) (u : Z) (a : bool) (now : nat -> timestamp)
    (faults : close_stmt -> bool) (sm : summary) :
  reachable g s ->
  handle_command g u a now faults Words.close_cycle s = (ReplyClosed sm, s') ->
  select_active_cycle g (disk s') = None
  /\ (forall u' now' faults' text cmd args,
        PyStr.split (PyStr.strip text) = cmd :: args ->
        PyStr.match_signed_digits cmd = true \/ cmd = Words.balance
        \/ cmd = Words.undo \/ cmd = Words.close_cycle ->
        fst (handle_command g u' true now' faults' text s') = ReplyNoActiveCycle
        /\ disk (snd (handle_command g u' true now' faults' text s')) = disk s')
  /\ (forall u' now' data fields v,
        PyStr.split_on 95 data [] = Words.importbalance :: fields ->
        map_int fields = Some [g; v] ->
        fst (button_callback g u' true now' data s') = CbNoActiveCycle
        /\ disk (snd (button_callback g u' true now' data s')) = disk s').
Proof.
  intros R H.
  assert (R' : reachable g s').
  { replace s' with (step g s (Message u a now faults Words.close_cycle))
      by (cbn [step]; rewrite H; reflexivity).
    apply reachable_step, R. }
  pose proof (reachable_consistent g s' R') as C'.
  assert (N : select_active_cycle g (disk s') = None).
  { apply reachable_consistent in R. rewrite command_close in H.
    destruct a; [|discriminate].
    rewrite (handle_close_consistent_eq g now faults s R) in H.
    destruct (select_active_cycle g (disk s)) as [c|] eqn:S; [|discriminate].
    cbv zeta in H.
    destruct (close_transaction faults now g c _ (connect (disk s)))
      as [[[]|] c'] eqn:T; [|discriminate].
    injection H as _ <-. apply close_transaction_done in T. destruct T as [D _].
    cbn [disk]. rewrite D. apply (closed_db_no_active_cycle g now c _ s R S). }
  split; [exact N|]. split.
  - intros u' now' faults' text cmd args Hs Hc.
    assert (T : text <> []) by (intros ->; discriminate).
    unfold handle_command. destruct text as [|ch text]; [contradiction|].
    rewrite Hs. destruct Hc as [M | [-> | [-> | ->]]].
    + destruct (signed_digits_not_word cmd M) as [-> ->]. rewrite M.
      rewrite (handle_entry_consistent_eq g u' now' cmd args s' C'), N.
      split; reflexivity.
    + cbn [PyStr.eqb Words.balance Words.open_cycle Words.close_cycle N.eqb Pos.eqb
           andb PyStr.match_signed_digits orb PyStr.isdecimal].
      rewrite (handle_balance_consistent_eq g u' now' args s' C'), N.
      split; reflexivity.
    + cbn [PyStr.eqb Words.undo Words.balance Words.open_cycle Words.close_cycle
           N.eqb Pos.eqb andb PyStr.match_signed_digits orb PyStr.isdecimal].
      rewrite (handle_undo_consistent_eq g s' C'), N. split; reflexivity.
    + cbn [PyStr.eqb Words.open_cycle Words.close_cycle N.eqb Pos.eqb andb].
      rewrite (handle_close_consistent_eq g now' faults' s' C'), N.
      split; reflexivity.
  - intros u' now' data fields v Hd Hm.
    rewrite (callback_import g u' true now' data fields v s' Hd Hm).
    rewrite (import_balance_consistent_eq g u' now' v s' C'), N. split; reflexivity.
Qed.

Lemma closed_group_refuses_entries_witness :
  let s := run Sample.group
             [Sample.said Words.open_cycle; Sample.said Sample.plus_900] initial_state in
  let r := handle_command Sample.group Sample.operator true Sample.clock no_fault
             Words.close_cycle s in
  reachable Sample.group s
  /\ r = (ReplyClosed (get_cycle_summary (disk s) 1), snd r)
  /\ fst (handle_command Sample.group Sample.operator true Sample.clock no_fault
            Sample.plus_1000 (snd r)) = ReplyNoActiveCycle.
Proof.
  intros s r.
  assert (R : reachable Sample.group s) by (eexists; reflexivity).
  assert (H : r = (ReplyClosed (get_cycle_summary (disk s) 1), snd r)) by reflexivity.
  destruct (closed_group_refuses_entries Sample.group s (snd r) Sample.operator true
              Sample.clock no_fault (get_cycle_summary (disk s) 1) R H) as (_ & A & _).
  destruct (A Sample.operator Sample.clock no_fault Sample.plus_1000
              [43; 49; 48; 48; 48]%N [] eq_refl (or_introl eq_refl)) as [A1 _].
  split; [exact R|]. split; [exact H | exact A1].
Defined.

(** ** The balance record of a cycle, as sequences of commands *)

Lemma balance_note_tagged rest : like_balance (balance_note rest) = true.
Proof.
  unfold like_balance, balance_note. apply startswith_app. reflexivity.
Qed.

Lemma no_balance_recorded c d :
  balance_recorded c d = false -> carry_over_entries d c = [].
Proof.
  unfold balance_recorded, carry_over_entries.
  induction (bills d) as [|b l IH]; [reflexivity|]. cbn [existsb filter].
  destruct (in_cycle c b && is_balance b); [discriminate | exact IH].
Qed.

Lemma balance_recorded_bills c d d' :
  bills d' = bills d -> balance_recorded c d' = balance_recorded c d.
Proof. unfold balance_recorded. intros ->. reflexivity. Qed.

(** The summary after a tagged entry was appended to a cycle without one. *)
Lemma summary_after_first_balance c g u v note t d :
  like_balance note = true -> balance_recorded c d = false ->
  previous_balance (get_cycle_summary (insert_bill c g u v note t d) c) = v
  /\ net_balance (get_cycle_summary (insert_bill c g u v note t d) c)
     = net_balance (get_cycle_summary d c) + v
  /\ total_deposits (get_cycle_summary (insert_bill c g u v note t d) c)
     = total_deposits (get_cycle_summary d c)
  /\ total_withdrawals (get_cycle_summary (insert_bill c g u v note t d) c)
     = total_withdrawals (get_cycle_summary d c)
  /\ balance_recorded c (insert_bill c g u v note t d) = true.
Proof.
  intros T B.
  destruct (summary_with_tagged_entry d (insert_bill c g u v note t d) c
              (mk_bill (next_rowid (bills_seq d) (map bill_id (bills d))) c g u v note t)
              (bills d) [] eq_refl (eq_sym (app_nil_r _)) eq_refl T)
    as (T1 & _ & T3 & _ & _ & _ & T7 & T8 & T9).
  cbn [amount] in T7, T8.
  rewrite (summary_previous_balance d c), (no_balance_recorded c d B) in T7.
  repeat split; assumption.
Qed.

Lemma first_balance_fits c v note d :
  like_balance note = true -> balance_recorded c d = false ->
  entry_fits d c v note = int64 v.
Proof.
  intros T B. unfold entry_fits. cbv zeta. rewrite T.
  rewrite (summary_previous_balance d c), (no_balance_recorded c d B).
  cbn [map sum_Z fold_right Z.add]. apply andb_diag.
Qed.

(** X12: a cycle takes one balance record.  In a cycle without one, the
    balance command is accepted when its amount is inside the 64 bits of the
    store, and raises an exception that is not caught, with no change to the
    file, when it is not.  Once it is accepted, the previous balance of the
    summary is the amount given; from then on the balance command and the
    import button are refused and change nothing, until the undo command
    takes the record away, after which an import of an amount inside the 64
    bits is accepted again, and one outside is answered by the failure
    text. *)
Theorem balance_recorded_once_until_undone
    (g : Z) (s : state) (c u v : Z) (now : nat -> timestamp)
    (faults : close_stmt -> bool) (text a0 : pystr) (rest : list pystr) :
  reachable g s ->
  select_active_cycle g (disk s) = Some c ->
  balance_recorded c (disk s) = false ->
  PyStr.split (PyStr.strip text) = Words.balance :: a0 :: rest ->
  PyStr.int a0 = Some v ->
  let s1 := snd (handle_command g u true now faults text s) in
  (if int64 v
   then exists sm,
          fst (handle_command g u true now faults text s) = ReplyBalanceRecorded sm
          /\ previous_balance sm = v
          /\ net_balance sm = net_balance (get_cycle_summary (disk s) c) + v
   else fst (handle_command g u true now faults text s) = Uncaught
        /\ disk s1 = disk s)
  /\ (int64 v = true ->
      (forall u' now' faults' text' a0' rest' v',
          PyStr.split (PyStr.strip text') = Words.balance :: a0' :: rest' ->
          PyStr.int a0' = Some v' ->
          fst (handle_command g u' true now' faults' text' s1) = ReplyAlreadyRecorded
          /\ disk (snd (handle_command g u' true now' faults' text' s1)) = disk s1)
      /\ (forall u' now' data fields v',
            PyStr.split_on 95 data [] = Words.importbalance :: fields ->
            map_int fields = Some [g; v'] ->
            fst (button_callback g u' true now' data s1) = CbAlreadyImported
            /\ disk (snd (button_callback g u' true now' data s1)) = disk s1)
      /\ (forall u' now' faults' u'' now'' data fields v'',
            PyStr.split_on 95 data [] = Words.importbalance :: fields ->
            map_int fields = Some [g; v''] ->
            let s2 := snd (handle_command g u' true now' faults' Words.undo s1) in
            bills (disk s2) = bills (disk s)
            /\ if int64 v''
               then exists sm',
                      fst (button_callback g u'' true now'' data s2)
                      = CbImported v'' sm'
                      /\ previous_balance sm' = v''
               else fst (button_callback g u'' true now'' data s2) = CbImportFailed
                    /\ disk (snd (button_callback g u'' true now'' data s2))
                       = disk s2)).
Proof.
  intros R S B H I s1. pose proof (reachable_consistent g s R) as C.
  pose proof (first_balance_fits c v (balance_note rest) (disk s)
                (balance_note_tagged rest) B) as Fit.
  assert (E0 : handle_command g u true now faults text s
               = if int64 v
                 then (ReplyBalanceRecorded
                         (get_cycle_summary
                            (insert_bill c g u v (balance_note rest) (now 0%nat)
                               (disk s)) c),
                       mk_state (insert_bill c g u v (balance_note rest) (now 0%nat)
                                   (disk s)) (Some c))
                 else (Uncaught, mk_state (disk s) (Some c))).
  { rewrite (command_balance g u true now faults text (a0 :: rest) s H).
    rewrite (handle_balance_consistent_eq g u now (a0 :: rest) s C), S, I, B.
    cbv zeta. rewrite Fit. reflexivity. }
  destruct (summary_after_first_balance c g u v (balance_note rest) (now 0%nat) (disk s)
              (balance_note_tagged rest) B) as (P1 & P2 & _ & _ & P5).
  split.
  { unfold s1. rewrite E0. destruct (int64 v).
    - eexists. split; [reflexivity | split; assumption].
    - split; reflexivity. }
  intros V. rewrite V in E0, Fit.
  assert (C1 : consistent g s1).
  { unfold s1. rewrite E0. cbn [snd]. apply fitting_entry_inserted; assumption. }
  assert (S1 : select_active_cycle g (disk s1) = Some c).
  { unfold s1. rewrite E0. cbn [snd disk]. rewrite <- S.
    apply select_active_cycle_cycles. reflexivity. }
  assert (B1 : balance_recorded c (disk s1) = true).
  { unfold s1. rewrite E0. exact P5. }
  split.
  { intros u' now' faults' text' a0' rest' v' H' I'.
    rewrite (command_balance g u' true now' faults' text' (a0' :: rest') s1 H').
    rewrite (handle_balance_consistent_eq g u' now' (a0' :: rest') s1 C1), S1, I', B1.
    split; reflexivity. }
  split.
  { intros u' now' data fields v' Hd Hm.
    rewrite (callback_import g u' true now' data fields v' s1 Hd Hm).
    rewrite (import_balance_consistent_eq g u' now' v' s1 C1), S1, B1.
    split; reflexivity. }
  intros u' now' faults' u'' now'' data fields v'' Hd Hm s2.
  assert (U : bills (disk s2) = bills (disk s)).
  { unfold s2, s1. rewrite E0, command_undo. cbn [snd].
    apply (undo_after_insert g s c u v _ _ C S Fit). }
  assert (C2 : consistent g s2).
  { unfold s2. apply handle_command_keeps, C1. }
  assert (S2 : select_active_cycle g (disk s2) = Some c).
  { unfold s2. rewrite command_undo, (handle_undo_consistent_eq g s1 C1), S1.
    destruct (select_last_bill c (disk s1)); cbn [snd disk]; rewrite <- S1;
      [apply select_active_cycle_cycles|]; reflexivity. }
  assert (B2 : balance_recorded c (disk s2) = false).
  { rewrite (balance_recorded_bills c (disk s) (disk s2) U). exact B. }
  split; [exact U|].
  rewrite (callback_import g u'' true now'' data fields v'' s2 Hd Hm).
  rewrite (import_balance_consistent_eq g u'' now'' v'' s2 C2), S2, B2.
  cbv zeta.
  rewrite (first_balance_fits c v'' Words.auto_import_note (disk s2) eq_refl B2).
  destruct (int64 v'').
  - eexists. split; [reflexivity|].
    apply (summary_after_first_balance c g u'' v'' Words.auto_import_note (now'' 0%nat)
             (disk s2) eq_refl B2).
  - split; reflexivity.
Qed.

Lemma balance_recorded_once_until_undone_witness :
  let s := run Sample.group
             [Sample.said Words.open_cycle; Sample.said Sample.plus_1000]
             initial_state in
  let r := handle_command Sample.group Sample.operator true Sample.clock no_fault
             Sample.balance_200 s in
  reachable Sample.group s
  /\ select_active_cycle Sample.group (disk s) = Some 1
  /\ balance_recorded 1 (disk s) = false
  /\ (exists sm, fst r = ReplyBalanceRecorded sm /\ previous_balance sm = 200)
  /\ fst (handle_command Sample.group Sample.operator true Sample.clock no_fault
            Sample.balance_200 (snd r)) = ReplyAlreadyRecorded.
Proof.
  intros s r.
  assert (R : reachable Sample.group s) by (eexists; reflexivity).
  assert (S : select_active_cycle Sample.group (disk s) = Some 1) by reflexivity.
  assert (B : balance_recorded 1 (disk s) = false) by reflexivity.
  destruct (balance_recorded_once_until_undone Sample.group s 1 Sample.operator 200
              Sample.clock no_fault Sample.balance_200 [43; 50; 48; 48]%N [] R S B
              eq_refl eq_refl) as (A0 & A).
  change (int64 200) with true in A0. cbv iota in A0.
  destruct A0 as (sm & A1 & A2 & _).
  destruct (A eq_refl) as (A3 & _).
  destruct (A3 Sample.operator Sample.clock no_fault Sample.balance_200
              [43; 50; 48; 48]%N [] 200 eq_refl eq_refl) as [A4 _].
  split; [exact R|]. split; [exact S|]. split; [exact B|].
  split; [exists sm; split; assumption | exact A4].
Defined.

Lemma no_entry_no_balance c d :
  filter (in_cycle c) (bills d) = [] -> balance_recorded c d = false.
Proof.
  unfold balance_recorded. induction (bills d) as [|b l IH]; [reflexivity|].
  cbn [filter existsb]. destruct (in_cycle c b); [discriminate | exact IH].
Qed.

(** X13: a balance that is not zero is carried from a cycle to the next one
    by the button.  After an accepted closing command with net balance [n],
    the opening command offers the import of [n]; pressing that button in the
    new cycle records one carry-over entry, and the summary of the new cycle
    then has previous balance [n] and net balance [n], with no deposit and no
    withdrawal.  The button is the one the handler builds, in a group whose
    identifier an f-string formats, as it does those of the chat service. *)
Theorem carried_balance_round_trip
    (g : Z) (s s1 : state) (u : Z) (a : bool) (now : nat -> timestamp)
    (faults : close_stmt -> bool) (sm : summary) :
  reachable g s ->
  handle_command g u a now faults Words.close_cycle s = (ReplyClosed sm, s1) ->
  net_balance sm <> 0 ->
  forall u' now' faults' u'' now'',
    let r2 := handle_command g u' true now' faults' Words.open_cycle s1 in
    fst r2 = ReplyOpened (Some (net_balance sm))
    /\ (PyStr.str_fits g = true ->
        exists sm',
          fst (button_callback g u'' true now''
                 (importbalance_data g (net_balance sm)) (snd r2))
          = CbImported (net_balance sm) sm'
          /\ previous_balance sm' = net_balance sm
          /\ net_balance sm' = net_balance sm
          /\ total_deposits sm' = 0 /\ total_withdrawals sm' = 0).
Proof.
  intros R H N u' now' faults' u'' now''. cbv zeta.
  assert (R1 : reachable g s1).
  { replace s1 with (step g s (Message u a now faults Words.close_cycle))
      by (cbn [step]; rewrite H; reflexivity).
    apply reachable_step, R. }
  pose proof (reachable_consistent g s1 R1) as C1.
  pose proof (reachable_archive g s1 R1) as A1.
  pose proof (reachable_consistent g s R) as C.
  rewrite command_close in H. destruct a; [|discriminate].
  rewrite (handle_close_consistent_eq g now faults s C) in H.
  destruct (select_active_cycle g (disk s)) as [c|] eqn:S; [|discriminate].
  cbv zeta in H.
  destruct (close_transaction faults now g c _ (connect (disk s)))
    as [[[]|] c'] eqn:T; [|discriminate].
  injection H as <- <-. apply close_transaction_done in T.
  destruct T as (D & _ & Fits).
  set (n := net_balance (get_cycle_summary (disk s) c)) in *.
  assert (I64 : int64 n = true).
  { apply Fits. destruct (Z.eqb_spec n 0); [contradiction | reflexivity]. }
  clear Fits. cbn [disk] in A1. rewrite D in *.
  set (d1 := closed_db now g c n (disk s)) in *.
  assert (S1 : select_active_cycle g d1 = None)
    by apply (closed_db_no_active_cycle g now c n s C S).
  assert (P : get_previous_balance g d1 = n).
  { rewrite get_previous_balance_rows. unfold d1.
    rewrite closed_db_balance_rows. destruct (Z.eqb_spec n 0); [contradiction|].
    reflexivity. }
  assert (E2 : handle_command g u' true now' faults' Words.open_cycle (mk_state d1 None)
               = (ReplyOpened (Some n),
                  mk_state (insert_cycle g (now' 0%nat) true (deactivate_cycles g d1))
                    None)).
  { rewrite command_open, (handle_open_consistent_eq g now' _ C1).
    cbn [disk]. rewrite S1. cbv zeta.
    change (get_previous_balance g
              (insert_cycle g (now' 0%nat) true (deactivate_cycles g d1)))
      with (get_previous_balance g d1).
    rewrite P. destruct (Z.eqb_spec n 0); [contradiction | reflexivity]. }
  rewrite E2. cbn [fst snd]. split; [reflexivity|].
  set (d2 := insert_cycle g (now' 0%nat) true (deactivate_cycles g d1)).
  assert (C2 : consistent g (mk_state d2 None)) by apply (consistent_opened g _ _ C1).
  set (c2 := next_rowid (cycles_seq d1) (map cycle_id (cycles d1))).
  assert (S2 : select_active_cycle g d2 = Some c2) by apply opened_selects_new.
  assert (Z2 : filter (in_cycle c2) (bills d2) = [])
    by apply (new_cycle_has_no_entry g d1 A1).
  assert (B2 : balance_recorded c2 d2 = false) by apply (no_entry_no_balance c2 d2 Z2).
  intros Fg.
  rewrite (import_button_decodes g g n u'' true now'' _ Fg (int64_str_fits n I64)).
  rewrite Z.eqb_refl.
  rewrite (import_balance_consistent_eq g u'' now'' n _ C2). cbn [disk].
  rewrite S2, B2. cbv zeta.
  rewrite (first_balance_fits c2 n Words.auto_import_note d2 eq_refl B2), I64.
  eexists. split; [reflexivity|].
  destruct (summary_after_first_balance c2 g u'' n Words.auto_import_note (now'' 0%nat)
              d2 eq_refl B2) as (Q1 & Q2 & Q3 & Q4 & _).
  assert (Zero : get_cycle_summary d2 c2 = mk_summary 0 0 0 0 0 0 [] []).
  { unfold get_cycle_summary. rewrite Z2. reflexivity. }
  rewrite Zero in Q2, Q3, Q4. cbn in Q2, Q3, Q4.
  repeat split; assumption.
Qed.

Lemma carried_balance_round_trip_witness :
  let s := run Sample.group
             [Sample.said Words.open_cycle; Sample.said Sample.plus_900] initial_state in
  let r1 := handle_command Sample.group Sample.operator true Sample.clock no_fault
              Words.close_cycle s in
  let r2 := handle_command Sample.group Sample.operator true Sample.clock no_fault
              Words.open_cycle (snd r1) in
  reachable Sample.group s
  /\ r1 = (ReplyClosed (get_cycle_summary (disk s) 1), snd r1)
  /\ net_balance (get_cycle_summary (disk s) 1) <> 0
  /\ fst r2 = ReplyOpened (Some 900)
  /\ exists sm', fst (button_callback Sample.group Sample.operator true Sample.clock
                        (importbalance_data Sample.group 900) (snd r2))
                 = CbImported 900 sm'
                 /\ net_balance sm' = 900.
Proof.
  intros s r1 r2.
  assert (R : reachable Sample.group s) by (eexists; reflexivity).
  assert (H : r1 = (ReplyClosed (get_cycle_summary (disk s) 1), snd r1)) by reflexivity.
  assert (N : net_balance (get_cycle_summary (disk s) 1) <> 0) by discriminate.
  destruct (carried_balance_round_trip Sample.group s (snd r1) Sample.operator true
              Sample.clock no_fault (get_cycle_summary (disk s) 1) R H N
              Sample.operator Sample.clock no_fault Sample.operator Sample.clock)
    as (A1 & A).
  destruct (A eq_refl) as (sm' & A2 & _ & A3 & _).
  split; [exact R|]. split; [exact H|]. split; [exact N|]. split; [exact A1|].
  exists sm'. split; [exact A2 | exact A3].
Defined.

(** ** What an unauthorized actor can do *)

(** The ledger branches, told that the actor has no right to write, leave
    the ledger state as it was. *)
Lemma unauthorized_ledger_untouched
    (g u : Z) (now : nat -> timestamp) (faults : close_stmt -> bool)
    (text data : pystr) (s : state) :
  snd (handle_command g u false now faults text s) = s
  /\ snd (button_callback g u false now data s) = s
  /\ (fst (handle_command g u false now faults text s) = NoReply
      \/ fst (handle_command g u false now faults text s) = Uncaught
      \/ fst (handle_command g u false now faults text s) = ReplyUnauthorized
      \/ fst (handle_command g u false now faults text s) = ReplyOther).
Proof.
  split; [|split].
  - unfold handle_command. destruct text as [|ch text]; [reflexivity|].
    destruct (PyStr.split _) as [|cmd args]; [reflexivity|].
    repeat match goal with
           | |- context [if ?b then _ else _] => destruct b
           end; reflexivity.
  - unfold button_callback.
    destruct (PyStr.split_on _ _ _) as [|action fields]; [reflexivity|].
    destruct (PyStr.eqb action Words.details).
    + destruct (map_int fields) as [[|x [|y [|z [|w l]]]]|]; try reflexivity.
      destruct (_ =? _); [|reflexivity]. unfold show_details.
      destruct (_ || _); reflexivity.
    + destruct (PyStr.eqb action Words.importbalance); [|reflexivity].
      destruct (map_int fields) as [[|x [|y [|z l]]]|]; try reflexivity.
      destruct (_ =? _); reflexivity.
  - unfold handle_command. destruct text as [|ch text]; [left; reflexivity|].
    destruct (PyStr.split _) as [|cmd args]; [right; left; reflexivity|].
    repeat match goal with
           | |- context [if ?b then _ else _] => destruct b
           end; cbn; auto.
Qed.

(** ** The amount and the note of an entry *)

Lemma lstrip_keeps_last l c :
  PyStr.int_space c = false -> exists t, PyStr.int_lstrip (l ++ [c]) = t ++ [c].
Proof.
  intros Hc. induction l as [|x l [t IH]]; cbn [app PyStr.int_lstrip].
  - rewrite Hc. exists []. reflexivity.
  - destruct (PyStr.int_space x); [exists t; exact IH | exists (x :: l); reflexivity].
Qed.

Lemma strip_keeps_head c r :
  PyStr.int_space c = false -> exists r', PyStr.int_strip (c :: r) = c :: r'.
Proof.
  intros Hc. unfold PyStr.int_strip. cbn [PyStr.int_lstrip]. rewrite Hc. cbn [rev].
  destruct (lstrip_keeps_last (rev r) c Hc) as [t ->].
  rewrite rev_app_distr. cbn [rev app]. eauto.
Qed.

Lemma int_digits_lower s :
  forall acc b v, 0 <= acc -> PyStr.int_digits s acc b = Some v -> 0 <= v.
Proof.
  induction s as [|c r IH]; intros acc b v Ha; cbn [PyStr.int_digits].
  - destruct b; [intros [= <-]; exact Ha | discriminate].
  - destruct (PyStr.isdecimal c) eqn:D.
    + apply IH. pose proof (digit_value_bounds c). lia.
    + destruct (N.eqb c 95 && b); [|discriminate].
      destruct r as [|c' r']; [discriminate | apply IH, Ha].
Qed.

(** X15: the amount an entry command stores has the sign the command was
    written with, in whatever decimal digits it is written: never negative
    after [+], never positive after [-].  The note it stores is never empty
    and never longer than 255 characters. *)
Theorem entry_amount_and_note (cmd : pystr) (args : list pystr) (v : Z) :
  PyStr.match_signed_digits cmd = true ->
  PyStr.int cmd = Some v ->
  ((exists r, cmd = 43%N :: r /\ 0 <= v) \/ (exists r, cmd = 45%N :: r /\ v <= 0))
  /\ (1 <= length (entry_note args) <= 255)%nat.
Proof.
  intros M I. apply int_some in I. split.
  - destruct cmd as [|c [|d r]]; try discriminate. cbn [PyStr.match_signed_digits] in M.
    apply andb_prop in M. destruct M as [M _]. apply orb_prop in M.
    destruct M as [M|M]; apply N.eqb_eq in M; subst c.
    + left. exists (d :: r). split; [reflexivity|].
      destruct (strip_keeps_head 43 (d :: r) eq_refl) as [r' E].
      rewrite E in I. unfold PyStr.int_literal in I.
      apply (int_digits_lower r' 0 false v); [lia | exact I].
    + right. exists (d :: r). split; [reflexivity|].
      destruct (strip_keeps_head 45 (d :: r) eq_refl) as [r' E].
      rewrite E in I. unfold PyStr.int_literal in I. cbv iota beta in I.
      destruct (PyStr.int_digits r' 0 false) as [w|] eqn:W; [|discriminate].
      injection I as <-. apply int_digits_lower in W; lia.
  - unfold entry_note, PyStr.or_else.
    pose proof (firstn_le_length 255 (PyStr.join Words.space args)) as L.
    destruct (firstn 255 (PyStr.join Words.space args)); simpl in *; lia.
Qed.

(** [-١٢], in Arabic-Indic digits, stores -12. *)
Lemma entry_amount_and_note_witness :
  PyStr.int [45; 1633; 1634]%N = Some (-12)
  /\ (exists r, [45; 1633; 1634]%N = 45%N :: r /\ -12 <= 0)
  /\ (1 <= length (entry_note []) <= 255)%nat.
Proof.
  destruct (entry_amount_and_note [45; 1633; 1634]%N [] (-12) eq_refl eq_refl)
    as [[(r & E & _) | H] L]; [discriminate E|].
  split; [reflexivity|]. split; [exact H | exact L].
Defined.

(** ** Administrators: the cache of is_admin *)

(** int() reads the decimal digits of every script, and takes the blanks
    that strip() takes but for the four separators U+001C to U+001F: [+5٣]
    is 53, [ -١٢ ] is -12, and a text that starts with U+001C is no
    number. *)
Example int_reads_decimal_digits :
  PyStr.int [43; 53; 1635]%N = Some 53
  /\ PyStr.int [32; 45; 1633; 1634; 32]%N = Some (-12)
  /\ PyStr.int [28; 53]%N = None
  /\ PyStr.int [53; 95; 53]%N = Some 55
  /\ PyStr.int [43; 32; 53]%N = None.
Proof. vm_compute. repeat split. Qed.

(** int() reads a literal of 4300 digits and refuses one of 4301. *)
Example int_refuses_long_literals :
  PyStr.int (43%N :: repeat 49%N (N.to_nat 4300)) <> None
  /\ PyStr.int (43%N :: repeat 49%N (N.to_nat 4301)) = None.
Proof. split; vm_compute; [discriminate | reflexivity]. Qed.

(** X16: while the cached list of administrators is at most 600 s old, any
    series of is_admin calls answers from that list without asking the chat
    service, and keeps the entry.  While the chat service fails, every call
    answers from the entry as it is, however old, keeps it, and answers no
    when there is none.  A call that gets a list from the chat service
    answers from that list and caches it. *)
Theorem is_admin_cache_behaviour (cs : list admin_call) (cache : option admins_entry) :
  (forall e, cache = Some e ->
     Forall (fun c => call_clock c 0%nat - fetched_at e <= ttl) cs ->
     admin_calls cs cache
     = (map (fun c => (mem (call_user c) (admin_ids e), false)) cs, cache))
  /\ (Forall (fun c => call_directory c = None) cs ->
      map fst (fst (admin_calls cs cache))
      = map (fun c => cached_answer (call_user c) cache) cs
      /\ snd (admin_calls cs cache) = cache)
  /\ (forall user clock ids,
        snd (is_admin user clock (Some ids) cache) = true ->
        fst (fst (is_admin user clock (Some ids) cache)) = mem user ids
        /\ exists t, snd (fst (is_admin user clock (Some ids) cache))
                     = Some (mk_admins ids t)).
Proof.
  split; [|split].
  - intros e -> F. induction F as [|c cs Hc _ IH]; [reflexivity|].
    cbn [admin_calls is_admin].
    destruct (Z.gtb_spec (call_clock c 0%nat - fetched_at e) ttl); [lia|].
    rewrite IH. reflexivity.
  - intros F. induction F as [|c cs Hc _ [IH1 IH2]]; [split; reflexivity|].
    cbn [admin_calls]. rewrite Hc.
    assert (E : is_admin (call_user c) (call_clock c) None cache
                = (cached_answer (call_user c) cache, cache,
                   snd (is_admin (call_user c) (call_clock c) None cache))).
    { unfold is_admin, cached_answer. destruct cache as [e|]; [|reflexivity].
      destruct (_ >? _); reflexivity. }
    rewrite E. destruct (admin_calls cs cache) as [rest final].
    cbn [fst snd map] in *. split; [f_equal; exact IH1 | exact IH2].
  - intros user clock ids. unfold is_admin. destruct cache as [e|].
    + destruct (_ >? _); cbn [fst snd]; [|discriminate].
      intros _. split; [reflexivity | eauto].
    + cbn [fst snd]. intros _. split; [reflexivity | eauto].
Qed.

Lemma is_admin_cache_behaviour_witness :
  let e := mk_admins [5; 9] 1000 in
  let c1 := mk_admin_call 9 (fun _ => 600001000) None in
  let c2 := mk_admin_call 4 (fun _ => 2000) (Some [4]) in
  admin_calls [c1; c2] (Some e) = ([(true, false); (false, false)], Some e)
  /\ snd (admin_calls [mk_admin_call 9 (fun _ => 700000000) None] (Some e)) = Some e.
Proof.
  intros e c1 c2.
  destruct (is_admin_cache_behaviour [c1; c2] (Some e)) as (A & _).
  destruct (is_admin_cache_behaviour [mk_admin_call 9 (fun _ => 700000000) None]
              (Some e)) as (_ & B & _).
  split.
  - apply (A e eq_refl). repeat constructor; vm_compute; discriminate.
  - apply B. repeat constructor.
Defined.

(** ** The users table *)

Lemma pystr_eqb_eq a b : PyStr.eqb a b = true <-> a = b.
Proof.
  revert b. induction a as [|x a IH]; intros [|y b]; cbn [PyStr.eqb];
    try (split; [discriminate | discriminate]); [tauto|].
  rewrite andb_true_iff, N.eqb_eq, IH. split; [intros [-> ->]; reflexivity|].
  intros [= -> ->]. tauto.
Qed.

Lemma pystr_eqb_refl a : PyStr.eqb a a = true.
Proof. apply pystr_eqb_eq. reflexivity. Qed.

Lemma existsb_false_forall {A} (p : A -> bool) (l : list A) :
  existsb p l = false <-> forall x, In x l -> p x = false.
Proof.
  induction l as [|a l IH]; cbn [existsb]; [split; [intros _ x [] | reflexivity]|].
  rewrite orb_false_iff, IH. split.
  - intros [Ha H] x [<-|Hx]; auto.
  - intros H. split; [apply H; left; reflexivity | intros x Hx; apply H; right; exact Hx].
Qed.

Lemma select_user_in id name l :
  NoDup (map snd l) -> In (id, name) l -> select_user name l = Some id.
Proof.
  unfold select_user. induction l as [|r l IH]; cbn [map find]; [intros _ []|].
  intros N Hin. inversion N as [|? ? Hn Hl]; subst.
  destruct (PyStr.eqb (snd r) name) eqn:E.
  - apply pystr_eqb_eq in E. destruct Hin as [->|Hin]; [reflexivity|].
    exfalso. apply Hn. rewrite E. apply (in_map snd _ _ Hin).
  - destruct Hin as [->|Hin]; [cbn [snd] in E; rewrite pystr_eqb_refl in E; discriminate|].
    apply IH; assumption.
Qed.

Lemma select_user_found name l id :
  select_user name l = Some id -> In (id, name) l.
Proof.
  unfold select_user. destruct (find _ l) as [r|] eqn:F; [|discriminate].
  intros [= <-]. apply find_some in F. destruct F as [Hin E].
  apply pystr_eqb_eq in E. destruct r; cbn [fst snd] in *; subst. exact Hin.
Qed.

Lemma upsert_update_rows id name l :
  ~ In id (map fst l) ->
  map (fun r : Z * pystr => if fst r =? id then (id, name) else r) l = l.
Proof.
  intros H. rewrite <- (map_id l) at 2. apply map_ext_in. intros r Hr.
  destruct (Z.eqb_spec (fst r) id) as [E|]; [|reflexivity].
  exfalso. apply H. rewrite <- E. apply in_map, Hr.
Qed.

Lemma upsert_rows_names id name l :
  NoDup (map fst l) -> NoDup (map snd l) ->
  (forall r, In r l -> fst r <> id -> snd r <> name) ->
  NoDup (map snd (map (fun r : Z * pystr => if fst r =? id then (id, name) else r) l)).
Proof.
  set (f := fun r : Z * pystr => if fst r =? id then (id, name) else r).
  induction l as [|r l IH]; cbn [map]; [constructor|].
  rewrite !NoDup_cons_iff. intros [Hi Ni] [Hn Nn] Other.
  split; [|apply IH; [exact Ni | exact Nn | intros x Hx; apply Other; right; exact Hx]].
  intros Hin. apply in_map_iff in Hin. destruct Hin as (x & Ex & Hx).
  apply in_map_iff in Hx. destruct Hx as (r' & <- & Hr').
  unfold f in Ex.
  destruct (Z.eqb_spec (fst r') id) as [E'|E'], (Z.eqb_spec (fst r) id) as [E|E];
    cbn [snd] in Ex.
  - apply Hi. rewrite E, <- E'. apply in_map, Hr'.
  - apply (Other r (or_introl eq_refl) E). congruence.
  - apply (Other r' (or_intror Hr') E'). congruence.
  - apply Hn. rewrite <- Ex. apply in_map, Hr'.
Qed.

Lemma upsert_rows_in id name l x :
  In x (map (fun r : Z * pystr => if fst r =? id then (id, name) else r) l)
  <-> (x = (id, name) /\ In id (map fst l)) \/ (In x l /\ fst x <> id).
Proof.
  rewrite in_map_iff. split.
  - intros (r & <- & Hr). destruct (Z.eqb_spec (fst r) id) as [E|E].
    + left. split; [reflexivity|]. rewrite <- E. apply in_map, Hr.
    + right. split; assumption.
  - intros [[-> H] | [H N]].
    + apply in_map_iff in H. destruct H as (r & E & Hr). exists r.
      rewrite E, Z.eqb_refl. split; [reflexivity | exact Hr].
    + exists x. destruct (Z.eqb_spec (fst x) id); [contradiction|].
      split; [reflexivity | exact H].
Qed.

Lemma upsert_rows_ids id name l :
  map fst (map (fun r : Z * pystr => if fst r =? id then (id, name) else r) l)
  = map fst l.
Proof.
  rewrite map_map. apply map_ext. intros r.
  destruct (Z.eqb_spec (fst r) id) as [E|]; [symmetry; exact E | reflexivity].
Qed.

Lemma upsert_user_done id name l l' :
  NoDup (map fst l) -> NoDup (map snd l) ->
  upsert_user id name l = Done l' ->
  NoDup (map fst l') /\ NoDup (map snd l') /\ In (id, name) l'
  /\ (forall id' n', id' <> id -> (In (id', n') l' <-> In (id', n') l))
  /\ (forall id', In id' (map fst l') <-> id' = id \/ In id' (map fst l)).
Proof.
  intros Ni Nn. unfold upsert_user.
  destruct (existsb (fun r => negb (fst r =? id) && PyStr.eqb (snd r) name) l) eqn:X;
    [discriminate|].
  assert (Other : forall r, In r l -> fst r <> id -> snd r <> name).
  { intros r Hr Hne E. rewrite existsb_false_forall in X. specialize (X r Hr).
    destruct (Z.eqb_spec (fst r) id); [contradiction|]. cbn [negb andb] in X.
    apply pystr_eqb_eq in E. congruence. }
  destruct (existsb (fun r => fst r =? id) l) eqn:Y; intros [= <-].
  - assert (Hid : In id (map fst l)).
    { apply existsb_exists in Y. destruct Y as (r0 & Hr0 & E0).
      apply Z.eqb_eq in E0. rewrite <- E0. apply in_map, Hr0. }
    split; [rewrite upsert_rows_ids; exact Ni|].
    split; [apply upsert_rows_names; assumption|].
    split; [apply upsert_rows_in; left; split; [reflexivity | exact Hid]|].
    split.
    + intros id' n' Hne. rewrite upsert_rows_in. cbn [fst]. split.
      * intros [[E _] | [H _]]; [congruence | exact H].
      * intros H. right. split; assumption.
    + intros id'. rewrite upsert_rows_ids. split; [auto|].
      intros [->|H]; assumption.
  - rewrite !map_app. cbn [map fst snd].
    assert (Hid : ~ In id (map fst l)).
    { intros Hin. apply in_map_iff in Hin. destruct Hin as (r & Er & Hr).
      rewrite existsb_false_forall in Y. specialize (Y r Hr). cbv beta in Y. lia. }
    split; [apply NoDup_app; [exact Ni | repeat constructor; intros [] |];
            intros x Hx [<-|[]]; contradiction|].
    split.
    { apply NoDup_app; [exact Nn | repeat constructor; intros [] |].
      intros x Hx [<-|[]]. apply in_map_iff in Hx. destruct Hx as (r & Er & Hr).
      apply (Other r Hr); [|exact Er]. intros E. apply Hid. rewrite <- E.
      apply in_map, Hr. }
    split; [apply in_or_app; right; left; reflexivity|]. split.
    + intros id' n' Hne. rewrite in_app_iff. split; [|intros H; left; exact H].
      intros [H|[H|[]]]; [exact H | congruence].
    + intros id'. rewrite in_app_iff. split.
      * intros [H|[H|[]]]; auto.
      * intros [->|H]; [right; left; reflexivity | left; exact H].
Qed.

Lemma nodup_map_injective' (l : list (Z * pystr)) (i j : Z) (n : pystr) :
  NoDup (map snd l) -> In (i, n) l -> In (j, n) l -> i = j.
Proof.
  induction l as [|r l IH]; cbn [map]; [intros _ []|].
  rewrite NoDup_cons_iff. intros [Hn N] [Hi|Hi] [Hj|Hj].
  - congruence.
  - exfalso. apply Hn. subst r. apply (in_map snd _ _ Hj).
  - exfalso. apply Hn. subst r. apply (in_map snd _ _ Hi).
  - apply IH; assumption.
Qed.

(** X17: record_user on a table with distinct identifiers and distinct names.
    A user without a name is not recorded.  A user with the name [n] is
    recorded as [@n], under a new row or in place of the former name, and is
    then the one found under [@n]; the rows of the other users are kept, and
    identifiers and names stay distinct.  When another user already holds
    [@n], the statement raises and the table is not changed. *)
Theorem record_user_outcome (usr : tg_user) (l : list (Z * pystr)) :
  NoDup (map fst l) -> NoDup (map snd l) ->
  (tg_username usr = None \/ tg_username usr = Some [] ->
     record_user (Some usr) l = Done l)
  /\ (forall name, tg_username usr = Some name -> name <> [] ->
        match record_user (Some usr) l with
        | Raised => exists other, other <> tg_id usr /\ In (other, 64%N :: name) l
        | Done l' =>
            NoDup (map fst l') /\ NoDup (map snd l')
            /\ select_user (64%N :: name) l' = Some (tg_id usr)
            /\ (forall id' n', id' <> tg_id usr ->
                  (In (id', n') l' <-> In (id', n') l))
            /\ (forall other, In (other, 64%N :: name) l -> other = tg_id usr)
        end).
Proof.
  intros Ni Nn. split.
  - intros [E|E]; unfold record_user; rewrite E; reflexivity.
  - intros name E Hne. unfold record_user. rewrite E.
    destruct name as [|ch name]; [contradiction|].
    destruct (upsert_user (tg_id usr) (64%N :: ch :: name) l) as [l'|] eqn:U.
    + destruct (upsert_user_done _ _ _ _ Ni Nn U) as (H1 & H2 & H3 & H4 & _).
      split; [exact H1|]. split; [exact H2|].
      split; [apply select_user_in; assumption|]. split; [exact H4|].
      intros other Hin. destruct (Z.eq_dec other (tg_id usr)) as [|Hne']; [assumption|].
      apply (H4 other _ Hne') in Hin.
      apply (nodup_map_injective' l' _ _ _ H2 Hin H3).
    + unfold upsert_user in U.
      destruct (existsb (fun r => negb (fst r =? tg_id usr)
                                  && PyStr.eqb (snd r) (64%N :: ch :: name)) l) eqn:X;
        [|destruct (existsb (fun r => fst r =? tg_id usr) l); discriminate].
      apply existsb_exists in X. destruct X as ([i n] & Hin & Hx). cbn [fst snd] in Hx.
      apply andb_prop in Hx. destruct Hx as [Hi Hn]. apply pystr_eqb_eq in Hn. subst n.
      exists i. split; [|exact Hin]. destruct (Z.eqb_spec i (tg_id usr)); [discriminate | assumption].
Qed.

Lemma record_user_outcome_witness :
  let l := [(1, [64; 97]%N)] in
  NoDup (map fst l) /\ NoDup (map snd l)
  /\ (exists other, other <> 2 /\ In (other, [64; 97]%N) l)
  /\ record_user (Some (mk_user 2 None)) l = Done l.
Proof.
  intros l.
  assert (Ni : NoDup (map fst l)) by (repeat constructor; intros []).
  assert (Nn : NoDup (map snd l)) by (repeat constructor; intros []).
  destruct (record_user_outcome (mk_user 2 (Some [97%N])) l Ni Nn) as [_ A].
  destruct (record_user_outcome (mk_user 2 None) l Ni Nn) as [B _].
  split; [exact Ni|]. split; [exact Nn|].
  split; [exact (A [97%N] eq_refl ltac:(discriminate)) | apply B; left; reflexivity].
Defined.

(** ** The operators table *)

Lemma is_operator_inserted g u g' u' ops :
  is_operator g' u' (insert_operator g u ops)
  = ((g =? g') && (u =? u')) || is_operator g' u' ops.
Proof.
  unfold insert_operator. destruct (is_operator g u ops) eqn:E.
  - destruct (Z.eqb_spec g g') as [->|]; [|reflexivity].
    destruct (Z.eqb_spec u u') as [->|]; [|reflexivity]. rewrite E. reflexivity.
  - unfold is_operator. rewrite existsb_app. cbn [existsb fst snd].
    rewrite orb_false_r, orb_comm. reflexivity.
Qed.

Lemma is_operator_deleted g u g' u' ops :
  is_operator g' u' (delete_operator g u ops)
  = negb ((g =? g') && (u =? u')) && is_operator g' u' ops.
Proof.
  unfold is_operator, delete_operator.
  induction ops as [|[x y] ops IH]; cbn [filter existsb fst snd];
    [rewrite andb_false_r; reflexivity|].
  destruct (Z.eqb_spec x g) as [->|Hx], (Z.eqb_spec y u) as [->|Hy];
    cbn [andb negb existsb fst snd]; rewrite IH;
    destruct (Z.eqb_spec g g') as [<-|], (Z.eqb_spec u u') as [<-|];
    cbn [andb negb orb]; rewrite ?Z.eqb_refl; cbn [andb orb];
    try reflexivity;
    repeat match goal with
           | |- context [?a =? ?b] => destruct (Z.eqb_spec a b); try contradiction;
                                      try congruence
           end; cbn [andb orb]; try reflexivity.
Qed.

Lemma insert_operator_distinct g u ops :
  NoDup ops -> NoDup (insert_operator g u ops).
Proof.
  intros N. unfold insert_operator. destruct (is_operator g u ops) eqn:E; [exact N|].
  apply NoDup_app; [exact N | repeat constructor; intros [] |].
  intros x Hx [<-|[]]. unfold is_operator in E.
  rewrite existsb_false_forall in E. specialize (E (g, u) Hx). cbn [fst snd] in E.
  rewrite !Z.eqb_refl in E. discriminate.
Qed.

Lemma delete_operator_distinct g u ops :
  NoDup ops -> NoDup (delete_operator g u ops).
Proof. intros N. apply NoDup_filter, N. Qed.

(** ** The whole handler *)

Lemma record_user_distinct usr l l' :
  NoDup (map fst l) -> NoDup (map snd l) ->
  record_user usr l = Done l' ->
  NoDup (map fst l') /\ NoDup (map snd l').
Proof.
  intros Ni Nn. unfold record_user. destruct usr as [usr|]; [|intros [= <-]; auto].
  destruct (tg_username usr) as [[|ch name]|]; try (intros [= <-]; auto).
  intros U. destruct (upsert_user_done _ _ _ _ Ni Nn U) as (H1 & H2 & _). auto.
Qed.

Lemma operator_command_keeps g is_setting m args b :
  directory_ok b ->
  directory_ok (snd (operator_command g is_setting m args b))
  /\ ledger (snd (operator_command g is_setting m args b)) = ledger b.
Proof.
  intros [D1 D2 D3]. unfold operator_command.
  destruct (is_admin _ _ _ _) as [[admin cache] asked].
  destruct admin; cbn [negb]; [|split; [constructor; assumption | reflexivity]].
  cbn [users]. destruct (target_user m args (users b)) as [[target|]|r];
    try (split; [constructor; assumption | reflexivity]).
  destruct (record_user (Some target) (users b)) as [users'|] eqn:U;
    [|split; [constructor; assumption | reflexivity]].
  destruct (record_user_distinct _ _ _ D1 D2 U) as [N1 N2].
  destruct is_setting; (split; [constructor|reflexivity]); cbn [users operators];
    try assumption;
    [apply insert_operator_distinct | apply delete_operator_distinct]; exact D3.
Qed.

Lemma list_operators_keeps g m b :
  directory_ok b ->
  directory_ok (snd (list_operators g m b))
  /\ ledger (snd (list_operators g m b)) = ledger b.
Proof.
  intros [D1 D2 D3]. unfold list_operators.
  destruct (is_admin _ _ _ _) as [[admin cache] asked].
  destruct admin; cbn [negb]; [|split; [constructor; assumption | reflexivity]].
  destruct (select_operator_names _ _ _);
    (split; [constructor; assumption | reflexivity]).
Qed.

Lemma handle_message_keeps g m b :
  directory_ok b ->
  directory_ok (snd (handle_message g m b))
  /\ (ledger (snd (handle_message g m b)) = ledger b
      \/ exists e, ledger (snd (handle_message g m b)) = step g (ledger b) e).
Proof.
  intros D. unfold handle_message.
  destruct (msg_text m) as [|ch text] eqn:T; [split; [exact D | left; reflexivity]|].
  destruct (record_user (Some (msg_sender m)) (users b)) as [users'|] eqn:U;
    [|split; [exact D | left; reflexivity]].
  destruct D as [D1 D2 D3]. destruct (record_user_distinct _ _ _ D1 D2 U) as [N1 N2].
  assert (D' : directory_ok (mk_bot (ledger b) users' (operators b) (admins_cache b)))
    by (constructor; assumption).
  destruct (PyStr.split _) as [|cmd args]; [split; [exact D' | left; reflexivity]|].
  destruct (is_ledger_command cmd).
  { cbn [admins_cache operators ledger users].
    destruct (is_admin _ _ _ _) as [[admin cache] asked].
    destruct (handle_command g _ _ _ _ _ _) as [r s] eqn:H. cbn [snd ledger].
    split; [constructor; assumption|]. right.
    eexists (Message _ _ _ _ _). cbn [step]. rewrite H. reflexivity. }
  destruct (PyStr.eqb cmd Words.set_operator).
  { destruct (operator_command_keeps g true m args _ D') as [K1 K2].
    split; [exact K1 | left; exact K2]. }
  destruct (PyStr.eqb cmd Words.del_operator).
  { destruct (operator_command_keeps g false m args _ D') as [K1 K2].
    split; [exact K1 | left; exact K2]. }
  destruct (PyStr.eqb cmd Words.list_operators).
  { destruct (list_operators_keeps g m _ D') as [K1 K2].
    split; [exact K1 | left; exact K2]. }
  cbn [ledger users operators admins_cache].
  destruct (handle_command g _ _ _ _ _ _) as [r s] eqn:H. cbn [snd ledger].
  split; [constructor; assumption|]. right.
  eexists (Message _ _ _ _ _). cbn [step]. rewrite H. reflexivity.
Qed.

Lemma handle_callback_keeps g p b :
  directory_ok b ->
  directory_ok (snd (handle_callback g p b))
  /\ (ledger (snd (handle_callback g p b)) = ledger b
      \/ exists e, ledger (snd (handle_callback g p b)) = step g (ledger b) e).
Proof.
  intros [D1 D2 D3].
  assert (K : forall a cache,
            directory_ok
              (snd (let (r, s) := button_callback g (press_user p) a (press_now p)
                                    (press_data p) (ledger b) in
                    (r, mk_bot s (users b) (operators b) cache)))
            /\ (ledger
                  (snd (let (r, s) := button_callback g (press_user p) a (press_now p)
                                        (press_data p) (ledger b) in
                        (r, mk_bot s (users b) (operators b) cache))) = ledger b
                \/ exists e,
                    ledger
                      (snd (let (r, s) := button_callback g (press_user p) a
                                            (press_now p) (press_data p) (ledger b) in
                            (r, mk_bot s (users b) (operators b) cache)))
                    = step g (ledger b) e)).
  { intros a cache. destruct (button_callback g _ _ _ _ _) as [r s] eqn:H.
    cbn [snd ledger]. split; [constructor; assumption|]. right.
    eexists (Button _ _ _ _). cbn [step]. rewrite H. reflexivity. }
  unfold handle_callback.
  destruct (PyStr.split_on _ _ _) as [|action fields]; [apply K|].
  destruct (_ && _); [|apply K].
  destruct (map_int fields) as [[|x [|y [|z l]]]|]; try apply K.
  destruct (is_admin _ _ _ _) as [[admin cache] asked].
  destruct (x =? g); [apply K|].
  split; [constructor; assumption | left; reflexivity].
Qed.

Lemma chat_keeps g es :
  forall b, directory_ok b -> reachable g (ledger b) ->
            directory_ok (chat g es b) /\ reachable g (ledger (chat g es b)).
Proof.
  induction es as [|e es IH]; intros b D R; [split; assumption|].
  cbn [chat fold_left].
  assert (S : directory_ok (bot_step g b e)
              /\ (ledger (bot_step g b e) = ledger b
                  \/ exists ev, ledger (bot_step g b e) = step g (ledger b) ev)).
  { destruct e as [m|p]; cbn [bot_step];
      [apply handle_message_keeps | apply handle_callback_keeps]; exact D. }
  destruct S as [S1 S2]. apply IH; [exact S1|].
  destruct S2 as [->| [ev ->]]; [exact R | apply reachable_step, R].
Qed.

Lemma chat_from_start g es :
  directory_ok (chat g es initial_bot) /\ reachable g (ledger (chat g es initial_bot)).
Proof.
  apply chat_keeps; [constructor; constructor | exists []; reflexivity].
Qed.

(** X18: whatever messages and button presses a group receives, the ledger
    state the whole handler holds is one the ledger handlers reach on their
    own for some answers of the authorization, so that all that holds of
    those states holds of it; and the users table has distinct identifiers
    and distinct names, the operators table distinct rows. *)
Theorem chat_keeps_tables (g : Z) (es : list bot_event) :
  reachable g (ledger (chat g es initial_bot))
  /\ NoDup (map fst (users (chat g es initial_bot)))
  /\ NoDup (map snd (users (chat g es initial_bot)))
  /\ NoDup (operators (chat g es initial_bot)).
Proof.
  destruct (chat_from_start g es) as [[D1 D2 D3] R]. auto.
Qed.

Lemma target_user_refusal m args us r :
  target_user m args us = inr r -> (exists n, r = UnknownUser n) \/ r = TargetFormat.
Proof.
  unfold target_user. destruct (msg_replied m); [discriminate|].
  destruct args as [|a0 rest]; [intros [= <-]; right; reflexivity|].
  destruct (PyStr.startswith a0 [64%N]); [|intros [= <-]; right; reflexivity].
  destruct (select_user a0 us); [discriminate|]. intros [= <-]. left. eauto.
Qed.

Lemma operator_command_reply g is_setting m args b :
  match fst (operator_command g is_setting m args b) with
  | OperatorSet id =>
      fst (fst (is_admin (tg_id (msg_sender m)) (msg_clock m) (msg_directory m)
                  (admins_cache b))) = true
      /\ is_operator g id (operators (snd (operator_command g is_setting m args b)))
         = true
      /\ (forall g' u',
            is_operator g' u' (operators (snd (operator_command g is_setting m args b)))
            = ((g =? g') && (id =? u')) || is_operator g' u' (operators b))
      /\ ledger (snd (operator_command g is_setting m args b)) = ledger b
  | OperatorRemoved id =>
      fst (fst (is_admin (tg_id (msg_sender m)) (msg_clock m) (msg_directory m)
                  (admins_cache b))) = true
      /\ is_operator g id (operators (snd (operator_command g is_setting m args b)))
         = false
      /\ (forall g' u',
            is_operator g' u' (operators (snd (operator_command g is_setting m args b)))
            = negb ((g =? g') && (id =? u')) && is_operator g' u' (operators b))
      /\ ledger (snd (operator_command g is_setting m args b)) = ledger b
  | _ => operators (snd (operator_command g is_setting m args b)) = operators b
  end.
Proof.
  unfold operator_command.
  destruct (is_admin _ _ _ _) as [[admin cache] asked]. cbn [fst].
  destruct admin; cbn [negb]; [|reflexivity].
  cbn [users]. destruct (target_user m args (users b)) as [[target|]|r] eqn:T.
  - destruct (record_user (Some target) (users b)); [|reflexivity].
    destruct is_setting; cbn [fst snd operators ledger].
    + split; [reflexivity|].
      split; [rewrite is_operator_inserted, !Z.eqb_refl; reflexivity|].
      split; [intros g' u'; apply is_operator_inserted | reflexivity].
    + split; [reflexivity|].
      split; [rewrite is_operator_deleted, !Z.eqb_refl; reflexivity|].
      split; [intros g' u'; apply is_operator_deleted | reflexivity].
  - reflexivity.
  - apply target_user_refusal in T. destruct T as [[n ->] | ->]; reflexivity.
Qed.

(** X19: the operators table changes by the two operator commands of an
    administrator only.  When the handler answers that a user was set as
    operator, the sender is an administrator and that user is an operator of
    the group from then on; when it answers that a user was removed, the
    sender is an administrator and that user is no operator any more; no
    other grant changes, and the ledger is untouched.  After any other
    answer the table is what it was. *)
Theorem operator_table_changes (g : Z) (m : message) (b : bot) :
  match fst (handle_message g m b) with
  | OperatorSet id =>
      fst (fst (is_admin (tg_id (msg_sender m)) (msg_clock m) (msg_directory m)
                  (admins_cache b))) = true
      /\ is_operator g id (operators (snd (handle_message g m b))) = true
      /\ (forall g' u',
            is_operator g' u' (operators (snd (handle_message g m b)))
            = ((g =? g') && (id =? u')) || is_operator g' u' (operators b))
      /\ ledger (snd (handle_message g m b)) = ledger b
  | OperatorRemoved id =>
      fst (fst (is_admin (tg_id (msg_sender m)) (msg_clock m) (msg_directory m)
                  (admins_cache b))) = true
      /\ is_operator g id (operators (snd (handle_message g m b))) = false
      /\ (forall g' u',
            is_operator g' u' (operators (snd (handle_message g m b)))
            = negb ((g =? g') && (id =? u')) && is_operator g' u' (operators b))
      /\ ledger (snd (handle_message g m b)) = ledger b
  | _ => operators (snd (handle_message g m b)) = operators b
  end.
Proof.
  unfold handle_message.
  destruct (msg_text m) as [|ch text]; [reflexivity|].
  destruct (record_user (Some (msg_sender m)) (users b)) as [users'|]; [|reflexivity].
  destruct (PyStr.split _) as [|cmd args]; [reflexivity|].
  destruct (is_ledger_command cmd).
  { cbn [admins_cache operators ledger users].
    destruct (is_admin _ _ _ _) as [[admin cache] asked].
    destruct (handle_command g _ _ _ _ _ _) as [r s]. reflexivity. }
  destruct (PyStr.eqb cmd Words.set_operator).
  { exact (operator_command_reply g true m args
             (mk_bot (ledger b) users' (operators b) (admins_cache b))). }
  destruct (PyStr.eqb cmd Words.del_operator).
  { exact (operator_command_reply g false m args
             (mk_bot (ledger b) users' (operators b) (admins_cache b))). }
  destruct (PyStr.eqb cmd Words.list_operators).
  { unfold list_operators. destruct (is_admin _ _ _ _) as [[admin cache] asked].
    destruct admin; cbn [negb]; [|reflexivity].
    destruct (select_operator_names _ _ _); reflexivity. }
  cbn [ledger users operators admins_cache].
  destruct (handle_command g _ _ _ _ _ _) as [r s]. reflexivity.
Qed.

Lemma signed_digits_is_ledger cmd :
  PyStr.match_signed_digits cmd = true -> is_ledger_command cmd = true.
Proof.
  intros M. unfold is_ledger_command. rewrite M, !orb_true_r. reflexivity.
Qed.

(** X20: who may write an entry.  In a group with an active cycle, the entry
    command of a sender who is an administrator of the chat or an operator
    of the group is carried out: when the amount and the total it goes into
    stay inside the 64 bits of the store, the entry is appended under the
    sender's identifier and the summary is the answer; when they do not, the
    exception of the store is not caught and the file is as it was.  The
    command of anyone else is not answered and changes nothing in the
    ledger.  An operator needs no answer from the chat service for that: the
    grant holds even while the directory fails. *)
Theorem entry_needs_admin_or_operator
    (g : Z) (es : list bot_event) (m : message) (cmd : pystr) (args : list pystr)
    (v c : Z) (users' : list (Z * pystr)) :
  select_active_cycle g (disk (ledger (chat g es initial_bot))) = Some c ->
  record_user (Some (msg_sender m)) (users (chat g es initial_bot)) = Done users' ->
  PyStr.split (PyStr.strip (msg_text m)) = cmd :: args ->
  PyStr.match_signed_digits cmd = true ->
  PyStr.int cmd = Some v ->
  let b := chat g es initial_bot in
  let admin :=
    fst (fst (is_admin (tg_id (msg_sender m)) (msg_clock m) (msg_directory m)
                (admins_cache b))) in
  if admin || is_operator g (tg_id (msg_sender m)) (operators b)
  then if entry_fits (disk (ledger b)) c v (entry_note args)
       then exists sm id,
              fst (handle_message g m b) = Ledger (ReplySummary sm)
              /\ bills (disk (ledger (snd (handle_message g m b))))
                 = bills (disk (ledger b))
                   ++ [mk_bill id c g (tg_id (msg_sender m)) v (entry_note args)
                         (msg_now m 0%nat)]
       else fst (handle_message g m b) = Ledger Uncaught
            /\ disk (ledger (snd (handle_message g m b))) = disk (ledger b)
  else fst (handle_message g m b) = Ledger NoReply
       /\ ledger (snd (handle_message g m b)) = ledger b.
Proof.
  intros S U H M I b admin.
  destruct (chat_from_start g es) as [_ R]. fold b in R, S.
  pose proof (reachable_consistent g _ R) as C.
  assert (T : msg_text m <> []) by (intros E; rewrite E in H; discriminate).
  unfold handle_message. destruct (msg_text m) as [|ch text] eqn:Et; [contradiction|].
  fold b in U. rewrite U, H, (signed_digits_is_ledger cmd M).
  cbn [admins_cache operators ledger users]. unfold admin.
  destruct (is_admin _ _ _ _) as [[ad cache] asked]. cbn [fst].
  rewrite <- Et in *.
  rewrite (command_entry g _ _ (msg_now m) (msg_faults m) (msg_text m) cmd args _ H M).
  destruct (ad || is_operator g (tg_id (msg_sender m)) (operators b)).
  - rewrite (handle_entry_consistent_eq g _ (msg_now m) cmd args _ C), S, I.
    cbv zeta. destruct (entry_fits _ _ _ _); cbn [fst snd ledger disk].
    + eexists. eexists. split; reflexivity.
    + split; reflexivity.
  - cbn [handle_entry negb fst snd ledger]. split; reflexivity.
Qed.

Lemma entry_needs_admin_or_operator_witness :
  let open_it :=
    Said (mk_message (mk_user 1 None) Words.open_cycle None (fun _ => 0) (Some [1])
            Sample.clock no_fault) in
  let grant :=
    Said (mk_message (mk_user 1 None) Words.set_operator (Some (Some (mk_user 2 None)))
            (fun _ => 0) (Some [1]) Sample.clock no_fault) in
  let b := chat Sample.group [open_it; grant] initial_bot in
  let m := mk_message (mk_user 2 None) Sample.plus_900 None (fun _ => 700000000) None
             Sample.clock no_fault in
  is_operator Sample.group 2 (operators b) = true
  /\ exists sm id,
       fst (handle_message Sample.group m b) = Ledger (ReplySummary sm)
       /\ bills (disk (ledger (snd (handle_message Sample.group m b))))
          = bills (disk (ledger b))
            ++ [mk_bill id 1 Sample.group 2 900 (entry_note []) (Sample.clock 0%nat)].
Proof.
  intros open_it grant b m. split; [reflexivity|].
  exact (entry_needs_admin_or_operator Sample.group [open_it; grant] m
           [43; 57; 48; 48]%N [] 900 1 (users b) eq_refl eq_refl eq_refl eq_refl eq_refl).
Defined.

Lemma button_callback_unauthorized g u now data s :
  snd (button_callback g u false now data s) = s
  /\ forall w sm, fst (button_callback g u false now data s) <> CbImported w sm.
Proof.
  unfold button_callback.
  destruct (PyStr.split_on _ _ _) as [|action fields]; [split; [reflexivity | discriminate]|].
  destruct (PyStr.eqb action Words.details).
  - destruct (map_int fields) as [[|x [|y [|z [|w l]]]]|];
      try (split; [reflexivity | discriminate]).
    destruct (_ =? _); [|split; [reflexivity | discriminate]].
    unfold show_details. destruct (_ || _); split; (reflexivity || discriminate).
  - destruct (PyStr.eqb action Words.importbalance); [|split; [reflexivity | discriminate]].
    destruct (map_int fields) as [[|x [|y [|z l]]]|];
      try (split; [reflexivity | discriminate]).
    destruct (_ =? _); split; (reflexivity || discriminate).
Qed.

Lemma unauthorized_command_reply g u now faults text cmd args s :
  PyStr.split (PyStr.strip text) = cmd :: args ->
  handle_command g u false now faults text s = (NoReply, s)
  \/ handle_command g u false now faults text s = (ReplyUnauthorized, s)
  \/ handle_command g u false now faults text s = (ReplyOther, s).
Proof.
  intros H. unfold handle_command. destruct text as [|ch text]; [left; reflexivity|].
  rewrite H.
  repeat match goal with
         | |- context [if ?b then _ else _] => destruct b
         end; cbn; auto.
Qed.

(** X14: an actor without the right to write changes nothing in the ledger.
    A message of a sender who is neither an administrator of the chat nor an
    operator of the group leaves the three tables of the ledger, the cached
    active cycle and the operators table as they were, whatever its text.
    What it can change is the sender's own row of the users table, which
    record_user writes before the command is read, and the cached list of
    administrators, which is_admin may refresh; the answer is none, the
    refusal, the text of the other commands, the refusal of the operator
    commands, or the failure of record_user or of a text without a word,
    before any branch.  A button press of such an
    actor changes no table and imports nothing; the details are shown to
    anyone. *)
Theorem unauthorized_changes_nothing (g : Z) (m : message) (p : press) (b : bot) :
  (fst (fst (is_admin (tg_id (msg_sender m)) (msg_clock m) (msg_directory m)
               (admins_cache b))) = false ->
   is_operator g (tg_id (msg_sender m)) (operators b) = false ->
   ledger (snd (handle_message g m b)) = ledger b
   /\ operators (snd (handle_message g m b)) = operators b
   /\ (users (snd (handle_message g m b)) = users b
       \/ record_user (Some (msg_sender m)) (users b)
          = Done (users (snd (handle_message g m b))))
   /\ (admins_cache (snd (handle_message g m b)) = admins_cache b
       \/ admins_cache (snd (handle_message g m b))
          = snd (fst (is_admin (tg_id (msg_sender m)) (msg_clock m) (msg_directory m)
                        (admins_cache b))))
   /\ In (fst (handle_message g m b))
        [Ledger NoReply; Ledger ReplyUnauthorized; Ledger ReplyOther; AdminOnly; Failed])
  /\ (fst (fst (is_admin (press_user p) (press_clock p) (press_directory p)
                  (admins_cache b))) = false ->
      is_operator g (press_user p) (operators b) = false ->
      ledger (snd (handle_callback g p b)) = ledger b
      /\ users (snd (handle_callback g p b)) = users b
      /\ operators (snd (handle_callback g p b)) = operators b
      /\ (admins_cache (snd (handle_callback g p b)) = admins_cache b
          \/ admins_cache (snd (handle_callback g p b))
             = snd (fst (is_admin (press_user p) (press_clock p) (press_directory p)
                           (admins_cache b))))
      /\ forall w sm, fst (handle_callback g p b) <> CbImported w sm).
Proof.
  split.
  - intros A O. unfold handle_message.
    destruct (msg_text m) as [|ch text] eqn:T.
    { cbn [fst snd In]. repeat split; auto 10. }
    rewrite <- T.
    destruct (record_user (Some (msg_sender m)) (users b)) as [users'|] eqn:U.
    2:{ cbn [fst snd In]. repeat split; auto 10. }
    destruct (PyStr.split _) as [|cmd args] eqn:Hs.
    { cbn [fst snd ledger operators users admins_cache In]. repeat split; auto 10. }
    assert (L : forall cache,
              cache = admins_cache b
              \/ cache = snd (fst (is_admin (tg_id (msg_sender m)) (msg_clock m)
                                     (msg_directory m) (admins_cache b))) ->
              let r := let (r, s) :=
                         handle_command g (tg_id (msg_sender m)) false (msg_now m)
                           (msg_faults m) (msg_text m) (ledger b) in
                       (Ledger r, mk_bot s users' (operators b) cache) in
              ledger (snd r) = ledger b
              /\ operators (snd r) = operators b
              /\ (users (snd r) = users b \/ Done users' = Done (users (snd r)))
              /\ (admins_cache (snd r) = admins_cache b
                  \/ admins_cache (snd r)
                     = snd (fst (is_admin (tg_id (msg_sender m)) (msg_clock m)
                                   (msg_directory m) (admins_cache b))))
              /\ In (fst r)
                   [Ledger NoReply; Ledger ReplyUnauthorized; Ledger ReplyOther;
                    AdminOnly; Failed]).
    { intros cache Hc. cbv zeta.
      destruct (unauthorized_command_reply g (tg_id (msg_sender m)) (msg_now m)
                  (msg_faults m) (msg_text m) cmd args (ledger b) Hs)
        as [K|[K|K]]; rewrite K;
        cbn [fst snd ledger operators users admins_cache In];
        (split; [reflexivity|]); (split; [reflexivity|]);
        (split; [right; reflexivity|]); (split; [exact Hc|]); auto 10. }
    assert (N : forall (r : bot_reply * bot) cache,
              cache = snd (fst (is_admin (tg_id (msg_sender m)) (msg_clock m)
                                  (msg_directory m) (admins_cache b))) ->
              r = (AdminOnly, mk_bot (ledger b) users' (operators b) cache) ->
              ledger (snd r) = ledger b
              /\ operators (snd r) = operators b
              /\ (users (snd r) = users b \/ Done users' = Done (users (snd r)))
              /\ (admins_cache (snd r) = admins_cache b
                  \/ admins_cache (snd r)
                     = snd (fst (is_admin (tg_id (msg_sender m)) (msg_clock m)
                                   (msg_directory m) (admins_cache b))))
              /\ In (fst r)
                   [Ledger NoReply; Ledger ReplyUnauthorized; Ledger ReplyOther;
                    AdminOnly; Failed]).
    { intros r cache -> ->. cbn [fst snd ledger operators users admins_cache In].
      repeat split; auto 10. }
    destruct (is_ledger_command cmd).
    { cbn [admins_cache operators ledger users].
      destruct (is_admin _ _ _ _) as [[admin cache] asked]. cbn [fst snd] in A, L |- *.
      subst admin. rewrite O. cbn [orb]. apply L. right. reflexivity. }
    destruct (PyStr.eqb cmd Words.set_operator).
    { unfold operator_command. cbn [admins_cache operators ledger users].
      destruct (is_admin _ _ _ _) as [[admin cache] asked]. cbn [fst snd] in A, N |- *.
      subst admin. cbn [negb]. apply (N _ cache); reflexivity. }
    destruct (PyStr.eqb cmd Words.del_operator).
    { unfold operator_command. cbn [admins_cache operators ledger users].
      destruct (is_admin _ _ _ _) as [[admin cache] asked]. cbn [fst snd] in A, N |- *.
      subst admin. cbn [negb]. apply (N _ cache); reflexivity. }
    destruct (PyStr.eqb cmd Words.list_operators).
    { unfold list_operators. cbn [admins_cache operators ledger users].
      destruct (is_admin _ _ _ _) as [[admin cache] asked]. cbn [fst snd] in A, N |- *.
      subst admin. cbn [negb]. apply (N _ cache); reflexivity. }
    cbn [admins_cache operators ledger users]. apply L. left. reflexivity.
  - intros A O.
    assert (K : forall cache,
              cache = admins_cache b
              \/ cache = snd (fst (is_admin (press_user p) (press_clock p)
                                     (press_directory p) (admins_cache b))) ->
              let r := let (r, s) :=
                         button_callback g (press_user p) false (press_now p)
                           (press_data p) (ledger b) in
                       (r, mk_bot s (users b) (operators b) cache) in
              ledger (snd r) = ledger b
              /\ users (snd r) = users b
              /\ operators (snd r) = operators b
              /\ (admins_cache (snd r) = admins_cache b
                  \/ admins_cache (snd r)
                     = snd (fst (is_admin (press_user p) (press_clock p)
                                   (press_directory p) (admins_cache b))))
              /\ forall w sm, fst r <> CbImported w sm).
    { intros cache Hc. cbv zeta.
      destruct (button_callback_unauthorized g (press_user p) (press_now p)
                  (press_data p) (ledger b)) as [K1 K2].
      destruct (button_callback g _ false _ _ _) as [r s]. cbn [fst snd] in K1, K2.
      subst s. cbn [fst snd ledger operators users admins_cache].
      repeat split; auto. }
    unfold handle_callback.
    destruct (PyStr.split_on _ _ _) as [|action fields]; [apply K; left; reflexivity|].
    destruct (_ && _); [|apply K; left; reflexivity].
    destruct (map_int fields) as [[|x [|y [|z l]]]|]; try (apply K; left; reflexivity).
    destruct (is_admin _ _ _ _) as [[admin cache] asked]. cbn [fst snd] in A, K |- *.
    subst admin. rewrite O. cbn [orb].
    destruct (x =? g); [apply K; right; reflexivity|].
    cbn [fst snd ledger operators users admins_cache].
    repeat split; [right; reflexivity | discriminate].
Qed.

(** User 2, named a, is no administrator and no operator: the entry command
    and the import button of this user leave the ledger as it was, and the
    message adds the row of the user to the users table. *)
Lemma unauthorized_changes_nothing_witness :
  let open_it :=
    Said (mk_message (mk_user 1 None) Words.open_cycle None (fun _ => 0) (Some [1])
            Sample.clock no_fault) in
  let b := chat Sample.group [open_it] initial_bot in
  let m := mk_message (mk_user 2 (Some [97%N])) Sample.plus_900 None (fun _ => 0)
             (Some [1]) Sample.clock no_fault in
  let p := mk_press 2 (importbalance_data Sample.group 5) (fun _ => 0) (Some [1])
             Sample.clock in
  users b = []
  /\ users (snd (handle_message Sample.group m b)) = [(2, [64; 97]%N)]
  /\ ledger (snd (handle_message Sample.group m b)) = ledger b
  /\ ledger (snd (handle_callback Sample.group p b)) = ledger b.
Proof.
  intros open_it b m p.
  destruct (unauthorized_changes_nothing Sample.group m p b) as [A B].
  split; [reflexivity|]. split; [reflexivity|].
  split; [exact (proj1 (A eq_refl eq_refl)) | exact (proj1 (B eq_refl eq_refl))].
Defined.

(** X21: the sender of every message is recorded before the command is
    looked at, and the users table takes a name once.  When the table holds
    the name of the sender under the identifier of another user, no command
    of the sender is carried out: the handler fails before it reads the
    command, and nothing changes. *)
Theorem taken_name_blocks_sender
    (g : Z) (m : message) (b : bot) (name : pystr) (other : Z) :
  msg_text m <> [] ->
  tg_username (msg_sender m) = Some name -> name <> [] ->
  In (other, 64%N :: name) (users b) -> other <> tg_id (msg_sender m) ->
  handle_message g m b = (Failed, b).
Proof.
  intros T E Hn Hin Ho. unfold handle_message.
  destruct (msg_text m) as [|ch text]; [contradiction|].
  unfold record_user. rewrite E. destruct name as [|x name]; [contradiction|].
  unfold upsert_user.
  assert (X : existsb (fun r => negb (fst r =? tg_id (msg_sender m))
                                && PyStr.eqb (snd r) (64%N :: x :: name)) (users b)
              = true).
  { apply existsb_exists. exists (other, 64%N :: x :: name). split; [exact Hin|].
    cbn [fst snd]. rewrite pystr_eqb_refl.
    destruct (Z.eqb_spec other (tg_id (msg_sender m))); [contradiction | reflexivity]. }
  rewrite X. reflexivity.
Qed.

Lemma taken_name_blocks_sender_witness :
  let first :=
    Said (mk_message (mk_user 1 (Some [97%N])) Words.help None (fun _ => 0) None
            Sample.clock no_fault) in
  let b := chat Sample.group [first] initial_bot in
  let m := mk_message (mk_user 2 (Some [97%N])) Words.open_cycle None (fun _ => 0)
             (Some [2]) Sample.clock no_fault in
  users b = [(1, [64; 97]%N)]
  /\ handle_message Sample.group m b = (Failed, b).
Proof.
  intros first b m. split; [reflexivity|].
  apply (taken_name_blocks_sender Sample.group m b [97%N] 1).
  - discriminate.
  - reflexivity.
  - discriminate.
  - left; reflexivity.
  - discriminate.
Defined.

(** ** More on the retry wrapper *)

Lemma retry_loop_answer {A} (api_call : nat -> Retry.attempt A) (max_retries : nat)
    (a : A) :
  forall (k remaining attempt_no : nat) (delay : Q),
    (k < remaining)%nat -> (attempt_no + remaining = max_retries)%nat ->
    (forall n, (attempt_no <= n < attempt_no + k)%nat ->
               api_call n = Retry.RaisesTimedOut) ->
    api_call (attempt_no + k)%nat = Retry.Returns a ->
    fst (Retry.retry_loop api_call max_retries remaining attempt_no delay)
    = Retry.Value (Some a)
    /\ Retry.calls (snd (Retry.retry_loop api_call max_retries remaining attempt_no delay))
       = seq attempt_no (S k)
    /\ Retry.sleeps (snd (Retry.retry_loop api_call max_retries remaining attempt_no delay))
       = Retry.doubling delay k.
Proof.
  induction k as [|k IH]; intros remaining attempt_no delay Hk E T R;
    (destruct remaining as [|rem]; [lia|]); cbn [Retry.retry_loop].
  - rewrite Nat.add_0_r in R. rewrite R. repeat split.
  - rewrite (T attempt_no ltac:(lia)).
    destruct (Nat.eqb_spec (attempt_no + 1) max_retries) as [Em|Em]; [lia|].
    destruct (IH rem (S attempt_no) (delay * 2)%Q ltac:(lia) ltac:(lia)) as (I1 & I2 & I3).
    + intros n Hn. apply T. lia.
    + rewrite <- R. f_equal. lia.
    + destruct (Retry.retry_loop api_call max_retries rem (S attempt_no) (delay * 2)%Q)
        as [r t]. cbn [fst snd] in *.
      split; [exact I1|]. split.
      * cbn [Retry.calls flat_map app]. fold (Retry.calls t). rewrite I2. reflexivity.
      * cbn [Retry.sleeps flat_map app Retry.doubling]. fold (Retry.sleeps t).
        rewrite I3. reflexivity.
Qed.

(** X22: a delivery that times out a few times and then goes through is made
    once.  When the first [k] calls time out and call [k] returns, with [k]
    below the number of retries, the wrapper returns the value of that call
    after exactly [k + 1] calls and [k] sleeps of the initial delay, twice
    it, and so on; no call follows the one that returned. *)
Theorem retry_returns_first_answer
    (A : Type) (api_call : nat -> Retry.attempt A) (max_retries : nat)
    (initial_delay : Q) (k : nat) (a : A) :
  (k < max_retries)%nat ->
  (forall n, (n < k)%nat -> api_call n = Retry.RaisesTimedOut) ->
  api_call k = Retry.Returns a ->
  fst (Retry.robust_telegram_call api_call max_retries initial_delay)
  = Retry.Value (Some a)
  /\ Retry.calls (snd (Retry.robust_telegram_call api_call max_retries initial_delay))
     = seq 0 (S k)
  /\ Retry.sleeps (snd (Retry.robust_telegram_call api_call max_retries initial_delay))
     = Retry.doubling initial_delay k.
Proof.
  intros Hk T R. unfold Retry.robust_telegram_call.
  apply (retry_loop_answer api_call max_retries a k max_retries 0 initial_delay);
    [exact Hk | reflexivity | intros n Hn; apply T; lia | exact R].
Qed.

Lemma retry_returns_first_answer_witness :
  let api_call := fun n : nat => if Nat.eqb n 2 then Retry.Returns 7 else Retry.RaisesTimedOut in
  fst (Retry.robust_telegram_call api_call 3 1%Q) = Retry.Value (Some 7)
  /\ Retry.calls (snd (Retry.robust_telegram_call api_call 3 1%Q)) = [0; 1; 2]%nat
  /\ Retry.sleeps (snd (Retry.robust_telegram_call api_call 3 1%Q)) = [1; 2]%Q.
Proof.
  intros api_call.
  apply (retry_returns_first_answer Z api_call 3 1%Q 2 7).
  - lia.
  - intros [|[|n]] Hn; [reflexivity | reflexivity | lia].
  - reflexivity.
Defined.

(** X23: editing a message never fails for the caller.  The fallback reply
    is tried exactly when the edit gave up, that is when no edit call
    returned; the edit makes at most 3 calls and the fallback at most 3 more,
    and whatever the fallback does is dropped as well. *)
Theorem edit_falls_back_once
    (A B : Type) (edit : nat -> Retry.attempt A) (reply : nat -> Retry.attempt B) :
  fst (fst (Retry.robust_edit_message_text edit reply)) = Retry.Value tt
  /\ (length (Retry.calls (snd (fst (Retry.robust_edit_message_text edit reply)))) <= 3)%nat
  /\ (snd (Retry.robust_edit_message_text edit reply) = None
      <-> exists k a, (k < 3)%nat /\ edit k = Retry.Returns a
                      /\ forall n, (n < k)%nat -> edit n = Retry.RaisesTimedOut)
  /\ (forall t, snd (Retry.robust_edit_message_text edit reply) = Some t ->
        t = snd (Retry.send_robust_reply reply)
        /\ (length (Retry.calls t) <= 3)%nat).
Proof.
  assert (Fallback : (length (Retry.calls (snd (Retry.send_robust_reply reply))) <= 3)%nat).
  { unfold Retry.send_robust_reply, Retry.robust_telegram_call.
    destruct (retry_loop_trace reply 3 3 0 1%Q eq_refl) as (k & K1 & _ & K3 & _).
    destruct (Retry.retry_loop reply 3 3 0 1%Q) as [[v|e] t]; cbn [fst snd] in *.
    - rewrite K3, length_seq. exact K1.
    - rewrite calls_app, K3. cbn. rewrite app_nil_r, length_seq. exact K1. }
  unfold Retry.robust_edit_message_text, Retry.robust_telegram_call.
  cbn [Retry.retry_loop Nat.eqb Nat.add].
  destruct (edit 0%nat) as [a0| |e0] eqn:E0.
  - cbn. split; [reflexivity|]. split; [lia|]. split.
    + split; [intros _|reflexivity]. exists 0%nat, a0.
      split; [lia|]. split; [exact E0 | intros n Hn; lia].
    + discriminate.
  - destruct (edit 1%nat) as [a1| |e1] eqn:E1.
    + cbn. split; [reflexivity|]. split; [lia|]. split.
      * split; [intros _|reflexivity]. exists 1%nat, a1.
        split; [lia|]. split; [exact E1|].
        intros [|n] Hn; [exact E0 | lia].
      * discriminate.
    + destruct (edit 2%nat) as [a2| |e2] eqn:E2.
      * cbn. split; [reflexivity|]. split; [lia|]. split.
        -- split; [intros _|reflexivity]. exists 2%nat, a2.
           split; [lia|]. split; [exact E2|].
           intros [|[|n]] Hn; [exact E0 | exact E1 | lia].
        -- discriminate.
      * destruct (Retry.send_robust_reply reply) as [rr tr] eqn:Er. cbn.
        split; [reflexivity|]. split; [lia|]. split.
        -- split; [discriminate|]. intros (k & a & Hk & Ek & _).
           destruct k as [|[|[|k]]]; [congruence | congruence | congruence | lia].
        -- intros t [= <-]. split; [reflexivity | exact Fallback].
      * destruct (Retry.send_robust_reply reply) as [rr tr] eqn:Er. cbn.
        split; [reflexivity|]. split; [lia|]. split.
        -- split; [discriminate|]. intros (k & a & Hk & Ek & Hb).
           destruct k as [|[|[|k]]]; [congruence | congruence | congruence | lia].
        -- intros t [= <-]. split; [reflexivity | exact Fallback].
    + destruct (Retry.send_robust_reply reply) as [rr tr] eqn:Er. cbn.
      split; [reflexivity|]. split; [lia|]. split.
      * split; [discriminate|]. intros (k & a & Hk & Ek & Hb).
        destruct k as [|[|[|k]]]; [congruence | congruence | | lia].
        specialize (Hb 1%nat ltac:(lia)). congruence.
      * intros t [= <-]. split; [reflexivity | exact Fallback].
  - destruct (Retry.send_robust_reply reply) as [rr tr] eqn:Er. cbn.
    split; [reflexivity|]. split; [lia|]. split.
    + split; [discriminate|]. intros (k & a & Hk & Ek & Hb).
      destruct k as [|k]; [congruence|]. specialize (Hb 0%nat ltac:(lia)). congruence.
    + intros t [= <-]. split; [reflexivity | exact Fallback].
Qed.

(** ** The locks of the groups *)

Lemma lookup_lock_in (g : Z) (t : lock_table) (l : nat) :
  lookup_lock g t = Some l -> In (g, l) (locks t).
Proof.
  unfold lookup_lock.
  destruct (find (fun r => fst r =? g) (locks t)) as [[g0 l0]|] eqn:F; [|discriminate].
  intros [= <-]. apply find_some in F. destruct F as [I E].
  cbn [fst snd] in *. apply Z.eqb_eq in E. subst g0. exact I.
Qed.

Lemma get_group_lock_ok (g : Z) (t : lock_table) :
  locks_ok t -> locks_ok (snd (get_group_lock g t)).
Proof.
  intros [B D]. unfold get_group_lock.
  destruct (lookup_lock g t) as [l|]; [split; assumption|].
  cbn [snd]. split; cbn [locks locks_created In].
  - intros g0 l0 [E|I]; [injection E as <- <-; lia|]. specialize (B _ _ I). lia.
  - intros g0 g1 l0 [E0|I0] [E1|I1].
    + congruence.
    + injection E0 as <- <-. specialize (B _ _ I1). lia.
    + injection E1 as <- <-. specialize (B _ _ I0). lia.
    + exact (D _ _ _ I0 I1).
Qed.

Lemma lock_calls_ok (gs : list Z) (t : lock_table) :
  locks_ok t -> locks_ok (lock_calls gs t).
Proof.
  revert t. induction gs as [|g gs IH]; intros t H; [exact H|].
  cbn [lock_calls fold_left]. apply IH, get_group_lock_ok, H.
Qed.

Lemma get_group_lock_keeps (g g' : Z) (t : lock_table) (l : nat) :
  lookup_lock g t = Some l -> lookup_lock g (snd (get_group_lock g' t)) = Some l.
Proof.
  intros L. unfold get_group_lock.
  destruct (lookup_lock g' t) as [l'|] eqn:L'; [exact L|].
  cbn [snd]. unfold lookup_lock. cbn [locks find fst].
  destruct (Z.eqb_spec g' g) as [->|N]; [congruence|]. exact L.
Qed.

Lemma lock_calls_keeps (gs : list Z) (g : Z) (t : lock_table) (l : nat) :
  lookup_lock g t = Some l -> lookup_lock g (lock_calls gs t) = Some l.
Proof.
  revert t. induction gs as [|g' gs IH]; intros t L; [exact L|].
  cbn [lock_calls fold_left]. apply IH, get_group_lock_keeps, L.
Qed.

Lemma get_group_lock_found (g : Z) (t : lock_table) :
  lookup_lock g (snd (get_group_lock g t)) = Some (fst (get_group_lock g t)).
Proof.
  unfold get_group_lock. destruct (lookup_lock g t) as [l|] eqn:L; [exact L|].
  cbn [fst snd]. unfold lookup_lock. cbn [locks find fst].
  rewrite Z.eqb_refl. reflexivity.
Qed.

(** X24: a group has one lock for the life of the process, and no two groups
    share a lock.  After any calls of get_group_lock, the lock a call returns
    for a group is returned again by every later call for that group,
    whatever calls for other groups come in between, and a call for another
    group returns a different lock. *)
Theorem group_lock_is_stable (before between : list Z) (g g' : Z) :
  let t := get_group_lock g (lock_calls before no_locks) in
  let later := lock_calls between (snd t) in
  fst (get_group_lock g later) = fst t
  /\ (g' <> g -> fst (get_group_lock g' later) <> fst t).
Proof.
  intros t later.
  assert (Ok : locks_ok later).
  { apply lock_calls_ok, get_group_lock_ok, lock_calls_ok.
    split; [intros ? ? [] | intros ? ? ? []]. }
  assert (L : lookup_lock g later = Some (fst t)).
  { apply lock_calls_keeps, get_group_lock_found. }
  split.
  - unfold get_group_lock. rewrite L. reflexivity.
  - intros N E.
    pose proof (get_group_lock_found g' later) as F. rewrite E in F.
    pose proof (get_group_lock_keeps g g' later _ L) as K.
    apply lookup_lock_in in F. apply lookup_lock_in in K.
    destruct (get_group_lock_ok g' later Ok) as [_ D].
    apply N. exact (D _ _ _ F K).
Qed.

Lemma group_lock_is_stable_witness :
  fst (get_group_lock 7 (lock_calls [3; 7; 3] (snd (get_group_lock 7 (lock_calls [3] no_locks)))))
  = fst (get_group_lock 7 (lock_calls [3] no_locks))
  /\ fst (get_group_lock 5 (lock_calls [3; 7; 3] (snd (get_group_lock 7 (lock_calls [3] no_locks)))))
     <> fst (get_group_lock 7 (lock_calls [3] no_locks)).
Proof.
  destruct (group_lock_is_stable [3] [3; 7; 3] 7 5) as [S D].
  split; [exact S | apply D; discriminate].
Defined.

(** ** The filter of the message handler *)














Lemma signed_digits_word (sign : N) (digits : pystr) :
  sign = 43%N \/ sign = 45%N -> digits <> [] ->
  Forall (fun d => PyStr.isdecimal d = true) digits ->
  PyStr.match_signed_digits (sign :: digits) = true.
Proof.
  intros Hs Hd F. destruct digits as [|d ds]; [congruence|].
  inversion F as [|? ? D _]; subst. cbn [PyStr.match_signed_digits]. rewrite D.
  destruct Hs as [-> | ->]; reflexivity.
Qed.












